(** * Cordon and drain: a shallow embedding of [K8sCordon], [K8sDrain],
    [evictWithRetry] and [waitPodDeleted] of package [tools].

    The cluster is an oracle: a record of functions over an abstract world
    [W].  Every request the code issues is logged, with the world it was
    issued in, so that statements about what was (not) sent are statements
    about the log.  The two [for] loops that only the deadline ends take
    fuel; running out of fuel is [None] and is never a result of the code. *)

From stdpp Require Import gmap strings list fin_maps.
From Stdlib Require Import ZArith Lia.

Set Warnings "-register-all".

(** ** Machine integers and durations *)

Module Duration.
Local Open Scope Z_scope.

(** Go's [int] (64 bit) and [time.Duration] are [int64]: arithmetic wraps. *)
Definition wrap64 (z : Z) : Z := (z + 2 ^ 63) mod 2 ^ 64 - 2 ^ 63.

(** [time.Duration] counts nanoseconds. *)
Definition Millisecond : Z := 1000000.
Definition Second : Z := 1000000000.

(** [time.Duration(n) * unit] *)
Definition scale (n unit : Z) : Z := wrap64 (n * unit).

Definition ms (n : Z) : Z := scale n Millisecond.
End Duration.
Import Duration.

(** ** Values handed to the JSON encoder *)

Inductive JSON : Type :=
| JNull
| JBool (b : bool)
| JInt (z : Z)
| JString (s : string)
| JArray (l : list JSON)
| JObject (m : gmap string JSON).

(** ** Pods, as far as the drain reads them (package [v1]) *)

Module v1.
Record OwnerReference := { Kind : string; RefName : string }.

Record Volume := {
  VolName : string;
  EmptyDir : option string;   (* *EmptyDirVolumeSource: nil or a source (its medium) *)
  HostPath : option string    (* *HostPathVolumeSource: nil or a source (its path) *)
}.

Record Pod := {
  Namespace : string;
  Name : string;
  Annotations : gmap string string;
  OwnerReferences : list OwnerReference;
  Volumes : list Volume;
  Phase : string              (* v1.PodPhase is a string type *)
}.

Definition PodSucceeded : string := "Succeeded".
Definition PodFailed : string := "Failed".
End v1.

Definition isCompletedPod (pod : v1.Pod) : bool :=
  bool_decide (v1.Phase pod = v1.PodSucceeded) || bool_decide (v1.Phase pod = v1.PodFailed).

Fixpoint ownedByKind (refs : list v1.OwnerReference) (kind : string) : bool :=
  match refs with
  | [] => false
  | or :: rest => if bool_decide (v1.Kind or = kind) then true else ownedByKind rest kind
  end.

Definition isOwnedBy (pod : v1.Pod) (kind : string) : bool :=
  ownedByKind (v1.OwnerReferences pod) kind.

Fixpoint anyLocalVolume (vs : list v1.Volume) : bool :=
  match vs with
  | [] => false
  | v :: rest =>
      if bool_decide (v1.EmptyDir v ≠ None) || bool_decide (v1.HostPath v ≠ None)
      then true else anyLocalVolume rest
  end.

Definition hasLocalData (pod : v1.Pod) : bool := anyLocalVolume (v1.Volumes pod).

Definition isMirrorPod (pod : v1.Pod) : bool :=
  match v1.Annotations pod !! "kubernetes.io/config.mirror" with
  | Some _ => true
  | None => false
  end.

(** ** Errors

    A Go [error] that may be [nil] is an [option error].  The [apierrors]
    predicates read the status reason of the error; an error that is not an
    API status (a context error, a transport error) has [ReasonUnknown]. *)

Inductive StatusReason :=
| ReasonNotFound | ReasonTooManyRequests | ReasonConflict
| ReasonServerTimeout | ReasonTimeout | ReasonUnknown.

Record error := { reason : StatusReason; message : string }.

(** [err.Error()], which is also what the verb [%v] prints. *)
Definition errorText (e : error) : string := message e.

Module apierrors.
Definition IsNotFound (e : error) : bool :=
  match reason e with ReasonNotFound => true | _ => false end.
Definition IsTooManyRequests (e : error) : bool :=
  match reason e with ReasonTooManyRequests => true | _ => false end.
Definition IsConflict (e : error) : bool :=
  match reason e with ReasonConflict => true | _ => false end.
Definition IsServerTimeout (e : error) : bool :=
  match reason e with ReasonServerTimeout => true | _ => false end.
Definition IsTimeout (e : error) : bool :=
  match reason e with ReasonTimeout => true | _ => false end.
End apierrors.

Definition DeadlineExceeded : error :=
  {| reason := ReasonUnknown; message := "context deadline exceeded" |}.

(** ** Tool results *)

(** A Go string that ends up in a result: a plain string, or the bytes
    [json.MarshalIndent] writes for a value.  The encoder itself is not
    modelled; the value it is given is. *)
Inductive Text :=
| Str (s : string)
| MarshalIndent (v : JSON).

Record CallToolResult := { IsError : bool; Content : list Text }.

Definition textOKResult (s : Text) : CallToolResult :=
  {| IsError := false; Content := [s] |}.
Definition textErrorResult (s : Text) : CallToolResult :=
  {| IsError := true; Content := [s] |}.

(** ** The cluster and the clock *)

Inductive PatchType := JSONPatchType | MergePatchType | StrategicMergePatchType.

(** What the code asks of the outside world. *)
Inductive Event :=
| EvPatchNode (node : string) (pt : PatchType) (data : JSON)
| EvListPods (fieldSelector : string)
| EvEvict (ns name : string) (grace : option Z)
| EvGetPod (ns name : string)
| EvDeletePod (ns name : string) (grace : option Z)
| EvSleep (d : Z)        (* select on time.After(d) and ctx.Done() *)
| EvTick.                (* select on the ticker and ctx.Done() *)

Record Cluster (W : Type) := {
  (* the package variable kubeClient is set *)
  clientReady : W → bool;
  (* cs.CoreV1().Nodes().Patch *)
  nodesPatch : string → PatchType → JSON → W → option error * W;
  (* cs.CoreV1().Pods("").List with a field selector *)
  podsList : string → W → (error + list v1.Pod) * W;
  (* context.WithTimeout(ctx, d): the drain deadline is armed *)
  withTimeout : Z → W → W;
  (* drainCtx.Err() *)
  ctxErr : W → option error;
  (* cs.PolicyV1().Evictions(ns).Evict *)
  evict : string → string → option Z → W → option error * W;
  (* cs.CoreV1().Pods(ns).Get; only the error is looked at *)
  podsGet : string → string → W → option error * W;
  (* cs.CoreV1().Pods(ns).Delete *)
  podsDelete : string → string → option Z → W → option error * W;
  (* select { case <-time.After(d): case <-ctx.Done(): return ctx.Err() }:
     [None] when the timer fired, the context's error otherwise *)
  selectAfter : Z → W → option error * W;
  (* select { case <-t.C: case <-ctx.Done(): return ctx.Err() } *)
  selectTick : W → option error * W
}.

Arguments clientReady {W} _ _.
Arguments nodesPatch {W} _ _ _ _ _.
Arguments podsList {W} _ _ _.
Arguments withTimeout {W} _ _ _.
Arguments ctxErr {W} _ _.
Arguments evict {W} _ _ _ _ _.
Arguments podsGet {W} _ _ _ _.
Arguments podsDelete {W} _ _ _ _ _.
Arguments selectAfter {W} _ _ _.
Arguments selectTick {W} _ _.

(** ** Running against the cluster: state, log and fuel *)

Record St (W : Type) := { world : W; trace : list (W * Event) }.
Arguments world {W} _.
Arguments trace {W} _.

Definition M (W A : Type) : Type := St W → option (A * St W).

Definition ret {W A} (a : A) : M W A := fun st => Some (a, st).

Definition bind {W A B} (m : M W A) (k : A → M W B) : M W B :=
  fun st => match m st with
            | Some (a, st') => k a st'
            | None => None
            end.

Definition outOfFuel {W A} : M W A := fun _ => None.

(** A request: logged with the world it is issued in, then answered. *)
Definition call {W A} (ev : Event) (f : W → A * W) : M W A :=
  fun st => let '(a, w') := f (world st) in
            Some (a, {| world := w'; trace := trace st ++ [(world st, ev)] |}).

(** A read of the world that sends nothing. *)
Definition peek {W A} (f : W → A) : M W A := fun st => Some (f (world st), st).

Definition update {W} (f : W → W) : M W unit :=
  fun st => Some (tt, {| world := f (world st); trace := trace st |}).

Notation "'let*' x ':=' m 'in' k" := (bind m (fun x => k))
  (at level 10, x name, m at level 100, k at level 200, only parsing).

(** ** The per-pod outcome ([type podResult struct] in [K8sDrain]) *)

Module podResult.
Record t := {
  Namespace : string;   (* json:"namespace" *)
  Name : string;        (* json:"name" *)
  Action : string;      (* json:"action" *)
  Error : string        (* json:"error,omitempty" *)
}.

(** The struct as the encoder writes it: [omitempty] drops an empty error. *)
Definition encode (r : t) : JSON :=
  JObject ((if bool_decide (Error r = "") then ∅ else {[ "error" := JString (Error r) ]})
           ∪ {[ "namespace" := JString (Namespace r);
                "name" := JString (Name r);
                "action" := JString (Action r) ]}).

(** A slice: [nil] is written as [null].  [results] is [nil] until the
    first [append] and never empty otherwise. *)
Definition encodeSlice (rs : list t) : JSON :=
  match rs with
  | [] => JNull
  | _ => JArray (encode <$> rs)
  end.
End podResult.

(** ** Decoded arguments of [K8sDrain]

    The argument map is decoded by [boolFromArgs], [intFromArgs] and
    [intFromArgsDefault]; the drain starts from their results.
    [grace_period] is the pair [intFromArgs] returns: [None] when [ok] is
    false. *)
Record DrainArgs := {
  node_name : string;
  ignore_daemonsets : bool;
  delete_local_data : bool;
  force : bool;
  grace_period : option Z;
  timeout_seconds : Z;
  retry_backoff_ms : Z;
  max_backoff_ms : Z
}.

Definition isSome {A} (o : option A) : bool :=
  match o with Some _ => true | None => false end.

(** An [apierrors] predicate applied to a possibly nil error. *)
Definition errIs (p : error → bool) (err : option error) : bool :=
  match err with Some e => p e | None => false end.

Definition cordonPatch : JSON :=
  JObject {[ "spec" := JObject {[ "unschedulable" := JBool true ]} ]}.

Definition mkResult (pod : v1.Pod) (action err : string) : podResult.t :=
  {| podResult.Namespace := v1.Namespace pod;
     podResult.Name := v1.Name pod;
     podResult.Action := action;
     podResult.Error := err |}.

Definition gracePtrJSON (gracePtr : option Z) : JSON :=
  match gracePtr with Some g => JInt g | None => JNull end.

Section Model.
Context {W : Type} (K : Cluster W).

Definition getClient : M W (option error) :=
  peek (fun w =>
    if clientReady K w then None
    else Some {| reason := ReasonUnknown;
                 message := "Kubernetes client is not initialized" |}).

Definition K8sCordon (nodeName : string) : M W CallToolResult :=
  if bool_decide (nodeName = "") then
    ret (textErrorResult (Str "node_name is required"))
  else
    let* cs := getClient in
    match cs with
    | Some err => ret (textErrorResult (Str (errorText err)))
    | None =>
        let patch := cordonPatch in
        let* perr := call (EvPatchNode nodeName StrategicMergePatchType patch)
                          (nodesPatch K nodeName StrategicMergePatchType patch) in
        match perr with
        | Some err =>
            ret (textErrorResult
                   (Str ("Error cordoning node " +:+ nodeName +:+ ": " +:+ errorText err)))
        | None =>
            ret (textOKResult (Str ("Node " +:+ nodeName +:+ " cordoned successfully")))
        end
    end.

Fixpoint waitPodDeleted (fuel : nat) (namespace name : string) : M W (option error) :=
  match fuel with
  | O => outOfFuel
  | S fuel' =>
      let* err := call (EvGetPod namespace name) (podsGet K namespace name) in
      if errIs apierrors.IsNotFound err then ret None
      else
        let* cerr := peek (ctxErr K) in
        if isSome err && isSome cerr then ret cerr
        else
          let* done := call EvTick (selectTick K) in
          match done with
          | Some e => ret (Some e)
          | None => waitPodDeleted fuel' namespace name
          end
  end.

(** [backoff *= 2; if backoff > maxBackoff { backoff = maxBackoff }] *)
Definition nextBackoff (backoff maxBackoff : Z) : Z :=
  let backoff := wrap64 (backoff * 2) in
  if (backoff >? maxBackoff)%Z then maxBackoff else backoff.

(** The [for] loop of [evictWithRetry]. *)
Fixpoint evictLoop (fuel : nat) (pod : v1.Pod) (gracePtr : option Z)
         (backoff maxBackoff : Z) : M W (option error) :=
  match fuel with
  | O => outOfFuel
  | S fuel' =>
      let* cerr := peek (ctxErr K) in
      match cerr with
      | Some e => ret (Some e)
      | None =>
          let* err := call (EvEvict (v1.Namespace pod) (v1.Name pod) gracePtr)
                           (evict K (v1.Namespace pod) (v1.Name pod) gracePtr) in
          match err with
          | None => waitPodDeleted fuel (v1.Namespace pod) (v1.Name pod)
          | Some e =>
              if apierrors.IsNotFound e then ret None
              else if apierrors.IsTooManyRequests e then
                let* done := call (EvSleep backoff) (selectAfter K backoff) in
                match done with
                | Some ce => ret (Some ce)
                | None => evictLoop fuel' pod gracePtr (nextBackoff backoff maxBackoff) maxBackoff
                end
              else if apierrors.IsConflict e || apierrors.IsServerTimeout e
                      || apierrors.IsTimeout e then
                let* done := call (EvSleep backoff) (selectAfter K backoff) in
                match done with
                | Some ce => ret (Some ce)
                | None => evictLoop fuel' pod gracePtr (nextBackoff backoff maxBackoff) maxBackoff
                end
              else ret (Some e)
          end
      end
  end.

Definition evictWithRetry (fuel : nat) (pod : v1.Pod) (gracePtr : option Z)
           (initialBackoff maxBackoff : Z) : M W (option error) :=
  let backoff := initialBackoff in
  let backoff := if (backoff <=? 0)%Z then Second else backoff in
  let maxBackoff := if (maxBackoff <=? 0)%Z then (10 * Second)%Z else maxBackoff in
  evictLoop fuel pod gracePtr backoff maxBackoff.

(** Step 3 of the loop body of [K8sDrain]: evict, with the optional
    forced delete. *)
Definition evictOrDelete (fuel : nat) (a : DrainArgs) (gracePtr : option Z)
           (pod : v1.Pod) (results : list podResult.t) : M W (list podResult.t) :=
  let* eerr := evictWithRetry fuel pod gracePtr
                 (scale (retry_backoff_ms a) Millisecond)
                 (scale (max_backoff_ms a) Millisecond) in
  match eerr with
  | Some err =>
      if force a then
        let* derr := call (EvDeletePod (v1.Namespace pod) (v1.Name pod) gracePtr)
                          (podsDelete K (v1.Namespace pod) (v1.Name pod) gracePtr) in
        match derr with
        | Some derr =>
            ret (results ++ [mkResult pod "evict_failed_delete_failed"
                               ("evict: " +:+ errorText err +:+ "; delete: " +:+ errorText derr)])
        | None => ret (results ++ [mkResult pod "force_deleted" ""])
        end
      else ret (results ++ [mkResult pod "evict_failed" (errorText err)])
  | None => ret (results ++ [mkResult pod "evicted" ""])
  end.

(** The body of the loop over [pods.Items]. *)
Definition drainPod (fuel : nat) (a : DrainArgs) (gracePtr : option Z)
           (pod : v1.Pod) (results : list podResult.t) : M W (list podResult.t) :=
  if isCompletedPod pod then ret results
  else if isMirrorPod pod then
    ret (results ++ [mkResult pod "skipped (mirror/static pod)" ""])
  else if ignore_daemonsets a && isOwnedBy pod "DaemonSet" then
    ret (results ++ [mkResult pod "skipped (daemonset)" ""])
  else if negb (delete_local_data a) && hasLocalData pod && negb (force a) then
    ret (results ++ [mkResult pod
           "skipped (local data; set delete_local_data=true or force=true)" ""])
  else evictOrDelete fuel a gracePtr pod results.

Fixpoint drainPods (fuel : nat) (a : DrainArgs) (gracePtr : option Z)
         (items : list v1.Pod) (results : list podResult.t) : M W (list podResult.t) :=
  match items with
  | [] => ret results
  | pod :: rest =>
      let* results := drainPod fuel a gracePtr pod results in
      drainPods fuel a gracePtr rest results
  end.

(** [gracePtr]: set only for a decoded, non-negative [grace_period]. *)
Definition gracePtrOf (a : DrainArgs) : option Z :=
  match grace_period a with
  | Some gp => if (gp >=? 0)%Z then Some gp else None
  | None => None
  end.

Definition summary (a : DrainArgs) (gracePtr : option Z)
           (results : list podResult.t) : gmap string JSON :=
  {[ "node" := JString (node_name a);
     "status" := JString "drain_attempted";
     "ignore_daemonsets" := JBool (ignore_daemonsets a);
     "delete_local_data" := JBool (delete_local_data a);
     "force" := JBool (force a);
     "grace_period" := gracePtrJSON gracePtr;
     "timeout_seconds" := JInt (timeout_seconds a);
     "retry_backoff_ms" := JInt (retry_backoff_ms a);
     "max_backoff_ms" := JInt (max_backoff_ms a);
     "results" := podResult.encodeSlice results ]}.

Definition K8sDrain (fuel : nat) (a : DrainArgs) : M W CallToolResult :=
  let nodeName := node_name a in
  if bool_decide (nodeName = "") then
    ret (textErrorResult (Str "node_name is required"))
  else
    let gracePtr := gracePtrOf a in
    let* cs := getClient in
    match cs with
    | Some err => ret (textErrorResult (Str (errorText err)))
    | None =>
        let* res := K8sCordon nodeName in
        if IsError res then ret res
        else
          let* pods := call (EvListPods ("spec.nodeName=" +:+ nodeName))
                            (podsList K ("spec.nodeName=" +:+ nodeName)) in
          match pods with
          | inl err =>
              ret (textErrorResult
                     (Str ("Error listing pods on node " +:+ nodeName +:+ ": "
                           +:+ errorText err)))
          | inr items =>
              let* _ := update (withTimeout K (scale (timeout_seconds a) Second)) in
              let* results := drainPods fuel a gracePtr items [] in
              ret (textOKResult (MarshalIndent (JObject (summary a gracePtr results))))
          end
    end.
End Model.

(** ** Runs of the two loops, as relations

    [WaitRun ns name w t r w']: started in world [w], [waitPodDeleted]
    issues the requests [t], returns [r] and leaves the world [w'].
    [EvictRun] is the same for the loop of [evictWithRetry], indexed by the
    current backoff. *)

Section RunsDef.
Context {W : Type} (K : Cluster W).

(** The state after a request [ev] issued in [st] and answered with world [w']. *)
Definition logged (st : St W) (ev : Event) (w' : W) : St W :=
  {| world := w'; trace := trace st ++ [(world st, ev)] |}.

(** The errors the retry loop backs off on: the 429 of a disruption budget
    and the transient ones. *)
Definition retryable (e : error) : bool :=
  apierrors.IsTooManyRequests e
  || (apierrors.IsConflict e || apierrors.IsServerTimeout e || apierrors.IsTimeout e).

Inductive WaitRun (ns name : string) : W → list (W * Event) → option error → W → Prop :=
| WaitGone w err w1 :
    podsGet K ns name w = (err, w1) →
    errIs apierrors.IsNotFound err = true →
    WaitRun ns name w [(w, EvGetPod ns name)] None w1
| WaitBroken w err w1 :
    podsGet K ns name w = (err, w1) →
    errIs apierrors.IsNotFound err = false →
    isSome err && isSome (ctxErr K w1) = true →
    WaitRun ns name w [(w, EvGetPod ns name)] (ctxErr K w1) w1
| WaitCancelled w err w1 e w2 :
    podsGet K ns name w = (err, w1) →
    errIs apierrors.IsNotFound err = false →
    isSome err && isSome (ctxErr K w1) = false →
    selectTick K w1 = (Some e, w2) →
    WaitRun ns name w [(w, EvGetPod ns name); (w1, EvTick)] (Some e) w2
| WaitTick w err w1 w2 t r w' :
    podsGet K ns name w = (err, w1) →
    errIs apierrors.IsNotFound err = false →
    isSome err && isSome (ctxErr K w1) = false →
    selectTick K w1 = (None, w2) →
    WaitRun ns name w2 t r w' →
    WaitRun ns name w ((w, EvGetPod ns name) :: (w1, EvTick) :: t) r w'.

Inductive EvictRun (pod : v1.Pod) (g : option Z) (maxBackoff : Z) :
  Z → W → list (W * Event) → option error → W → Prop :=
| EvictExpired backoff w e :
    ctxErr K w = Some e →
    EvictRun pod g maxBackoff backoff w [] (Some e) w
| EvictAccepted backoff w w1 t r w' :
    ctxErr K w = None →
    evict K (v1.Namespace pod) (v1.Name pod) g w = (None, w1) →
    WaitRun (v1.Namespace pod) (v1.Name pod) w1 t r w' →
    EvictRun pod g maxBackoff backoff w
      ((w, EvEvict (v1.Namespace pod) (v1.Name pod) g) :: t) r w'
| EvictGone backoff w e w1 :
    ctxErr K w = None →
    evict K (v1.Namespace pod) (v1.Name pod) g w = (Some e, w1) →
    apierrors.IsNotFound e = true →
    EvictRun pod g maxBackoff backoff w
      [(w, EvEvict (v1.Namespace pod) (v1.Name pod) g)] None w1
| EvictCancelled backoff w e w1 ce w2 :
    ctxErr K w = None →
    evict K (v1.Namespace pod) (v1.Name pod) g w = (Some e, w1) →
    apierrors.IsNotFound e = false →
    retryable e = true →
    selectAfter K backoff w1 = (Some ce, w2) →
    EvictRun pod g maxBackoff backoff w
      [(w, EvEvict (v1.Namespace pod) (v1.Name pod) g); (w1, EvSleep backoff)] (Some ce) w2
| EvictRetry backoff w e w1 w2 t r w' :
    ctxErr K w = None →
    evict K (v1.Namespace pod) (v1.Name pod) g w = (Some e, w1) →
    apierrors.IsNotFound e = false →
    retryable e = true →
    selectAfter K backoff w1 = (None, w2) →
    EvictRun pod g maxBackoff (nextBackoff backoff maxBackoff) w2 t r w' →
    EvictRun pod g maxBackoff backoff w
      ((w, EvEvict (v1.Namespace pod) (v1.Name pod) g) :: (w1, EvSleep backoff) :: t) r w'
| EvictFatal backoff w e w1 :
    ctxErr K w = None →
    evict K (v1.Namespace pod) (v1.Name pod) g w = (Some e, w1) →
    apierrors.IsNotFound e = false →
    retryable e = false →
    EvictRun pod g maxBackoff backoff w
      [(w, EvEvict (v1.Namespace pod) (v1.Name pod) g)] (Some e) w1.
End RunsDef.

(** ** Vocabulary of the properties *)

(** The durations slept between attempts, in order. *)
Fixpoint sleeps {W} (t : list (W * Event)) : list Z :=
  match t with
  | [] => []
  | (_, EvSleep d) :: t => d :: sleeps t
  | _ :: t => sleeps t
  end.

(** The worlds in which eviction requests were issued, in order. *)
Fixpoint evictionWorlds {W} (t : list (W * Event)) : list W :=
  match t with
  | [] => []
  | (w, EvEvict _ _ _) :: t => w :: evictionWorlds t
  | _ :: t => evictionWorlds t
  end.

(** The node patches sent, in order. *)
Fixpoint patches {W} (t : list (W * Event)) : list (string * PatchType * JSON) :=
  match t with
  | [] => []
  | (_, EvPatchNode node pt data) :: t => (node, pt, data) :: patches t
  | _ :: t => patches t
  end.

Definition podKey (pod : v1.Pod) : string * string := (v1.Namespace pod, v1.Name pod).
Definition resultKey (r : podResult.t) : string * string :=
  (podResult.Namespace r, podResult.Name r).

(** How often a pod is named in a list of outcomes. *)
Definition occurrences (k : string * string) (rs : list podResult.t) : nat :=
  length (filter (λ r, resultKey r = k) rs).

(** The pods the loop does not skip as completed. *)
Definition activePods (items : list v1.Pod) : list v1.Pod :=
  filter (λ pod, isCompletedPod pod = false) items.

(** The [action] strings the code writes. *)
Definition actions : list string :=
  [ "skipped (mirror/static pod)";
    "skipped (daemonset)";
    "skipped (local data; set delete_local_data=true or force=true)";
    "evicted"; "force_deleted"; "evict_failed"; "evict_failed_delete_failed" ].

(** The [action] strings the specification lists. *)
Definition specActions : list string :=
  [ "skipped_mirror"; "skipped_daemonset"; "skipped_local_data";
    "evicted"; "force_deleted"; "evict_failed"; "evict_and_delete_failed" ].

(** The field names of the report and of its entries. *)
Definition reportFields : gset string :=
  {[ "node"; "status"; "ignore_daemonsets"; "delete_local_data"; "force";
     "grace_period"; "timeout_seconds"; "retry_backoff_ms"; "max_backoff_ms";
     "results" ]}.
Definition entryFields : gset string := {[ "namespace"; "name"; "action" ]}.

(** *** Steps of the drain *)

Definition listSelector (a : DrainArgs) : string := "spec.nodeName=" +:+ node_name a.

Definition patchEvent (a : DrainArgs) : Event :=
  EvPatchNode (node_name a) StrategicMergePatchType cordonPatch.

Definition report (a : DrainArgs) (rs : list podResult.t) : CallToolResult :=
  textOKResult (MarshalIndent (JObject (summary a (gracePtrOf a) rs))).

(** The state the loop over the pods starts in. *)
Definition listed {W} (K : Cluster W) (a : DrainArgs) (st : St W) (w1 w2 : W) : St W :=
  {| world := withTimeout K (scale (timeout_seconds a) Second) w2;
     trace := trace st ++ [(world st, patchEvent a); (w1, EvListPods (listSelector a))] |}.

(** *** The classifier, in the words of the specification

    Rules in order, first match wins: terminal phase, mirror annotation,
    DaemonSet owner when DaemonSet pods are ignored, node-local volume
    without permission to lose it, and eviction otherwise. *)

Inductive Decision :=
| NotProcessed | SkipMirror | SkipDaemonSet | SkipLocalData | ProceedToEvict.

Definition terminalPhase (pod : v1.Pod) : Prop :=
  v1.Phase pod = "Succeeded" ∨ v1.Phase pod = "Failed".
Definition mirrorMarked (pod : v1.Pod) : Prop :=
  is_Some (v1.Annotations pod !! "kubernetes.io/config.mirror").
Definition ownedByDaemonSet (pod : v1.Pod) : Prop :=
  Exists (λ or, v1.Kind or = "DaemonSet") (v1.OwnerReferences pod).
Definition declaresLocalVolume (pod : v1.Pod) : Prop :=
  Exists (λ v, is_Some (v1.EmptyDir v) ∨ is_Some (v1.HostPath v)) (v1.Volumes pod).

Definition classify_spec (ignoreDaemonSetPods allowLocalDataLoss force : bool)
           (pod : v1.Pod) : Decision :=
  if decide (terminalPhase pod) then NotProcessed
  else if decide (mirrorMarked pod) then SkipMirror
  else if decide (ignoreDaemonSetPods = true ∧ ownedByDaemonSet pod) then SkipDaemonSet
  else if decide (declaresLocalVolume pod ∧ allowLocalDataLoss = false ∧ force = false)
       then SkipLocalData
  else ProceedToEvict.

(** *** Time

    [remaining] measures the time left before the drain deadline.  A timer
    that fires uses some of it up, and no request gives any back. *)
Record Progress {W} (K : Cluster W) (remaining : W → nat) : Prop := {
  after_fires : ∀ d w w', selectAfter K d w = (None, w') → remaining w' < remaining w;
  tick_fires : ∀ w w', selectTick K w = (None, w') → remaining w' < remaining w;
  after_keeps : ∀ d w, remaining (selectAfter K d w).2 ≤ remaining w;
  tick_keeps : ∀ w, remaining (selectTick K w).2 ≤ remaining w;
  evict_keeps : ∀ ns name g w, remaining (evict K ns name g w).2 ≤ remaining w;
  get_keeps : ∀ ns name w, remaining (podsGet K ns name w).2 ≤ remaining w;
  delete_keeps : ∀ ns name g w, remaining (podsDelete K ns name g w).2 ≤ remaining w
}.

(** The backoff the [k]-th sleep uses when nothing overflows. *)
Definition backoffAt (initial maxBackoff : Z) (k : nat) : Z :=
  Z.min (initial * 2 ^ Z.of_nat k) maxBackoff.

(** The backoffs [evictWithRetry] starts its loop with. *)
Definition effectiveInitial (initialBackoff : Z) : Z :=
  if (initialBackoff <=? 0)%Z then Second else initialBackoff.
Definition effectiveMax (maxBackoff : Z) : Z :=
  if (maxBackoff <=? 0)%Z then (10 * Second)%Z else maxBackoff.

(** ** A scripted cluster, to run the code on concrete inputs *)

Module Sim.
Record World := {
  ready : bool;                         (* kubeClient is set *)
  cordonAnswer : option error;          (* answer to the node patch *)
  listAnswer : error + list v1.Pod;     (* answer to the pod listing *)
  timeLeft : nat;                       (* timer firings left before the deadline *)
  evictAnswers : list (option error);   (* answers to the next evictions; accepted afterwards *)
  getAnswer : option error;             (* answer to every get *)
  deleteAnswer : option error           (* answer to every delete *)
}.

Definition spend (w : World) : option error * World :=
  match timeLeft w with
  | O => (Some DeadlineExceeded, w)
  | S n => (None, {| ready := ready w; cordonAnswer := cordonAnswer w;
                     listAnswer := listAnswer w; timeLeft := n;
                     evictAnswers := evictAnswers w; getAnswer := getAnswer w;
                     deleteAnswer := deleteAnswer w |})
  end.

Definition answerEvict (w : World) : option error * World :=
  match evictAnswers w with
  | [] => (None, w)
  | r :: rest => (r, {| ready := ready w; cordonAnswer := cordonAnswer w;
                        listAnswer := listAnswer w; timeLeft := timeLeft w;
                        evictAnswers := rest; getAnswer := getAnswer w;
                        deleteAnswer := deleteAnswer w |})
  end.

Definition cluster : Cluster World := {|
  clientReady := ready;
  nodesPatch := fun _ _ _ w => (cordonAnswer w, w);
  podsList := fun _ w => (listAnswer w, w);
  withTimeout := fun _ w => w;
  ctxErr := fun w => match timeLeft w with O => Some DeadlineExceeded | S _ => None end;
  evict := fun _ _ _ w => answerEvict w;
  podsGet := fun _ _ w => (getAnswer w, w);
  podsDelete := fun _ _ _ w => (deleteAnswer w, w);
  selectAfter := fun _ w => spend w;
  selectTick := fun w => spend w
|}.

Definition start (w : World) : St World := {| world := w; trace := [] |}.

Definition notFound : error := {| reason := ReasonNotFound; message := "pods not found" |}.
Definition tooMany : error :=
  {| reason := ReasonTooManyRequests;
     message := "Cannot evict pod as it would violate the pod's disruption budget." |}.
Definition forbidden : error := {| reason := ReasonUnknown; message := "forbidden" |}.

Definition plainPod (ns name : string) : v1.Pod :=
  {| v1.Namespace := ns; v1.Name := name; v1.Annotations := ∅;
     v1.OwnerReferences := []; v1.Volumes := []; v1.Phase := "Running" |}.
Definition mirrorPod (ns name : string) : v1.Pod :=
  {| v1.Namespace := ns; v1.Name := name;
     v1.Annotations := {[ "kubernetes.io/config.mirror" := "abc" ]};
     v1.OwnerReferences := []; v1.Volumes := []; v1.Phase := "Running" |}.
Definition daemonPod (ns name : string) : v1.Pod :=
  {| v1.Namespace := ns; v1.Name := name; v1.Annotations := ∅;
     v1.OwnerReferences := [ {| v1.Kind := "DaemonSet"; v1.RefName := "ds" |} ];
     v1.Volumes := []; v1.Phase := "Running" |}.
Definition scratchPod (ns name : string) : v1.Pod :=
  {| v1.Namespace := ns; v1.Name := name; v1.Annotations := ∅;
     v1.OwnerReferences := [];
     v1.Volumes := [ {| v1.VolName := "tmp"; v1.EmptyDir := Some ""; v1.HostPath := None |} ];
     v1.Phase := "Running" |}.
Definition donePod (ns name : string) : v1.Pod :=
  {| v1.Namespace := ns; v1.Name := name; v1.Annotations := ∅;
     v1.OwnerReferences := []; v1.Volumes := []; v1.Phase := "Succeeded" |}.

(** A healthy cluster: every request is accepted, an evicted pod is gone
    at the first poll. *)
Definition healthy (pods : list v1.Pod) (time : nat) : World :=
  {| ready := true; cordonAnswer := None; listAnswer := inr pods; timeLeft := time;
     evictAnswers := []; getAnswer := Some notFound; deleteAnswer := None |}.

(** Pods of a small node: a DaemonSet pod, a finished job, a static pod, a
    pod with scratch space and a plain one. *)
Definition mixed : list v1.Pod :=
  [ daemonPod "kube-system" "ds-1"; donePod "default" "job-1";
    mirrorPod "kube-system" "etcd-n1"; scratchPod "default" "cache";
    plainPod "default" "web" ].

(** A disruption budget that refuses the next [n] evictions. *)
Definition congested (n time : nat) : World :=
  {| ready := true; cordonAnswer := None; listAnswer := inr []; timeLeft := time;
     evictAnswers := replicate n (Some tooMany); getAnswer := Some notFound;
     deleteAnswer := None |}.

(** The durations slept in a run that returned. *)
Definition slept {A} (run : option (A * St World)) : option (list Z) :=
  (λ x, sleeps (trace x.2)) <$> run.

Definition args (node : string) : DrainArgs :=
  {| node_name := node; ignore_daemonsets := true; delete_local_data := false;
     force := false; grace_period := None; timeout_seconds := 600;
     retry_backoff_ms := 1000; max_backoff_ms := 10000 |}.
End Sim.

(** ** Uncordon *)

Definition uncordonPatch : JSON :=
  JObject {[ "spec" := JObject {[ "unschedulable" := JBool false ]} ]}.

Section Uncordon.
Context {W : Type} (K : Cluster W).

Definition K8sUncordon (nodeName : string) : M W CallToolResult :=
  if bool_decide (nodeName = "") then
    ret (textErrorResult (Str "node_name is required"))
  else
    let* cs := getClient K in
    match cs with
    | Some err => ret (textErrorResult (Str (errorText err)))
    | None =>
        let patch := uncordonPatch in
        let* perr := call (EvPatchNode nodeName StrategicMergePatchType patch)
                          (nodesPatch K nodeName StrategicMergePatchType patch) in
        match perr with
        | Some err =>
            ret (textErrorResult
                   (Str ("Error uncordoning node " +:+ nodeName +:+ ": " +:+ errorText err)))
        | None =>
            ret (textOKResult (Str ("Node " +:+ nodeName +:+ " uncordoned successfully")))
        end
    end.
End Uncordon.

(** ** Vocabulary of the further properties *)

(** The requests the drain may send on behalf of one pod: evictions and
    polls of that pod with the drain's grace period, the sleeps and ticks in
    between, and a delete of that pod only when [allowDelete]. *)
Definition podEvent (pod : v1.Pod) (g : option Z) (allowDelete : bool) (ev : Event) : Prop :=
  match ev with
  | EvEvict ns name g' => ns = v1.Namespace pod ∧ name = v1.Name pod ∧ g' = g
  | EvGetPod ns name => ns = v1.Namespace pod ∧ name = v1.Name pod
  | EvDeletePod ns name g' =>
      allowDelete = true ∧ ns = v1.Namespace pod ∧ name = v1.Name pod ∧ g' = g
  | EvSleep _ | EvTick => True
  | EvPatchNode _ _ _ | EvListPods _ => False
  end.

(** The pod a request is about. *)
Definition eventPod (ev : Event) : option (string * string) :=
  match ev with
  | EvEvict ns name _ | EvGetPod ns name | EvDeletePod ns name _ => Some (ns, name)
  | EvPatchNode _ _ _ | EvListPods _ | EvSleep _ | EvTick => None
  end.

(** The grace period a request carries. *)
Definition eventGrace (ev : Event) : option (option Z) :=
  match ev with
  | EvEvict _ _ g | EvDeletePod _ _ g => Some g
  | _ => None
  end.

(** A request about a pod, as opposed to the node patch and the listing. *)
Definition afterListing (ev : Event) : Prop :=
  match ev with
  | EvPatchNode _ _ _ | EvListPods _ => False
  | _ => True
  end.

(** The classifier sends the pod to the eviction engine. *)
Definition routed (a : DrainArgs) (pod : v1.Pod) : Prop :=
  classify_spec (ignore_daemonsets a) (delete_local_data a) (force a) pod = ProceedToEvict.

(** The delete requests of a log. *)
Fixpoint deletes {W} (t : list (W * Event)) : list (string * string) :=
  match t with
  | [] => []
  | (_, EvDeletePod ns name _) :: t => (ns, name) :: deletes t
  | _ :: t => deletes t
  end.

(** An outcome either has no error text, or is a failed eviction with the
    engine's error, or a failed eviction followed by a failed delete with
    both errors. *)
Definition errorExplained (r : podResult.t) : Prop :=
  (podResult.Error r = ""
   ∧ podResult.Action r ≠ "evict_failed_delete_failed")
  ∨ podResult.Action r = "evict_failed"
  ∨ (podResult.Action r = "evict_failed_delete_failed"
     ∧ ∃ e d, podResult.Error r = "evict: " +:+ e +:+ "; delete: " +:+ d).

(** The outcome a pod that is not completed gets once the deadline has
    passed and [force] is off: its skip, or [evict_failed] with the
    context's error. *)
Definition outcomeAfterDeadline (a : DrainArgs) (e : error) (pod : v1.Pod) : podResult.t :=
  match classify_spec (ignore_daemonsets a) (delete_local_data a) (force a) pod with
  | SkipMirror => mkResult pod "skipped (mirror/static pod)" ""
  | SkipDaemonSet => mkResult pod "skipped (daemonset)" ""
  | SkipLocalData =>
      mkResult pod "skipped (local data; set delete_local_data=true or force=true)" ""
  | NotProcessed | ProceedToEvict => mkResult pod "evict_failed" (errorText e)
  end.

(** ** Further scripted runs *)

Module Scenario.
(** A drain with [force] and a grace period of 30 s. *)
Definition forced (node : string) : DrainArgs :=
  {| node_name := node; ignore_daemonsets := true; delete_local_data := false;
     force := true; grace_period := Some 30%Z; timeout_seconds := 600;
     retry_backoff_ms := 1000; max_backoff_ms := 10000 |}.

(** A cluster that forbids every eviction and accepts every delete. *)
Definition stubborn (pods : list v1.Pod) (time : nat) : Sim.World :=
  {| Sim.ready := true; Sim.cordonAnswer := None; Sim.listAnswer := inr pods;
     Sim.timeLeft := time;
     Sim.evictAnswers := replicate (length pods) (Some Sim.forbidden);
     Sim.getAnswer := None; Sim.deleteAnswer := None |}.

(** A cluster that accepts evictions but whose pods linger: every poll
    finds the pod, until the deadline. *)
Definition lingering (pods : list v1.Pod) (time : nat) : Sim.World :=
  {| Sim.ready := true; Sim.cordonAnswer := None; Sim.listAnswer := inr pods;
     Sim.timeLeft := time; Sim.evictAnswers := [];
     Sim.getAnswer := None; Sim.deleteAnswer := None |}.

(** The log of a run that returned, without the worlds. *)
Definition events {A} (run : option (A * St Sim.World)) : option (list Event) :=
  (λ x, snd <$> trace x.2) <$> run.
End Scenario.

(** ** Decoding the argument map

    A tool receives its arguments as a [map[string]any].  The values the
    decoders tell apart are booleans, strings, [float64] (every JSON number),
    [int] and [int64]; everything else is [AnyOther].  [float64] stays
    abstract: the decoders only compare it with zero and convert it to
    [int].  What Go itself provides is a parameter: the comparison, the
    conversion, and [fmt.Sscanf] with the verb [%d]. *)

Inductive Any (F : Type) :=
| AnyBool (b : bool)
| AnyString (s : string)
| AnyFloat64 (f : F)
| AnyInt (z : Z)
| AnyInt64 (z : Z)
| AnyOther.
Arguments AnyBool {F} _.
Arguments AnyString {F} _.
Arguments AnyFloat64 {F} _.
Arguments AnyInt {F} _.
Arguments AnyInt64 {F} _.
Arguments AnyOther {F}.

Record GoRuntime (F : Type) := {
  (* t != 0 on float64 *)
  floatNonZero : F → bool;
  (* int(t) on float64 *)
  floatToInt : F → Z;
  (* fmt.Sscanf(t, "%d", &i): the integer when err == nil *)
  sscanfInt : string → option Z
}.
Arguments floatNonZero {F} _ _.
Arguments floatToInt {F} _ _.
Arguments sscanfInt {F} _ _.

Section Args.
Context {F : Type} (R : GoRuntime F).

Definition boolFromArgs (args : gmap string (Any F)) (key : string) (def : bool) : bool :=
  match args !! key with
  | None => def
  | Some v =>
      match v with
      | AnyBool t => t
      | AnyString t =>
          if bool_decide (t = "true") || bool_decide (t = "1") then true
          else if bool_decide (t = "false") || bool_decide (t = "0") then false
          else def
      | AnyFloat64 t => floatNonZero R t
      | _ => def
      end
  end.

Definition intFromArgs (args : gmap string (Any F)) (key : string) : Z * bool :=
  match args !! key with
  | None => (0%Z, false)
  | Some v =>
      match v with
      | AnyInt t => (t, true)
      | AnyInt64 t => (t, true)           (* int(t): int is 64 bits wide *)
      | AnyFloat64 t => (floatToInt R t, true)
      | AnyString t =>
          match sscanfInt R t with
          | Some i => (i, true)
          | None => (0%Z, false)
          end
      | _ => (0%Z, false)
      end
  end.

Definition intFromArgsDefault (args : gmap string (Any F)) (key : string) (def : Z) : Z :=
  let '(v, ok) := intFromArgs args key in
  if ok then v else def.

(** [s, _ := args[key].(string)] *)
Definition stringArg (args : gmap string (Any F)) (key : string) : string :=
  match args !! key with
  | Some (AnyString s) => s
  | _ => ""
  end.

(** The head of [K8sDrain]: from the argument map to the decoded
    arguments. *)
Definition drainArgs (args : gmap string (Any F)) : DrainArgs :=
  {| node_name := stringArg args "node_name";
     ignore_daemonsets := boolFromArgs args "ignore_daemonsets" false;
     delete_local_data := boolFromArgs args "delete_local_data" false;
     force := boolFromArgs args "force" false;
     grace_period := (let '(gp, ok) := intFromArgs args "grace_period" in
                      if ok then Some gp else None);
     timeout_seconds := intFromArgsDefault args "timeout_seconds" 600;
     retry_backoff_ms := intFromArgsDefault args "retry_backoff_ms" 1000;
     max_backoff_ms := intFromArgsDefault args "max_backoff_ms" 10000 |}.

(** The three tools as they are called, on the argument map. *)
Definition K8sDrainTool {W} (K : Cluster W) (fuel : nat) (args : gmap string (Any F))
  : M W CallToolResult :=
  K8sDrain K fuel (drainArgs args).
Definition K8sCordonTool {W} (K : Cluster W) (args : gmap string (Any F))
  : M W CallToolResult :=
  K8sCordon K (stringArg args "node_name").
Definition K8sUncordonTool {W} (K : Cluster W) (args : gmap string (Any F))
  : M W CallToolResult :=
  K8sUncordon K (stringArg args "node_name").

(** A value [boolFromArgs] reads a boolean from. *)
Definition readsAsBool (v : Any F) : Prop :=
  match v with
  | AnyBool _ | AnyFloat64 _ => True
  | AnyString t => t = "true" ∨ t = "1" ∨ t = "false" ∨ t = "0"
  | _ => False
  end.
End Args.

(** A runtime for concrete runs: floats are given by their integer part,
    and only strings of decimal digits scan. *)
Module TestRuntime.
Definition digit (c : Ascii.ascii) : option Z :=
  let n := Ascii.nat_of_ascii c in
  if (48 <=? n)%nat && (n <=? 57)%nat then Some (Z.of_nat (n - 48)) else None.

Fixpoint digits (acc : Z) (s : string) : option Z :=
  match s with
  | String.EmptyString => Some acc
  | String.String c s' =>
      match digit c with
      | Some d => digits (10 * acc + d) s'
      | None => None
      end
  end.

Definition runtime : GoRuntime Z := {|
  floatNonZero := fun f => negb (f =? 0)%Z;
  floatToInt := fun f => f;
  sscanfInt := fun s => match s with String.EmptyString => None | _ => digits 0 s end
|}.
End TestRuntime.

(** ** The kubectl and helm tools

    [strings.Fields] and [strings.TrimSpace] are Go's and stay parameters;
    so does the process that is run.  A tool returns its result together
    with the commands it ran. *)

Section Commands.
Context (Fields : string → list string) (TrimSpace : string → string).
(* exec.Command(binary, parts...).CombinedOutput() *)
Context (combinedOutput : string → list string → string * option error).

Definition firstSubcommand (command bin : string) : string :=
  let parts := Fields (TrimSpace command) in
  match parts with
  | [] => ""
  | p0 :: rest =>
      let parts := if bool_decide (p0 = bin) then rest else parts in
      match parts with
      | [] => ""
      | p :: _ => p
      end
  end.

Definition firstTwoSubcommands (command bin : string) : string * string :=
  let parts := Fields (TrimSpace command) in
  match parts with
  | [] => ("", "")
  | p0 :: rest =>
      let parts := if bool_decide (p0 = bin) then rest else parts in
      match parts with
      | [] => ("", "")
      | [p] => (p, "")
      | p :: q :: _ => (p, q)
      end
  end.

(** The arguments [runCommand] hands to the binary. *)
Definition commandArgs (binary full : string) : list string :=
  let parts := Fields full in
  match parts with
  | p0 :: rest => if bool_decide (p0 = binary) then rest else parts
  | [] => parts
  end.

Definition runCommand (binary full : string) : string * option error :=
  combinedOutput binary (commandArgs binary full).

(** A [map[string]bool] read at a key: false when the key is missing. *)
Definition flag (m : gmap string bool) (key : string) : bool := default false (m !! key).

Definition kubectlWriteOps : gmap string bool :=
  list_to_map ((λ k, (k, true)) <$>
    [ "create"; "apply"; "edit"; "patch"; "replace";
      "scale"; "autoscale"; "label"; "annotate";
      "set"; "rollout"; "expose"; "run";
      "cordon"; "delete"; "uncordon"; "drain";
      "taint"; "untaint"; "cp"; "exec"; "port-forward" ]).

Definition kubectlDeleteOps : gmap string bool := {[ "delete" := true ]}.

Definition helmWriteOps : gmap string bool :=
  list_to_map ((λ k, (k, true)) <$>
    [ "install"; "upgrade"; "uninstall"; "rollback";
      "push"; "create"; "package";
      "repo add"; "repo update"; "repo remove";
      "dependency update";
      "plugin install"; "plugin uninstall" ]).

(** The handler [RegisterKubectlTool] registers. *)
Definition kubectlTool (disableWrite disableDelete : bool) (cmdStr : string)
  : CallToolResult * list (string * list string) :=
  let sub := firstSubcommand cmdStr "kubectl" in
  if negb (bool_decide (sub = "")) && (disableDelete && flag kubectlDeleteOps sub) then
    (textErrorResult
       (Str "Error: Write operations are not allowed. Cannot execute kubectl delete command."),
     [])
  else if negb (bool_decide (sub = "")) && (disableWrite && flag kubectlWriteOps sub) then
    (textErrorResult
       (Str ("Error: Write operations are not allowed. Cannot execute kubectl "
             +:+ sub +:+ " command.")),
     [])
  else
    let '(out, err) := runCommand "kubectl" cmdStr in
    let ran := [("kubectl", commandArgs "kubectl" cmdStr)] in
    match err with
    | Some _ => (textErrorResult (Str out), ran)
    | None => (textOKResult (Str out), ran)
    end.

(** The handler [RegisterHelmTool] registers. *)
Definition helmTool (disableWrite : bool) (cmdStr : string)
  : CallToolResult * list (string * list string) :=
  let '(sub1, sub2) := firstTwoSubcommands cmdStr "helm" in
  if disableWrite && (negb (bool_decide (sub1 = "")) && flag helmWriteOps sub1) then
    (textErrorResult
       (Str ("Error: Write operations are not allowed. Cannot execute helm "
             +:+ sub1 +:+ " command.")),
     [])
  else if disableWrite
          && (negb (bool_decide (sub1 = "")) && negb (bool_decide (sub2 = ""))
              && flag helmWriteOps (sub1 +:+ " " +:+ sub2)) then
    (textErrorResult
       (Str ("Error: Write operations are not allowed. Cannot execute helm "
             +:+ sub1 +:+ " " +:+ sub2 +:+ " command.")),
     [])
  else
    let '(out, err) := runCommand "helm" cmdStr in
    let ran := [("helm", commandArgs "helm" cmdStr)] in
    match err with
    | Some _ => (textErrorResult (Str out), ran)
    | None => (textOKResult (Str out), ran)
    end.
End Commands.

(** ** The tools a server offers (package [server]) *)

Module server.
Record Options := {
  DisableKubectl : bool;
  DisableHelm : bool;
  DisableWrite : bool;
  DisableDelete : bool;
  Transport : string;
  Host : string;
  Port : Z
}.

(** The handlers, by the Go value that is registered. *)
Inductive Handler :=
| hK8sApis | hK8sCrds | hK8sGet | hK8sRolloutStatus | hK8sRolloutHistory
| hK8sTopNodes | hK8sTopPods | hK8sDescribe | hK8sLogs | hK8sEvents | hK8sAuthCanI
| hK8sCreate | hK8sSetResources | hK8sSetImage | hK8sSetEnv
| hK8sRolloutUndo | hK8sRolloutRestart | hK8sRolloutPause
| hK8sCordon | hK8sUncordon | hK8sDrain
| hK8sPortForward | hK8sCp | hK8sApply
| notImplementedTool
| hKubectl (disableWrite disableDelete : bool)
| hHelm (disableWrite : bool).

(** The stubs of [stubs.go]: each is the variable [notImplementedTool]. *)
Definition K8sAuthWhoAmI : Handler := notImplementedTool.
Definition K8sDelete : Handler := notImplementedTool.
Definition K8sPatch : Handler := notImplementedTool.
Definition K8sLabel : Handler := notImplementedTool.
Definition K8sAnnotate : Handler := notImplementedTool.
Definition K8sExpose : Handler := notImplementedTool.
Definition K8sRun : Handler := notImplementedTool.
Definition K8sExecCommand : Handler := notImplementedTool.
Definition K8sScale : Handler := notImplementedTool.
Definition K8sAutoscale : Handler := notImplementedTool.
Definition K8sTaint : Handler := notImplementedTool.
Definition K8sUntaint : Handler := notImplementedTool.
Definition K8sRolloutResume : Handler := notImplementedTool.

Record Tool := { Name : string; Description : string; handler : Handler }.

(** The tools of an [mcp.Server], by name; adding a tool under a name that is
    taken replaces the tool that was there. *)
Definition AddTool (srv : gmap string Tool) (name desc : string) (h : Handler)
  : gmap string Tool :=
  <[ name := {| Name := name; Description := desc; handler := h |} ]> srv.

Definition registerReadTools (srv : gmap string Tool) : gmap string Tool :=
  let srv := AddTool srv "k8s_apis" "List Kubernetes APIs" hK8sApis in
  let srv := AddTool srv "k8s_crds" "List Kubernetes CRDs" hK8sCrds in
  let srv := AddTool srv "k8s_get" "Get Kubernetes resources" hK8sGet in
  let srv := AddTool srv "k8s_rollout_status" "Get rollout status" hK8sRolloutStatus in
  let srv := AddTool srv "k8s_rollout_history" "Get rollout history" hK8sRolloutHistory in
  let srv := AddTool srv "k8s_top_nodes" "Top nodes" hK8sTopNodes in
  let srv := AddTool srv "k8s_top_pods" "Top pods" hK8sTopPods in
  let srv := AddTool srv "k8s_describe" "Describe Kubernetes resources" hK8sDescribe in
  let srv := AddTool srv "k8s_logs" "Get logs" hK8sLogs in
  let srv := AddTool srv "k8s_events" "Get events" hK8sEvents in
  let srv := AddTool srv "k8s_auth_can_i" "Auth can-i" hK8sAuthCanI in
  AddTool srv "k8s_auth_whoami" "Auth whoami" K8sAuthWhoAmI.

Definition registerWriteTools (srv : gmap string Tool) : gmap string Tool :=
  let srv := AddTool srv "k8s_create" "Create resources" hK8sCreate in
  let srv := AddTool srv "k8s_expose" "Expose resources" K8sExpose in
  let srv := AddTool srv "k8s_run" "Run resources" K8sRun in
  let srv := AddTool srv "k8s_set_resources" "Set resources" hK8sSetResources in
  let srv := AddTool srv "k8s_set_image" "Set image" hK8sSetImage in
  let srv := AddTool srv "k8s_set_env" "Set env" hK8sSetEnv in
  let srv := AddTool srv "k8s_rollout_undo" "Rollout undo" hK8sRolloutUndo in
  let srv := AddTool srv "k8s_rollout_restart" "Rollout restart" hK8sRolloutRestart in
  let srv := AddTool srv "k8s_rollout_pause" "Rollout pause" hK8sRolloutPause in
  let srv := AddTool srv "k8s_rollout_resume" "Rollout resume" K8sRolloutResume in
  let srv := AddTool srv "k8s_scale" "Scale resources" K8sScale in
  let srv := AddTool srv "k8s_autoscale" "Autoscale resources" K8sAutoscale in
  let srv := AddTool srv "k8s_cordon" "Cordon node" hK8sCordon in
  let srv := AddTool srv "k8s_uncordon" "Uncordon node" hK8sUncordon in
  let srv := AddTool srv "k8s_drain" "Drain node" hK8sDrain in
  let srv := AddTool srv "k8s_taint" "Taint node" K8sTaint in
  let srv := AddTool srv "k8s_untaint" "Untaint node" K8sUntaint in
  let srv := AddTool srv "k8s_exec_command" "Exec command" K8sExecCommand in
  let srv := AddTool srv "k8s_port_forward" "Port-forward" hK8sPortForward in
  let srv := AddTool srv "k8s_cp" "Copy files" hK8sCp in
  let srv := AddTool srv "k8s_apply" "Apply manifests" hK8sApply in
  let srv := AddTool srv "k8s_patch" "Patch resources" K8sPatch in
  let srv := AddTool srv "k8s_label" "Label resources" K8sLabel in
  AddTool srv "k8s_annotate" "Annotate resources" K8sAnnotate.

Definition registerDeleteTools (srv : gmap string Tool) : gmap string Tool :=
  AddTool srv "k8s_delete" "Delete resources" K8sDelete.

Definition RegisterKubectlTool (srv : gmap string Tool) (disableWrite disableDelete : bool)
  : gmap string Tool :=
  AddTool srv "kubectl" "Run a kubectl command and return the output"
          (hKubectl disableWrite disableDelete).

Definition RegisterHelmTool (srv : gmap string Tool) (disableWrite : bool)
  : gmap string Tool :=
  AddTool srv "helm" "Run a helm command and return the output" (hHelm disableWrite).

(** The registrations of [Run], between the set-up of the client and the
    choice of the transport. *)
Definition registered (opts : Options) : gmap string Tool :=
  let srv := registerReadTools ∅ in
  let srv := if negb (DisableWrite opts) then registerWriteTools srv else srv in
  let srv := if negb (DisableDelete opts) then registerDeleteTools srv else srv in
  let srv := if negb (DisableKubectl opts)
             then RegisterKubectlTool srv (DisableWrite opts) (DisableDelete opts) else srv in
  if negb (DisableHelm opts) then RegisterHelmTool srv (DisableWrite opts) else srv.
End server.

(** A splitter for concrete runs: fields are separated by spaces. *)
Module TestShell.
Fixpoint split (cur : string) (s : string) : list string :=
  match s with
  | String.EmptyString => if bool_decide (cur = "") then [] else [cur]
  | String.String c s' =>
      if bool_decide (Ascii.nat_of_ascii c = 32) then
        (if bool_decide (cur = "") then [] else [cur]) ++ split "" s'
      else split (cur +:+ String.String c "") s'
  end.

Definition Fields (s : string) : list string := split "" s.
Definition TrimSpace (s : string) : string := s.
Definition combinedOutput (binary : string) (args : list string) : string * option error :=
  ("ok", None).
End TestShell.

(** ** String helpers of the copy tool and of the kubeconfig set-up

    Go strings are byte strings, as [string] is; the characters these
    helpers look for are single bytes. *)

Module strings.
Definition dquote : Ascii.ascii := Ascii.ascii_of_nat 34.
Definition backslash : Ascii.ascii := Ascii.ascii_of_nat 92.
Definition colon : Ascii.ascii := Ascii.ascii_of_nat 58.

Definition char (c : Ascii.ascii) : string := String.String c String.EmptyString.

(** [strings.ReplaceAll(s, old, new)] for a pattern [old] of one byte. *)
Fixpoint ReplaceAll (s : string) (old : Ascii.ascii) (new : string) : string :=
  match s with
  | String.EmptyString => String.EmptyString
  | String.String c s' =>
      (if bool_decide (c = old) then new else char c) +:+ ReplaceAll s' old new
  end.

(** The cut of [s] at the first byte [sep]: what is before it and what is
    after it. *)
Fixpoint cut (s : string) (sep : Ascii.ascii) : option (string * string) :=
  match s with
  | String.EmptyString => None
  | String.String c s' =>
      if bool_decide (c = sep) then Some (String.EmptyString, s')
      else match cut s' sep with
           | Some (before, after) => Some (String.String c before, after)
           | None => None
           end
  end.

(** [strings.SplitN(s, sep, 2)] for a separator of one byte. *)
Definition SplitN2 (s : string) (sep : Ascii.ascii) : list string :=
  match cut s sep with
  | Some (before, after) => [before; after]
  | None => [s]
  end.

Fixpoint contains (s : string) (c : Ascii.ascii) : bool :=
  match s with
  | String.EmptyString => false
  | String.String d s' => bool_decide (d = c) || contains s' c
  end.
End strings.

Definition shellQuote (s : string) : string :=
  let s := strings.ReplaceAll s strings.backslash
             (strings.char strings.backslash +:+ strings.char strings.backslash) in
  let s := strings.ReplaceAll s strings.dquote
             (strings.char strings.backslash +:+ strings.char strings.dquote) in
  strings.char strings.dquote +:+ s +:+ strings.char strings.dquote.

(** The two replacements of [shellQuote], one after the other. *)
Definition escaped (s : string) : string :=
  strings.ReplaceAll
    (strings.ReplaceAll s strings.backslash
       (strings.char strings.backslash +:+ strings.char strings.backslash))
    strings.dquote (strings.char strings.backslash +:+ strings.char strings.dquote).

(** What [shellQuote] writes for one byte of the path: a backslash and a
    double quote get a backslash in front, any other byte is written as it
    is. *)
Definition quotedByte (c : Ascii.ascii) : string :=
  if bool_decide (c = strings.backslash)
  then String.String strings.backslash (strings.char strings.backslash)
  else if bool_decide (c = strings.dquote)
       then String.String strings.backslash (strings.char strings.dquote)
       else strings.char c.

Fixpoint quotedBytes (s : string) : string :=
  match s with
  | String.EmptyString => String.EmptyString
  | String.String c s' => quotedByte c +:+ quotedBytes s'
  end.

Section PodPath.
(* strconv.Quote, the verb %q *)
Context (Quote : string → string).

Definition splitPodPath (s : string) : string * string * option string :=
  let parts := strings.SplitN2 s strings.colon in
  match parts with
  | [pod; path] =>
      if bool_decide (pod = "") || bool_decide (path = "") then
        ("", "", Some ("invalid pod path " +:+ Quote s +:+ "; expected pod_name:path"))
      else (pod, path, None)
  | _ => ("", "", Some ("invalid pod path " +:+ Quote s +:+ "; expected pod_name:path"))
  end.
End PodPath.

(** [bytesTrimSpace]: two index loops, then the slice between them. *)
Definition isBlank (b : Byte.byte) : bool :=
  match b with
  | Byte.x20 | Byte.x0a | Byte.x0d | Byte.x09 => true   (* ' ', '\n', '\r', '\t' *)
  | _ => false
  end.

(** The first loop, [rest] being [b[start:]]. *)
Fixpoint trimStart (rest : list Byte.byte) (start : nat) : nat :=
  match rest with
  | c :: rest' => if isBlank c then trimStart rest' (S start) else start
  | [] => start
  end.

(** The second loop, counting [end] down. *)
Fixpoint trimEnd (b : list Byte.byte) (start end_ : nat) : nat :=
  match end_ with
  | O => O
  | S e =>
      if (start <? end_)%nat && isBlank (default Byte.x00 (b !! e))
      then trimEnd b start e else end_
  end.

Definition bytesTrimSpace (b : list Byte.byte) : list Byte.byte :=
  let start := trimStart b 0 in
  let end_ := trimEnd b start (length b) in
  take (end_ - start) (drop start b).

(** ** One iteration of each loop *)

Arguments waitPodDeleted : simpl never.
Arguments evictLoop : simpl never.

Section Steps.
Context {W : Type} (K : Cluster W).

Lemma call_eq {A} (ev : Event) (f : W → A * W) (st : St W) :
  call ev f st = Some ((f (world st)).1, logged st ev (f (world st)).2).
Proof. unfold call, logged. by destruct (f (world st)). Qed.

Lemma waitPodDeleted_S fuel ns name (st : St W) :
  waitPodDeleted K (S fuel) ns name st =
    let err := (podsGet K ns name (world st)).1 in
    let st1 := logged st (EvGetPod ns name) (podsGet K ns name (world st)).2 in
    if errIs apierrors.IsNotFound err then Some (None, st1)
    else if isSome err && isSome (ctxErr K (world st1)) then Some (ctxErr K (world st1), st1)
    else
      let st2 := logged st1 EvTick (selectTick K (world st1)).2 in
      match (selectTick K (world st1)).1 with
      | Some e => Some (Some e, st2)
      | None => waitPodDeleted K fuel ns name st2
      end.
Proof.
  unfold waitPodDeleted at 1; fold (waitPodDeleted K).
  unfold bind. rewrite call_eq. cbn zeta.
  destruct (errIs _ _); [done|].
  unfold peek at 1. cbn beta iota.
  destruct (isSome _ && isSome _); [done|].
  rewrite call_eq. by destruct (selectTick K _).1.
Qed.

Lemma evictLoop_S fuel pod g backoff maxBackoff (st : St W) :
  evictLoop K (S fuel) pod g backoff maxBackoff st =
    let ns := v1.Namespace pod in
    let name := v1.Name pod in
    match ctxErr K (world st) with
    | Some e => Some (Some e, st)
    | None =>
        let st1 := logged st (EvEvict ns name g) (evict K ns name g (world st)).2 in
        match (evict K ns name g (world st)).1 with
        | None => waitPodDeleted K (S fuel) ns name st1
        | Some e =>
            if apierrors.IsNotFound e then Some (None, st1)
            else if retryable e then
              let st2 := logged st1 (EvSleep backoff) (selectAfter K backoff (world st1)).2 in
              match (selectAfter K backoff (world st1)).1 with
              | Some ce => Some (Some ce, st2)
              | None => evictLoop K fuel pod g (nextBackoff backoff maxBackoff) maxBackoff st2
              end
            else Some (Some e, st1)
        end
    end.
Proof.
  unfold evictLoop at 1; fold (evictLoop K).
  unfold bind, peek. cbn beta iota zeta.
  destruct (ctxErr K (world st)); [done|].
  rewrite call_eq.
  destruct (evict K _ _ _ _).1 as [e|]; [|done].
  destruct (apierrors.IsNotFound e); [done|].
  unfold retryable.
  destruct (apierrors.IsTooManyRequests e); cbn [orb].
  - rewrite call_eq. by destruct (selectAfter K _ _).1.
  - destruct (_ || _ || _); [|done].
    rewrite call_eq. by destruct (selectAfter K _ _).1.
Qed.
End Steps.

(** ** The code runs inside the relations *)

Section Runs.
Context {W : Type} (K : Cluster W).

(** Every terminating run of the code is a run of the relation. *)
Lemma waitPodDeleted_run fuel ns name (st : St W) r st' :
  waitPodDeleted K fuel ns name st = Some (r, st') →
  ∃ t, WaitRun K ns name (world st) t r (world st') ∧ trace st' = trace st ++ t.
Proof.
  revert st. induction fuel as [|fuel IH]; intros st; [done|].
  rewrite waitPodDeleted_S. cbn zeta.
  destruct (podsGet K ns name (world st)) as [err w1] eqn:Hget. cbn [fst snd].
  destruct (errIs apierrors.IsNotFound err) eqn:Hnf.
  { intros [= <- <-]. eexists. split; [by eapply WaitGone|done]. }
  cbn [logged world].
  destruct (isSome err && isSome (ctxErr K w1)) eqn:Hbr.
  { intros [= <- <-]. eexists. split; [by eapply WaitBroken|done]. }
  destruct (selectTick K w1) as [[e|] w2] eqn:Htick; cbn [fst snd].
  { intros [= <- <-]. eexists. split; [by eapply WaitCancelled|].
    cbn. by rewrite <- app_assoc. }
  intros Hrec. apply IH in Hrec as (t & Hrun & Ht). cbn in Hrun, Ht.
  eexists. split; [by eapply WaitTick|].
  rewrite Ht, <- !app_assoc. done.
Qed.

Lemma evictLoop_run fuel pod g backoff maxBackoff (st : St W) r st' :
  evictLoop K fuel pod g backoff maxBackoff st = Some (r, st') →
  ∃ t, EvictRun K pod g maxBackoff backoff (world st) t r (world st')
       ∧ trace st' = trace st ++ t.
Proof.
  revert backoff st. induction fuel as [|fuel IH]; intros backoff st; [done|].
  rewrite evictLoop_S. cbn zeta.
  destruct (ctxErr K (world st)) as [ce|] eqn:Hctx.
  { intros [= <- <-]. exists []. split; [by apply EvictExpired|by rewrite app_nil_r]. }
  destruct (evict K _ _ g (world st)) as [[e|] w1] eqn:Hev; cbn [fst snd].
  2:{ intros Hw. apply waitPodDeleted_run in Hw as (t & Hrun & Ht). cbn in Hrun, Ht.
      eexists. split; [by eapply EvictAccepted|]. by rewrite Ht, <- app_assoc. }
  destruct (apierrors.IsNotFound e) eqn:Hnf.
  { intros [= <- <-]. eexists. split; [by eapply EvictGone|done]. }
  destruct (retryable e) eqn:Hre.
  2:{ intros [= <- <-]. eexists. split; [by eapply EvictFatal|done]. }
  cbn [logged world].
  destruct (selectAfter K backoff w1) as [[ce|] w2] eqn:Hsel; cbn [fst snd].
  { intros [= <- <-]. eexists. split; [by eapply EvictCancelled|].
    cbn. by rewrite <- app_assoc. }
  intros Hrec. apply IH in Hrec as (t & Hrun & Ht). cbn in Hrun, Ht.
  eexists. split; [by eapply EvictRetry|].
  rewrite Ht, <- !app_assoc. done.
Qed.
End Runs.

(** ** The classifier *)

Section Classifier.
Context {W : Type} (K : Cluster W).

Lemma isCompletedPod_spec pod : isCompletedPod pod = true ↔ terminalPhase pod.
Proof.
  unfold isCompletedPod, terminalPhase, v1.PodSucceeded, v1.PodFailed.
  rewrite orb_true_iff, !bool_decide_eq_true. done.
Qed.

Lemma isMirrorPod_spec pod : isMirrorPod pod = true ↔ mirrorMarked pod.
Proof.
  unfold isMirrorPod, mirrorMarked.
  destruct (v1.Annotations pod !! _) as [v|]; split; done.
Qed.

Lemma ownedByKind_spec refs kind :
  ownedByKind refs kind = true ↔ Exists (λ or, v1.Kind or = kind) refs.
Proof.
  induction refs as [|or refs IH]; cbn.
  - split; [done|]. by intros ?%Exists_nil.
  - rewrite Exists_cons. case_bool_decide; [tauto|].
    rewrite IH. tauto.
Qed.

Lemma anyLocalVolume_spec vs :
  anyLocalVolume vs = true
  ↔ Exists (λ v, is_Some (v1.EmptyDir v) ∨ is_Some (v1.HostPath v)) vs.
Proof.
  induction vs as [|v vs IH]; cbn.
  - split; [done|]. by intros ?%Exists_nil.
  - rewrite Exists_cons, <- IH.
    destruct (v1.EmptyDir v) as [?|], (v1.HostPath v) as [?|]; cbn;
      repeat case_bool_decide; try done;
      split; eauto; try (intros [[[? ?]|[? ?]]|?]; done).
Qed.

Lemma classify_spec_code (a : DrainArgs) pod :
  classify_spec (ignore_daemonsets a) (delete_local_data a) (force a) pod =
    if isCompletedPod pod then NotProcessed
    else if isMirrorPod pod then SkipMirror
    else if ignore_daemonsets a && isOwnedBy pod "DaemonSet" then SkipDaemonSet
    else if negb (delete_local_data a) && hasLocalData pod && negb (force a)
         then SkipLocalData
    else ProceedToEvict.
Proof.
  unfold classify_spec.
  pose proof (isCompletedPod_spec pod) as Hc.
  pose proof (isMirrorPod_spec pod) as Hm.
  pose proof (ownedByKind_spec (v1.OwnerReferences pod) "DaemonSet") as Ho.
  pose proof (anyLocalVolume_spec (v1.Volumes pod)) as Hl.
  fold (isOwnedBy pod "DaemonSet") in Ho. fold (hasLocalData pod) in Hl.
  fold (ownedByDaemonSet pod) in Ho. fold (declaresLocalVolume pod) in Hl.
  destruct (isCompletedPod pod); [rewrite decide_True by tauto; done|].
  rewrite decide_False by (intros ?; by apply Hc in H).
  destruct (isMirrorPod pod); [rewrite decide_True by tauto; done|].
  rewrite (decide_False (P := mirrorMarked pod)) by (intros ?; by apply Hm in H).
  destruct (ignore_daemonsets a), (isOwnedBy pod "DaemonSet"); cbn [andb].
  1: rewrite decide_True by tauto; done.
  all: rewrite (decide_False (P := _ ∧ ownedByDaemonSet pod))
         by (intros [? ?]; try done; by apply Ho in H0).
  all: destruct (delete_local_data a), (hasLocalData pod), (force a); cbn [andb negb];
       first [ rewrite decide_True by tauto; done
             | rewrite decide_False; [done|]; intros (? & ? & ?); try done; by apply Hl in H ].
Qed.

(** C1.  The loop body of the drain follows the classifier's rule table in
    its order, first match winning: a pod in a terminal phase leaves the
    outcomes as they are; a mirror pod gets the mirror skip; a DaemonSet pod
    gets the daemonset skip when DaemonSet pods are ignored; a pod with a
    node-local volume gets the local-data skip when neither
    [delete_local_data] nor [force] is set; every other pod goes to the
    eviction engine.  No skip sends a request.  A pod that is a local-data
    skip with both flags unset goes to eviction once either flag is set. *)
Theorem drainPod_follows_rule_table fuel (a : DrainArgs) g pod results (st : St W) :
  drainPod K fuel a g pod results st =
    match classify_spec (ignore_daemonsets a) (delete_local_data a) (force a) pod with
    | NotProcessed => Some (results, st)
    | SkipMirror =>
        Some (results ++ [mkResult pod "skipped (mirror/static pod)" ""], st)
    | SkipDaemonSet =>
        Some (results ++ [mkResult pod "skipped (daemonset)" ""], st)
    | SkipLocalData =>
        Some (results ++ [mkResult pod
                "skipped (local data; set delete_local_data=true or force=true)" ""], st)
    | ProceedToEvict => evictOrDelete K fuel a g pod results st
    end
  ∧ (∀ ignoreDaemonSetPods allowLocalDataLoss force,
       classify_spec ignoreDaemonSetPods false false pod = SkipLocalData →
       allowLocalDataLoss || force = true →
       classify_spec ignoreDaemonSetPods allowLocalDataLoss force pod = ProceedToEvict).
Proof.
  split.
  - rewrite classify_spec_code. unfold drainPod.
    destruct (isCompletedPod pod); [done|].
    destruct (isMirrorPod pod); [done|].
    destruct (ignore_daemonsets a && isOwnedBy pod "DaemonSet"); [done|].
    by destruct (negb (delete_local_data a) && hasLocalData pod && negb (force a)).
  - intros i d f. unfold classify_spec.
    repeat case_decide; try done; intros _ Hflag.
    destruct d, f; try done; exfalso; intuition congruence.
Qed.
End Classifier.

(** A pod with scratch space, [delete_local_data] set: routed to eviction. *)
Lemma drainPod_follows_rule_table_witness :
  classify_spec true false false (Sim.scratchPod "default" "cache") = SkipLocalData
  ∧ classify_spec true true false (Sim.scratchPod "default" "cache") = ProceedToEvict.
Proof.
  split; [reflexivity|].
  apply (proj2 (drainPod_follows_rule_table Sim.cluster 1 (Sim.args "n1") None
                  (Sim.scratchPod "default" "cache") []
                  (Sim.start (Sim.healthy [] 1))) true true false);
    reflexivity.
Defined.

(** ** The drain, step by step *)

Section Drain.
Context {W : Type} (K : Cluster W).

Lemma K8sCordon_eq nodeName (st : St W) :
  K8sCordon K nodeName st =
    if bool_decide (nodeName = "") then
      Some (textErrorResult (Str "node_name is required"), st)
    else if clientReady K (world st) then
      let ev := EvPatchNode nodeName StrategicMergePatchType cordonPatch in
      let st1 := logged st ev
                   (nodesPatch K nodeName StrategicMergePatchType cordonPatch (world st)).2 in
      match (nodesPatch K nodeName StrategicMergePatchType cordonPatch (world st)).1 with
      | Some err =>
          Some (textErrorResult
                  (Str ("Error cordoning node " +:+ nodeName +:+ ": " +:+ errorText err)), st1)
      | None =>
          Some (textOKResult (Str ("Node " +:+ nodeName +:+ " cordoned successfully")), st1)
      end
    else Some (textErrorResult (Str "Kubernetes client is not initialized"), st).
Proof.
  unfold K8sCordon. case_bool_decide; [done|].
  unfold bind, getClient, peek. destruct (clientReady K (world st)); [|done].
  rewrite call_eq. by destruct (nodesPatch K _ _ _ _).1.
Qed.

Lemma K8sDrain_cordon_fails fuel (a : DrainArgs) (st : St W) e w1 :
  node_name a ≠ "" →
  clientReady K (world st) = true →
  nodesPatch K (node_name a) StrategicMergePatchType cordonPatch (world st) = (Some e, w1) →
  K8sDrain K fuel a st =
    Some (textErrorResult
            (Str ("Error cordoning node " +:+ node_name a +:+ ": " +:+ errorText e)),
          logged st (patchEvent a) w1).
Proof.
  intros Hn Hr Hp. unfold K8sDrain. rewrite bool_decide_false by done.
  unfold bind at 1. unfold getClient at 1, peek at 1. rewrite Hr.
  unfold bind at 1. rewrite K8sCordon_eq, bool_decide_false, Hr, Hp by done. done.
Qed.

Lemma K8sDrain_list_fails fuel (a : DrainArgs) (st : St W) w1 e w2 :
  node_name a ≠ "" →
  clientReady K (world st) = true →
  nodesPatch K (node_name a) StrategicMergePatchType cordonPatch (world st) = (None, w1) →
  podsList K (listSelector a) w1 = (inl e, w2) →
  K8sDrain K fuel a st =
    Some (textErrorResult
            (Str ("Error listing pods on node " +:+ node_name a +:+ ": " +:+ errorText e)),
          logged (logged st (patchEvent a) w1) (EvListPods (listSelector a)) w2).
Proof.
  intros Hn Hr Hp Hl. unfold K8sDrain. rewrite bool_decide_false by done.
  unfold bind at 1. unfold getClient at 1, peek at 1. rewrite Hr.
  unfold bind at 1. rewrite K8sCordon_eq, bool_decide_false, Hr, Hp by done.
  cbn [fst snd IsError textOKResult]. unfold bind at 1. rewrite call_eq.
  cbn [logged world]. fold (listSelector a). rewrite Hl. done.
Qed.

Lemma K8sDrain_listed fuel (a : DrainArgs) (st : St W) w1 items w2 :
  node_name a ≠ "" →
  clientReady K (world st) = true →
  nodesPatch K (node_name a) StrategicMergePatchType cordonPatch (world st) = (None, w1) →
  podsList K (listSelector a) w1 = (inr items, w2) →
  K8sDrain K fuel a st =
    match drainPods K fuel a (gracePtrOf a) items [] (listed K a st w1 w2) with
    | Some (rs, st') => Some (report a rs, st')
    | None => None
    end.
Proof.
  intros Hn Hr Hp Hl. unfold K8sDrain. rewrite bool_decide_false by done.
  unfold bind at 1. unfold getClient at 1, peek at 1. rewrite Hr.
  unfold bind at 1. rewrite K8sCordon_eq, bool_decide_false, Hr, Hp by done.
  cbn [fst snd IsError textOKResult]. unfold bind at 1. rewrite call_eq.
  cbn [logged world]. fold (listSelector a). rewrite Hl. cbn [fst snd].
  unfold bind at 1, update at 1. cbn [world trace]. unfold bind at 1.
  unfold listed, patchEvent, logged. cbn [world trace].
  rewrite <- app_assoc. cbn [app].
  by destruct (drainPods _ _ _ _ _ _ _) as [[rs st']|].
Qed.

(** Every result of the drain is one of four: the three call-level errors
    that precede the loop, or the report. *)
Lemma K8sDrain_cases fuel (a : DrainArgs) (st : St W) res st' :
  K8sDrain K fuel a st = Some (res, st') →
  (IsError res = true ∧ ∃ t, trace st' = trace st ++ t ∧ length t ≤ 2)
  ∨ ∃ w1 items w2 rs,
      node_name a ≠ ""
      ∧ clientReady K (world st) = true
      ∧ nodesPatch K (node_name a) StrategicMergePatchType cordonPatch (world st) = (None, w1)
      ∧ podsList K (listSelector a) w1 = (inr items, w2)
      ∧ drainPods K fuel a (gracePtrOf a) items [] (listed K a st w1 w2) = Some (rs, st')
      ∧ res = report a rs.
Proof.
  destruct (decide (node_name a = "")) as [Hn|Hn].
  { unfold K8sDrain. rewrite bool_decide_true by done. unfold ret. intros ?; simplify_eq.
    left. split; [done|]. exists []. rewrite app_nil_r. split; [done|cbn; lia]. }
  destruct (clientReady K (world st)) eqn:Hr.
  2:{ unfold K8sDrain. rewrite bool_decide_false by done.
      unfold bind at 1. unfold getClient at 1, peek at 1. rewrite Hr.
      unfold ret. intros ?; simplify_eq. left. split; [done|]. exists []. rewrite app_nil_r. split; [done|cbn; lia]. }
  destruct (nodesPatch K (node_name a) StrategicMergePatchType cordonPatch (world st))
    as [[e|] w1] eqn:Hp.
  { rewrite (K8sDrain_cordon_fails _ _ _ _ _ Hn Hr Hp). intros ?; simplify_eq.
    left. split; [done|]. eexists. split; [done|]. cbn. lia. }
  destruct (podsList K (listSelector a) w1) as [[e|items] w2] eqn:Hl.
  { rewrite (K8sDrain_list_fails _ _ _ _ _ _ Hn Hr Hp Hl). intros ?; simplify_eq.
    left. split; [done|]. eexists. split; [cbn; by rewrite <- app_assoc|]. cbn. lia. }
  rewrite (K8sDrain_listed _ _ _ _ _ _ Hn Hr Hp Hl).
  destruct (drainPods _ _ _ _ _ _ _) as [[rs st1]|] eqn:Hd; [|done].
  intros ?; simplify_eq. right. by exists w1, items, w2, rs.
Qed.
End Drain.

(** ** Outcomes of the loop over the pods *)

Ltac in_actions := unfold actions; solve [repeat constructor].

Section Outcomes.
Context {W : Type} (K : Cluster W).

Lemma evictWithRetry_eq fuel pod g i m :
  evictWithRetry K fuel pod g i m
  = evictLoop K fuel pod g (effectiveInitial i) (effectiveMax m).
Proof. reflexivity. Qed.

Lemma evictWithRetry_run fuel pod g i m (st : St W) r st' :
  evictWithRetry K fuel pod g i m st = Some (r, st') →
  ∃ t, EvictRun K pod g (effectiveMax m) (effectiveInitial i) (world st) t r (world st')
       ∧ trace st' = trace st ++ t.
Proof. rewrite evictWithRetry_eq. apply evictLoop_run. Qed.

Lemma evictOrDelete_eq fuel (a : DrainArgs) g pod results (st : St W) :
  evictOrDelete K fuel a g pod results st =
    match evictWithRetry K fuel pod g (scale (retry_backoff_ms a) Millisecond)
                         (scale (max_backoff_ms a) Millisecond) st with
    | None => None
    | Some (None, st1) => Some (results ++ [mkResult pod "evicted" ""], st1)
    | Some (Some err, st1) =>
        if force a then
          let ev := EvDeletePod (v1.Namespace pod) (v1.Name pod) g in
          let ans := podsDelete K (v1.Namespace pod) (v1.Name pod) g (world st1) in
          match ans.1 with
          | Some derr =>
              Some (results ++ [mkResult pod "evict_failed_delete_failed"
                                  ("evict: " +:+ errorText err +:+ "; delete: "
                                   +:+ errorText derr)],
                    logged st1 ev ans.2)
          | None => Some (results ++ [mkResult pod "force_deleted" ""], logged st1 ev ans.2)
          end
        else Some (results ++ [mkResult pod "evict_failed" (errorText err)], st1)
    end.
Proof.
  unfold evictOrDelete, bind.
  destruct (evictWithRetry _ _ _ _ _ _ _) as [[[err|] st1]|]; [|done..].
  destruct (force a); [|done].
  rewrite call_eq. by destruct (podsDelete K _ _ _ _).1.
Qed.

(** What one pushed through the eviction engine adds to the outcomes. *)
Lemma evictOrDelete_outcome fuel (a : DrainArgs) g pod results (st : St W) rs st' :
  evictOrDelete K fuel a g pod results st = Some (rs, st') →
  ∃ action err,
    rs = results ++ [mkResult pod action err]
    ∧ action ∈ actions.
Proof.
  rewrite evictOrDelete_eq.
  destruct (evictWithRetry _ _ _ _ _ _ _) as [[[err|] st1]|]; [| |done].
  - destruct (force a).
    + cbn zeta. destruct (podsDelete K _ _ _ _).1; intros ?; simplify_eq;
        do 2 eexists; (split; [done|]); in_actions.
    + intros ?; simplify_eq. do 2 eexists. split; [done|]. in_actions.
  - intros ?; simplify_eq. do 2 eexists. split; [done|]. in_actions.
Qed.

Lemma drainPod_outcome fuel (a : DrainArgs) g pod results (st : St W) rs st' :
  drainPod K fuel a g pod results st = Some (rs, st') →
  ∃ new,
    rs = results ++ new
    ∧ resultKey <$> new = podKey <$> activePods [pod]
    ∧ Forall (λ r, podResult.Action r ∈ actions) new.
Proof.
  unfold drainPod, activePods. cbn [filter list_filter].
  destruct (isCompletedPod pod) eqn:Hc.
  { rewrite decide_False by done. unfold ret. intros ?; simplify_eq.
    exists []. by rewrite app_nil_r. }
  rewrite decide_True by done.
  assert (∀ action err, action ∈ actions →
            resultKey <$> [mkResult pod action err] = podKey <$> [pod]
            ∧ Forall (λ r, podResult.Action r ∈ actions) [mkResult pod action err])
    as Hone.
  { intros action err Hin. split; [done|]. by apply Forall_singleton. }
  destruct (isMirrorPod pod).
  { unfold ret. intros ?; simplify_eq. eexists. split; [done|].
    apply Hone. in_actions. }
  destruct (ignore_daemonsets a && isOwnedBy pod "DaemonSet").
  { unfold ret. intros ?; simplify_eq. eexists. split; [done|].
    apply Hone. in_actions. }
  destruct (negb (delete_local_data a) && hasLocalData pod && negb (force a)).
  { unfold ret. intros ?; simplify_eq. eexists. split; [done|].
    apply Hone. in_actions. }
  intros (action & err & -> & Hin)%evictOrDelete_outcome.
  eexists. split; [done|]. by apply Hone.
Qed.

Lemma activePods_cons pod items :
  activePods (pod :: items) = activePods [pod] ++ activePods items.
Proof. unfold activePods. cbn. by case_decide. Qed.

Lemma drainPods_outcome fuel (a : DrainArgs) g items results (st : St W) rs st' :
  drainPods K fuel a g items results st = Some (rs, st') →
  ∃ new,
    rs = results ++ new
    ∧ resultKey <$> new = podKey <$> activePods items
    ∧ Forall (λ r, podResult.Action r ∈ actions) new.
Proof.
  revert results st. induction items as [|pod items IH]; intros results st.
  { cbn. unfold ret. intros ?; simplify_eq. exists []. by rewrite app_nil_r. }
  cbn [drainPods]. unfold bind.
  destruct (drainPod K fuel a g pod results st) as [[rs1 st1]|] eqn:Hpod; [|done].
  apply drainPod_outcome in Hpod as (new1 & -> & Hk1 & Ha1).
  intros (new2 & -> & Hk2 & Ha2)%IH.
  exists (new1 ++ new2). rewrite app_assoc. split; [done|].
  rewrite activePods_cons, !fmap_app, Hk1, Hk2. split; [done|].
  by apply Forall_app.
Qed.
End Outcomes.

(** ** Termination: the deadline ends both loops *)

Section Termination.
Context {W : Type} (K : Cluster W) (remaining : W → nat).
Hypothesis progress : Progress K remaining.

Lemma waitPodDeleted_terminates fuel ns name (st : St W) :
  remaining (world st) < fuel →
  ∃ r st', waitPodDeleted K fuel ns name st = Some (r, st')
           ∧ remaining (world st') ≤ remaining (world st).
Proof.
  revert st. induction fuel as [|fuel IH]; intros st Hlt; [lia|].
  rewrite waitPodDeleted_S. cbn zeta.
  pose proof (get_keeps K remaining progress ns name (world st)) as Hget.
  destruct (podsGet K ns name (world st)) as [err w1]. cbn [fst snd] in *.
  destruct (errIs apierrors.IsNotFound err); [by eauto|].
  cbn [logged world].
  destruct (isSome err && isSome (ctxErr K w1)); [by eauto|].
  pose proof (tick_keeps K remaining progress w1) as Hkeep.
  destruct (selectTick K w1) as [[e|] w2] eqn:Htick; cbn [fst snd] in *.
  { do 2 eexists. split; [done|]. cbn. lia. }
  apply (tick_fires K remaining progress) in Htick.
  destruct (IH (logged (logged st (EvGetPod ns name) w1) EvTick w2))
    as (r & st' & Hrun & Hle); [cbn; lia|].
  exists r, st'. split; [done|]. cbn in Hle. lia.
Qed.

Lemma evictLoop_terminates fuel pod g backoff maxBackoff (st : St W) :
  remaining (world st) < fuel →
  ∃ r st', evictLoop K fuel pod g backoff maxBackoff st = Some (r, st')
           ∧ remaining (world st') ≤ remaining (world st).
Proof.
  revert backoff st. induction fuel as [|fuel IH]; intros backoff st Hlt; [lia|].
  rewrite evictLoop_S. cbn zeta.
  destruct (ctxErr K (world st)); [by eauto|].
  pose proof (evict_keeps K remaining progress (v1.Namespace pod) (v1.Name pod) g (world st))
    as Hev.
  destruct (evict K _ _ g (world st)) as [[e|] w1]; cbn [fst snd] in *.
  2:{ destruct (waitPodDeleted_terminates (S fuel) (v1.Namespace pod) (v1.Name pod)
                  (logged st (EvEvict (v1.Namespace pod) (v1.Name pod) g) w1))
        as (r & st' & Hrun & Hle); [cbn; lia|].
      exists r, st'. split; [done|]. cbn in Hle. lia. }
  destruct (apierrors.IsNotFound e); [by eauto|].
  destruct (retryable e); [|by eauto].
  cbn [logged world].
  pose proof (after_keeps K remaining progress backoff w1) as Hkeep.
  destruct (selectAfter K backoff w1) as [[ce|] w2] eqn:Hsel; cbn [fst snd] in *.
  { do 2 eexists. split; [done|]. cbn. lia. }
  apply (after_fires K remaining progress) in Hsel.
  edestruct (IH (nextBackoff backoff maxBackoff)) as (r & st' & Hrun & Hle);
    [|exists r, st'; split; [exact Hrun|]]; cbn in *; lia.
Qed.

Lemma evictOrDelete_terminates fuel (a : DrainArgs) g pod results (st : St W) :
  remaining (world st) < fuel →
  ∃ rs st', evictOrDelete K fuel a g pod results st = Some (rs, st')
            ∧ remaining (world st') ≤ remaining (world st).
Proof.
  intros Hlt. rewrite evictOrDelete_eq, evictWithRetry_eq.
  destruct (evictLoop_terminates fuel pod g
              (effectiveInitial (scale (retry_backoff_ms a) Millisecond))
              (effectiveMax (scale (max_backoff_ms a) Millisecond)) st Hlt)
    as ([err|] & st1 & -> & Hle); [|by eauto].
  destruct (force a); [|by eauto].
  pose proof (delete_keeps K remaining progress (v1.Namespace pod) (v1.Name pod) g (world st1))
    as Hdel.
  cbn zeta. destruct (podsDelete K _ _ _ _) as [[derr|] w2]; cbn [fst snd] in *;
    do 2 eexists; (split; [done|]); cbn; lia.
Qed.

Lemma drainPods_terminates fuel (a : DrainArgs) g items results (st : St W) :
  remaining (world st) < fuel →
  ∃ rs st', drainPods K fuel a g items results st = Some (rs, st').
Proof.
  revert results st. induction items as [|pod items IH]; intros results st Hlt.
  { by eauto. }
  cbn [drainPods]. unfold bind.
  assert (∃ rs1 st1, drainPod K fuel a g pod results st = Some (rs1, st1)
                     ∧ remaining (world st1) ≤ remaining (world st))
    as (rs1 & st1 & -> & Hle).
  { unfold drainPod.
    destruct (isCompletedPod pod); [by eauto|].
    destruct (isMirrorPod pod); [by eauto|].
    destruct (ignore_daemonsets a && isOwnedBy pod "DaemonSet"); [by eauto|].
    destruct (negb (delete_local_data a) && hasLocalData pod && negb (force a));
      [by eauto|].
    by apply evictOrDelete_terminates. }
  apply IH. lia.
Qed.

(** With enough fuel the drain returns. *)
Lemma K8sDrain_terminates (a : DrainArgs) (st : St W) :
  ∃ fuel res st', K8sDrain K fuel a st = Some (res, st').
Proof.
  destruct (decide (node_name a = "")) as [Hn|Hn].
  { exists 0. unfold K8sDrain. rewrite bool_decide_true by done. by eauto. }
  destruct (clientReady K (world st)) eqn:Hr.
  2:{ exists 0. unfold K8sDrain. rewrite bool_decide_false by done.
      unfold bind at 1. unfold getClient at 1, peek at 1. rewrite Hr. by eauto. }
  destruct (nodesPatch K (node_name a) StrategicMergePatchType cordonPatch (world st))
    as [[e|] w1] eqn:Hp.
  { exists 0. rewrite (K8sDrain_cordon_fails _ _ _ _ _ _ Hn Hr Hp). by eauto. }
  destruct (podsList K (listSelector a) w1) as [[e|items] w2] eqn:Hl.
  { exists 0. rewrite (K8sDrain_list_fails _ _ _ _ _ _ _ Hn Hr Hp Hl). by eauto. }
  exists (S (remaining (world (listed K a st w1 w2)))).
  rewrite (K8sDrain_listed _ _ _ _ _ _ _ Hn Hr Hp Hl).
  edestruct drainPods_terminates as (rs & st' & ->); [|by eauto]. lia.
Qed.
End Termination.

(** ** The scripted cluster keeps time *)

Lemma sim_progress : Progress Sim.cluster Sim.timeLeft.
Proof.
  split; cbn; unfold Sim.spend, Sim.answerEvict; intros.
  - destruct (Sim.timeLeft w) eqn:Hw; simplify_eq. cbn. lia.
  - destruct (Sim.timeLeft w) eqn:Hw; simplify_eq. cbn. lia.
  - destruct (Sim.timeLeft w) eqn:Hw; cbn; lia.
  - destruct (Sim.timeLeft w) eqn:Hw; cbn; lia.
  - destruct (Sim.evictAnswers w); cbn; lia.
  - lia.
  - lia.
Qed.

(** ** The report names each listed pod that is not completed, once *)

Section Report.
Context {W : Type} (K : Cluster W).

Lemma occurrences_keys k rs :
  occurrences k rs = length (filter (λ k', k' = k) (resultKey <$> rs)).
Proof.
  unfold occurrences. induction rs as [|r rs IH]; [done|].
  rewrite fmap_cons, !filter_cons.
  destruct (decide (resultKey r = k)); cbn [length]; by rewrite IH.
Qed.

Lemma activePods_absent k items :
  k ∉ podKey <$> items → filter (λ k', k' = k) (podKey <$> activePods items) = [].
Proof.
  induction items as [|p items IH]; [done|].
  rewrite fmap_cons, not_elem_of_cons. intros [Hne Hnin].
  rewrite activePods_cons, fmap_app, filter_app, IH, app_nil_r by done.
  unfold activePods. cbn. case_decide; [|done].
  cbn. by rewrite decide_False.
Qed.

Lemma activePods_once items pod :
  NoDup (podKey <$> items) → pod ∈ items →
  length (filter (λ k', k' = podKey pod) (podKey <$> activePods items))
  = if isCompletedPod pod then 0 else 1.
Proof.
  induction items as [|p items IH]; [by intros _ ?%elem_of_nil|].
  rewrite fmap_cons, NoDup_cons. intros [Hnin Hnd].
  rewrite activePods_cons, fmap_app, filter_app, length_app.
  intros [->|Hin]%elem_of_cons.
  - rewrite (activePods_absent _ items) by done. unfold activePods. cbn.
    destruct (isCompletedPod p); [by rewrite decide_False|].
    rewrite decide_True by done. cbn. by rewrite decide_True.
  - rewrite IH by done.
    assert (podKey p ≠ podKey pod) as Hne.
    { intros Heq. apply Hnin. rewrite Heq. by apply list_elem_of_fmap_2. }
    unfold activePods. cbn. case_decide; [|done].
    cbn. by rewrite decide_False.
Qed.
End Report.

(** ** Claims about the drain as a whole *)

(** C3, as stated, fails: a drain that lists one pod in phase [Succeeded]
    returns a report in which that pod does not appear at all. *)
Lemma completed_pod_missing_from_report :
  let pod := Sim.donePod "default" "job-1" in
  let a := Sim.args "n1" in
  fst <$> K8sDrain Sim.cluster 1 a (Sim.start (Sim.healthy [pod] 5)) = Some (report a [])
  ∧ occurrences (podKey pod) [] = 0.
Proof. split; reflexivity. Qed.

(** C3, amended.  Once the node is cordoned and the listing has returned
    [items], every drain that returns returns a report whose outcomes name,
    in listing order, exactly the listed pods that are not in a terminal
    phase: with pods named uniquely, each such pod once and each completed
    pod not at all.  Nothing read after the listing enters the report, as the
    cluster is arbitrary.  When timers use up the time to the deadline, the
    drain does return. *)
Theorem drain_reports_each_active_pod_once {W} (K : Cluster W)
        (a : DrainArgs) (st : St W) w1 items w2 :
  node_name a ≠ "" →
  clientReady K (world st) = true →
  nodesPatch K (node_name a) StrategicMergePatchType cordonPatch (world st) = (None, w1) →
  podsList K (listSelector a) w1 = (inr items, w2) →
  (∀ fuel res st',
     K8sDrain K fuel a st = Some (res, st') →
     ∃ rs, res = report a rs
           ∧ resultKey <$> rs = podKey <$> activePods items
           ∧ (NoDup (podKey <$> items) →
              ∀ pod, pod ∈ items →
                     occurrences (podKey pod) rs = if isCompletedPod pod then 0 else 1))
  ∧ (∀ remaining, Progress K remaining →
                  ∃ fuel res st', K8sDrain K fuel a st = Some (res, st')).
Proof.
  intros Hn Hr Hp Hl. split.
  - intros fuel res st'. rewrite (K8sDrain_listed _ _ _ _ _ _ _ Hn Hr Hp Hl).
    destruct (drainPods _ _ _ _ _ _ _) as [[rs st1]|] eqn:Hd; [|done].
    intros ?; simplify_eq.
    apply drainPods_outcome in Hd as (new & -> & Hkeys & _). cbn [app].
    exists new. split; [done|]. split; [done|].
    intros Hnd pod Hin. rewrite occurrences_keys, Hkeys. by apply activePods_once.
  - intros remaining Hprog. by eapply K8sDrain_terminates.
Qed.

Lemma drain_reports_each_active_pod_once_witness :
  let a := Sim.args "n1" in
  let st := Sim.start (Sim.healthy Sim.mixed 5) in
  (∀ fuel res st',
     K8sDrain Sim.cluster fuel a st = Some (res, st') →
     ∃ rs, res = report a rs
           ∧ resultKey <$> rs = podKey <$> activePods Sim.mixed
           ∧ (NoDup (podKey <$> Sim.mixed) →
              ∀ pod, pod ∈ Sim.mixed →
                     occurrences (podKey pod) rs = if isCompletedPod pod then 0 else 1))
  ∧ (∀ remaining, Progress Sim.cluster remaining →
                  ∃ fuel res st', K8sDrain Sim.cluster fuel a st = Some (res, st')).
Proof.
  cbv zeta.
  apply (drain_reports_each_active_pod_once Sim.cluster (Sim.args "n1")
           (Sim.start (Sim.healthy Sim.mixed 5))
           (Sim.healthy Sim.mixed 5) Sim.mixed (Sim.healthy Sim.mixed 5));
    [discriminate | reflexivity | reflexivity | reflexivity].
Defined.

(** C2, as stated, fails: the outcome of a mirror pod carries the action
    ["skipped (mirror/static pod)"], which is none of the seven strings of
    the specification. *)
Lemma mirror_action_not_in_spec :
  let pod := Sim.mirrorPod "kube-system" "etcd-n1" in
  let a := Sim.args "n1" in
  fst <$> K8sDrain Sim.cluster 1 a (Sim.start (Sim.healthy [pod] 5))
  = Some (report a [mkResult pod "skipped (mirror/static pod)" ""])
  ∧ "skipped (mirror/static pod)" ∉ specActions.
Proof.
  split; [reflexivity|]. unfold specActions.
  rewrite !not_elem_of_cons. repeat split; try discriminate. apply not_elem_of_nil.
Qed.

(** C2, amended.  In every report the [action] of every outcome is one of
    the seven strings the code writes: the three skips
    ["skipped (mirror/static pod)"], ["skipped (daemonset)"],
    ["skipped (local data; set delete_local_data=true or force=true)"], and
    ["evicted"], ["force_deleted"], ["evict_failed"],
    ["evict_failed_delete_failed"]. *)
Theorem report_actions {W} (K : Cluster W) fuel (a : DrainArgs) (st : St W) res st' :
  K8sDrain K fuel a st = Some (res, st') →
  IsError res = false →
  ∃ rs, res = report a rs ∧ Forall (λ r, podResult.Action r ∈ actions) rs.
Proof.
  intros [[Herr _]|(w1 & items & w2 & rs & _ & _ & _ & _ & Hd & ->)]%K8sDrain_cases Hok.
  { congruence. }
  apply drainPods_outcome in Hd as (new & -> & _ & Hact). by exists new.
Qed.

Lemma report_actions_witness :
  let a := Sim.args "n1" in
  ∃ rs, report a [mkResult (Sim.daemonPod "kube-system" "ds-1") "skipped (daemonset)" "";
                  mkResult (Sim.mirrorPod "kube-system" "etcd-n1")
                           "skipped (mirror/static pod)" "";
                  mkResult (Sim.scratchPod "default" "cache")
                           "skipped (local data; set delete_local_data=true or force=true)" "";
                  mkResult (Sim.plainPod "default" "web") "evicted" ""]
        = report a rs
        ∧ Forall (λ r, podResult.Action r ∈ actions) rs.
Proof.
  cbv zeta.
  refine (report_actions Sim.cluster 2 (Sim.args "n1")
            (Sim.start (Sim.healthy Sim.mixed 5)) _ _ _ _);
    [vm_compute; reflexivity | reflexivity].
Defined.

(** ** What the loops send *)

Section Traces.
Context {W : Type} (K : Cluster W).

Lemma sleeps_app (t1 t2 : list (W * Event)) : sleeps (t1 ++ t2) = sleeps t1 ++ sleeps t2.
Proof.
  induction t1 as [|[w ev] t1 IH]; [done|]. destruct ev; cbn; by rewrite ?IH.
Qed.

Lemma evictionWorlds_app (t1 t2 : list (W * Event)) :
  evictionWorlds (t1 ++ t2) = evictionWorlds t1 ++ evictionWorlds t2.
Proof.
  induction t1 as [|[w ev] t1 IH]; [done|]. destruct ev; cbn; by rewrite ?IH.
Qed.

Lemma patches_app (t1 t2 : list (W * Event)) : patches (t1 ++ t2) = patches t1 ++ patches t2.
Proof.
  induction t1 as [|[w ev] t1 IH]; [done|]. destruct ev; cbn; by rewrite ?IH.
Qed.

(** A wait polls and ticks, and nothing else; its last request is one of
    the two. *)
Lemma WaitRun_trace ns name w t r w' :
  WaitRun K ns name w t r w' →
  sleeps t = [] ∧ evictionWorlds t = [] ∧ patches t = []
  ∧ ∃ wl ev, last t = Some (wl, ev) ∧ (ev = EvGetPod ns name ∨ ev = EvTick).
Proof.
  induction 1 as [| | |w err w1 w2 t r w' _ _ _ _ _ (Hs & He & Hp & wl & ev & Hlast & Hev)].
  1-3: repeat split; try done; do 2 eexists; (split; [done|]); eauto.
  repeat split; try done.
  exists wl, ev. split; [|done].
  destruct t as [|x t]; [done|]. done.
Qed.

(** Eviction requests are only ever issued while the deadline has not
    passed, and the engine patches nothing. *)
Lemma EvictRun_trace pod g maxBackoff backoff w t r w' :
  EvictRun K pod g maxBackoff backoff w t r w' →
  patches t = [] ∧ Forall (λ w, ctxErr K w = None) (evictionWorlds t).
Proof.
  induction 1 as [| | | | backoff w e w1 w2 t r w' Hctx Hev Hnf Hre Hsel Hrun [IHp IHe] |];
    cbn; try (split; [done|]; repeat constructor; done).
  match goal with
  | Hwait : WaitRun _ _ _ _ _ _ _ |- _ =>
      apply WaitRun_trace in Hwait as (_ & He & Hp & _)
  end.
  rewrite He, Hp. split; [done|]. by repeat constructor.
Qed.

Lemma evictOrDelete_trace fuel (a : DrainArgs) g pod results (st : St W) rs st' :
  evictOrDelete K fuel a g pod results st = Some (rs, st') →
  ∃ t, trace st' = trace st ++ t
       ∧ patches t = [] ∧ Forall (λ w, ctxErr K w = None) (evictionWorlds t).
Proof.
  rewrite evictOrDelete_eq.
  destruct (evictWithRetry _ _ _ _ _ _ _) as [[r st1]|] eqn:Hrun; [|done].
  apply evictWithRetry_run in Hrun as (t & Hrun & Ht).
  apply EvictRun_trace in Hrun as [Hp He].
  destruct r as [err|].
  2:{ intros ?; simplify_eq. by exists t. }
  destruct (force a).
  2:{ intros ?; simplify_eq. by exists t. }
  cbn zeta. intros Hres.
  exists (t ++ [(world st1, EvDeletePod (v1.Namespace pod) (v1.Name pod) g)]).
  rewrite patches_app, evictionWorlds_app, Hp. cbn [patches evictionWorlds app].
  rewrite app_nil_r. split; [|done].
  destruct (podsDelete K _ _ _ _).1; simplify_eq; cbn; by rewrite Ht, app_assoc.
Qed.

Lemma drainPods_trace fuel (a : DrainArgs) g items results (st : St W) rs st' :
  drainPods K fuel a g items results st = Some (rs, st') →
  ∃ t, trace st' = trace st ++ t
       ∧ patches t = [] ∧ Forall (λ w, ctxErr K w = None) (evictionWorlds t).
Proof.
  revert results st. induction items as [|pod items IH]; intros results st.
  { cbn. unfold ret. intros ?; simplify_eq. exists []. by rewrite app_nil_r. }
  cbn [drainPods]. unfold bind.
  destruct (drainPod K fuel a g pod results st) as [[rs1 st1]|] eqn:Hpod; [|done].
  assert (∃ t, trace st1 = trace st ++ t
               ∧ patches t = [] ∧ Forall (λ w, ctxErr K w = None) (evictionWorlds t))
    as (t1 & Ht1 & Hp1 & He1).
  { revert Hpod. unfold drainPod, ret.
    repeat (match goal with |- context [if ?b then _ else _] => destruct b end);
      try (intros ?; simplify_eq; exists []; by rewrite app_nil_r).
    apply evictOrDelete_trace. }
  intros (t2 & Ht2 & Hp2 & He2)%IH.
  exists (t1 ++ t2). rewrite Ht2, Ht1, app_assoc, patches_app, evictionWorlds_app, Hp1, Hp2.
  split; [done|]. split; [done|]. by apply Forall_app.
Qed.
End Traces.



(** A forced delete that fails: the pod's outcome carries both errors, and
    the next pod is processed all the same. *)
Example failed_forced_delete_is_recorded :
  let w := {| Sim.ready := true; Sim.cordonAnswer := None;
              Sim.listAnswer := inr [Sim.plainPod "default" "web"; Sim.plainPod "default" "db"];
              Sim.timeLeft := 5; Sim.evictAnswers := [Some Sim.forbidden];
              Sim.getAnswer := Some Sim.notFound;
              Sim.deleteAnswer := Some Sim.notFound |} in
  let a := {| node_name := "n1"; ignore_daemonsets := true; delete_local_data := false;
              force := true; grace_period := None; timeout_seconds := 600;
              retry_backoff_ms := 1000; max_backoff_ms := 10000 |} in
  fst <$> K8sDrain Sim.cluster 2 a (Sim.start w)
  = Some (report a
            [ mkResult (Sim.plainPod "default" "web") "evict_failed_delete_failed"
                       "evict: forbidden; delete: pods not found";
              mkResult (Sim.plainPod "default" "db") "evicted" "" ]).
Proof. reflexivity. Qed.

(** ** The shape of the report *)

Lemma summary_dom (a : DrainArgs) g rs : dom (summary a g rs) = reportFields.
Proof.
  unfold summary, reportFields. rewrite !dom_insert_L, dom_singleton_L. set_solver.
Qed.

Lemma encode_dom (r : podResult.t) :
  ∃ m, podResult.encode r = JObject m
       ∧ dom m = entryFields ∪ (if bool_decide (podResult.Error r = "") then ∅ else {[ "error" ]}).
Proof.
  unfold podResult.encode, entryFields. eexists. split; [done|].
  case_bool_decide;
    rewrite dom_union_L, !dom_insert_L, !dom_singleton_L, ?dom_empty_L; set_solver.
Qed.

(** C8.  A drain that completes with a result that is not an error returns
    the encoding of one record whose field names are exactly [node],
    [status], [ignore_daemonsets], [delete_local_data], [force],
    [grace_period], [timeout_seconds], [retry_backoff_ms], [max_backoff_ms]
    and [results]; [results] holds the outcomes, and each outcome is written
    with the fields [namespace], [name], [action], and [error] exactly when
    its error text is not empty. *)
Theorem report_field_names {W} (K : Cluster W) fuel (a : DrainArgs) (st : St W) res st' :
  K8sDrain K fuel a st = Some (res, st') →
  IsError res = false →
  ∃ m rs,
    Content res = [MarshalIndent (JObject m)]
    ∧ dom m = reportFields
    ∧ m !! "results" = Some (podResult.encodeSlice rs)
    ∧ Forall (λ r, ∃ mr, podResult.encode r = JObject mr
                         ∧ dom mr = entryFields
                                    ∪ (if bool_decide (podResult.Error r = "")
                                       then ∅ else {[ "error" ]})) rs.
Proof.
  intros [[Herr _]|(w1 & items & w2 & rs & _ & _ & _ & _ & _ & ->)]%K8sDrain_cases Hok.
  { congruence. }
  exists (summary a (gracePtrOf a) rs), rs. split; [done|].
  split; [apply summary_dom|]. split; [done|].
  apply Forall_forall. intros r _. apply encode_dom.
Qed.

Lemma report_field_names_witness :
  ∃ m rs,
    Content (report (Sim.args "n1")
               [mkResult (Sim.daemonPod "kube-system" "ds-1") "skipped (daemonset)" "";
                mkResult (Sim.mirrorPod "kube-system" "etcd-n1")
                         "skipped (mirror/static pod)" "";
                mkResult (Sim.scratchPod "default" "cache")
                         "skipped (local data; set delete_local_data=true or force=true)" "";
                mkResult (Sim.plainPod "default" "web") "evicted" ""])
    = [MarshalIndent (JObject m)]
    ∧ dom m = reportFields
    ∧ m !! "results" = Some (podResult.encodeSlice rs)
    ∧ Forall (λ r, ∃ mr, podResult.encode r = JObject mr
                         ∧ dom mr = entryFields
                                    ∪ (if bool_decide (podResult.Error r = "")
                                       then ∅ else {[ "error" ]})) rs.
Proof.
  refine (report_field_names Sim.cluster 2 (Sim.args "n1")
            (Sim.start (Sim.healthy Sim.mixed 5)) _ _ _ _);
    [vm_compute; reflexivity | reflexivity].
Defined.

(** ** The cordon patch *)

Lemma K8sDrain_patches {W} (K : Cluster W) fuel (a : DrainArgs) (st : St W) res st' :
  K8sDrain K fuel a st = Some (res, st') →
  ∃ t, trace st' = trace st ++ t
       ∧ Forall (λ p, p = (node_name a, StrategicMergePatchType, cordonPatch)) (patches t)
       ∧ Forall (λ w, ctxErr K w = None) (evictionWorlds t).
Proof.
  destruct (decide (node_name a = "")) as [Hn|Hn].
  { unfold K8sDrain. rewrite bool_decide_true by done. unfold ret. intros ?; simplify_eq.
    exists []. by rewrite app_nil_r. }
  destruct (clientReady K (world st)) eqn:Hr.
  2:{ unfold K8sDrain. rewrite bool_decide_false by done.
      unfold bind at 1. unfold getClient at 1, peek at 1. rewrite Hr.
      unfold ret. intros ?; simplify_eq. exists []. by rewrite app_nil_r. }
  destruct (nodesPatch K (node_name a) StrategicMergePatchType cordonPatch (world st))
    as [[e|] w1] eqn:Hp.
  { rewrite (K8sDrain_cordon_fails _ _ _ _ _ _ Hn Hr Hp). intros ?; simplify_eq.
    eexists. split; [done|]. cbn. split; by repeat constructor. }
  destruct (podsList K (listSelector a) w1) as [[e|items] w2] eqn:Hl.
  { rewrite (K8sDrain_list_fails _ _ _ _ _ _ _ Hn Hr Hp Hl). intros ?; simplify_eq.
    eexists. split; [cbn; by rewrite <- app_assoc|]. cbn. split; by repeat constructor. }
  rewrite (K8sDrain_listed _ _ _ _ _ _ _ Hn Hr Hp Hl).
  destruct (drainPods _ _ _ _ _ _ _) as [[rs st1]|] eqn:Hd; [|done].
  intros ?; simplify_eq.
  apply drainPods_trace in Hd as (t & Ht & Hpt & Het). cbn in Ht.
  eexists. split; [by rewrite Ht, <- app_assoc|].
  rewrite patches_app, evictionWorlds_app, Hpt. cbn. split; [|done].
  by repeat constructor.
Qed.

(** C9.  The patch of a cordon is the object with the single field [spec],
    itself an object with the single field [unschedulable], set to true.
    [K8sCordon] always returns, having sent nothing or this one patch for
    the node it was given, and every node patch a drain sends is this
    patch for the drained node: nothing else of the node is written. *)
Theorem cordon_patches_only_unschedulable {W} (K : Cluster W) :
  (∃ m spec,
     cordonPatch = JObject m
     ∧ dom m = {[ "spec" ]}
     ∧ m !! "spec" = Some (JObject spec)
     ∧ dom spec = {[ "unschedulable" ]}
     ∧ spec !! "unschedulable" = Some (JBool true))
  ∧ (∀ nodeName (st : St W),
       ∃ res st' t,
         K8sCordon K nodeName st = Some (res, st')
         ∧ trace st' = trace st ++ t
         ∧ (t = [] ∨ t = [(world st, EvPatchNode nodeName StrategicMergePatchType cordonPatch)]))
  ∧ (∀ fuel (a : DrainArgs) (st : St W) res st',
       K8sDrain K fuel a st = Some (res, st') →
       ∃ t, trace st' = trace st ++ t
            ∧ Forall (λ p, p = (node_name a, StrategicMergePatchType, cordonPatch))
                     (patches t)).
Proof.
  split; [|split].
  - unfold cordonPatch. do 2 eexists. split; [done|].
    rewrite !dom_singleton_L. by rewrite lookup_singleton_eq.
  - intros nodeName st. rewrite K8sCordon_eq.
    case_bool_decide.
    { do 2 eexists. exists []. rewrite app_nil_r. eauto. }
    destruct (clientReady K (world st)).
    2:{ do 2 eexists. exists []. rewrite app_nil_r. eauto. }
    cbn zeta. destruct (nodesPatch K _ _ _ _).1; do 3 eexists; eauto.
  - intros fuel a st res st' (t & Ht & Hp & _)%K8sDrain_patches. eauto.
Qed.

Lemma cordon_patches_only_unschedulable_witness :
  ∃ t, [(Sim.healthy Sim.mixed 5, patchEvent (Sim.args "n1"));
        (Sim.healthy Sim.mixed 5, EvListPods "spec.nodeName=n1");
        (Sim.healthy Sim.mixed 5, EvEvict "default" "web" None);
        (Sim.healthy Sim.mixed 5, EvGetPod "default" "web")]
       = [] ++ t
       ∧ Forall (λ p, p = ("n1", StrategicMergePatchType, cordonPatch)) (patches t).
Proof.
  refine (proj2 (proj2 (cordon_patches_only_unschedulable Sim.cluster)) 2 (Sim.args "n1")
            (Sim.start (Sim.healthy Sim.mixed 5)) _
            {| world := Sim.healthy Sim.mixed 5; trace := _ |} _).
  vm_compute. reflexivity.
Defined.

(** ** The eviction engine *)

(** C6.  Each iteration of the retry loop reads the deadline before it
    sends anything: started after the deadline, the loop returns the
    context's error at once and sends nothing; and in every run, of the
    engine alone or of a whole drain, every eviction request was issued in
    a world in which the deadline had not passed. *)
Theorem deadline_checked_before_each_attempt {W} (K : Cluster W) :
  (∀ fuel pod g backoff maxBackoff (st : St W) e,
     ctxErr K (world st) = Some e →
     evictLoop K (S fuel) pod g backoff maxBackoff st = Some (Some e, st)
     ∧ evictWithRetry K (S fuel) pod g backoff maxBackoff st = Some (Some e, st))
  ∧ (∀ fuel pod g initialBackoff maxBackoff (st : St W) r st',
       evictWithRetry K fuel pod g initialBackoff maxBackoff st = Some (r, st') →
       ∃ t, trace st' = trace st ++ t
            ∧ Forall (λ w, ctxErr K w = None) (evictionWorlds t))
  ∧ (∀ fuel (a : DrainArgs) (st : St W) res st',
       K8sDrain K fuel a st = Some (res, st') →
       ∃ t, trace st' = trace st ++ t
            ∧ Forall (λ w, ctxErr K w = None) (evictionWorlds t)).
Proof.
  split; [|split].
  - intros fuel pod g backoff maxBackoff st e Hctx.
    rewrite evictWithRetry_eq, !evictLoop_S. cbn zeta. by rewrite Hctx.
  - intros fuel pod g i m st r st' (t & Hrun & Ht)%evictWithRetry_run.
    apply EvictRun_trace in Hrun as [_ He]. eauto.
  - intros fuel a st res st' (t & Ht & _ & He)%K8sDrain_patches. eauto.
Qed.

(** The deadline has passed: a timeout at once, and an empty log. *)
Lemma deadline_checked_before_each_attempt_witness :
  evictLoop Sim.cluster 1 (Sim.plainPod "default" "web") None Second (10 * Second)
            (Sim.start (Sim.healthy [] 0))
  = Some (Some DeadlineExceeded, Sim.start (Sim.healthy [] 0)).
Proof.
  apply (proj1 (deadline_checked_before_each_attempt Sim.cluster) 0
           (Sim.plainPod "default" "web") None Second (10 * Second)%Z
           (Sim.start (Sim.healthy [] 0)) DeadlineExceeded).
  reflexivity.
Defined.

Section NotFound.
Context {W : Type} (K : Cluster W).

Lemma EvictRun_last_gone pod g maxBackoff backoff w0 t r w' :
  EvictRun K pod g maxBackoff backoff w0 t r w' →
  ∀ w e w1,
    last t = Some (w, EvEvict (v1.Namespace pod) (v1.Name pod) g) →
    evict K (v1.Namespace pod) (v1.Name pod) g w = (Some e, w1) →
    apierrors.IsNotFound e = true →
    r = None.
Proof.
  induction 1 as [| backoff w w1 t r w' Hctx Hev Hwait | |
                  | backoff w e w1 w2 t r w' Hctx Hev Hnf Hre Hsel Hrun IH
                  | backoff w e w1 Hctx Hev Hnf Hre];
    intros wl el wl1 Hlast Hans Hgone; try done.
  - apply WaitRun_trace in Hwait as (_ & _ & _ & wx & ev & Hl & Hev').
    rewrite last_cons, Hl in Hlast. simplify_eq. by destruct Hev'.
  - rewrite !last_cons in Hlast.
    destruct (last t) as [x|] eqn:Hl; [|done]. simplify_eq. by eapply IH.
  - cbn in Hlast. simplify_eq. congruence.
Qed.
End NotFound.

(** C5.  An eviction answered not-found is a success: the loop, at any
    backoff, returns nil right after that request; and whenever the last
    thing a pod's eviction step sent is an eviction request that was
    answered not-found, the pod's outcome is [evicted], with no error. *)
Theorem not_found_is_evicted {W} (K : Cluster W) (a : DrainArgs) g pod results :
  (∀ fuel backoff maxBackoff (st : St W) e w1,
     ctxErr K (world st) = None →
     evict K (v1.Namespace pod) (v1.Name pod) g (world st) = (Some e, w1) →
     apierrors.IsNotFound e = true →
     evictLoop K (S fuel) pod g backoff maxBackoff st
     = Some (None, logged st (EvEvict (v1.Namespace pod) (v1.Name pod) g) w1)
     ∧ evictOrDelete K (S fuel) a g pod results st
       = Some (results ++ [mkResult pod "evicted" ""],
               logged st (EvEvict (v1.Namespace pod) (v1.Name pod) g) w1))
  ∧ (∀ fuel (st : St W) rs st' t w e w1,
       evictOrDelete K fuel a g pod results st = Some (rs, st') →
       trace st' = trace st ++ t →
       last t = Some (w, EvEvict (v1.Namespace pod) (v1.Name pod) g) →
       evict K (v1.Namespace pod) (v1.Name pod) g w = (Some e, w1) →
       apierrors.IsNotFound e = true →
       rs = results ++ [mkResult pod "evicted" ""]).
Proof.
  split.
  - intros fuel backoff maxBackoff st e w1 Hctx Hev Hnf.
    assert (∀ b m, evictLoop K (S fuel) pod g b m st
                   = Some (None, logged st (EvEvict (v1.Namespace pod) (v1.Name pod) g) w1))
      as Hloop.
    { intros b m. rewrite evictLoop_S. cbn zeta. rewrite Hctx, Hev. cbn [fst snd].
      by rewrite Hnf. }
    split; [apply Hloop|].
    by rewrite evictOrDelete_eq, evictWithRetry_eq, Hloop.
  - intros fuel st rs st' t w e w1. rewrite evictOrDelete_eq.
    destruct (evictWithRetry _ _ _ _ _ _ _) as [[r st1]|] eqn:Hrun; [|done].
    apply evictWithRetry_run in Hrun as (t0 & Hrun & Ht0).
    destruct r as [err|]; [|by intros ?; simplify_eq].
    destruct (force a).
    + cbn zeta. intros Hres Ht Hlast. exfalso.
      assert (trace st' = trace st1
                          ++ [(world st1, EvDeletePod (v1.Namespace pod) (v1.Name pod) g)])
        as Ht'.
      { by destruct (podsDelete K _ _ _ _).1; simplify_eq. }
      rewrite Ht', Ht0, <- app_assoc in Ht. apply app_inv_head in Ht. subst t.
      by rewrite last_snoc in Hlast.
    + intros ? Ht Hlast Hans Hnf; simplify_eq.
      rewrite Ht0 in Ht. apply app_inv_head in Ht. subst t0.
      by pose proof (EvictRun_last_gone K _ _ _ _ _ _ _ _ Hrun _ _ _ Hlast Hans Hnf).
Qed.

(** The pod is already gone at the first attempt. *)
Lemma not_found_is_evicted_witness :
  let pod := Sim.plainPod "default" "web" in
  let w := {| Sim.ready := true; Sim.cordonAnswer := None; Sim.listAnswer := inr [pod];
              Sim.timeLeft := 5; Sim.evictAnswers := [Some Sim.notFound];
              Sim.getAnswer := None; Sim.deleteAnswer := None |} in
  let w1 := {| Sim.ready := true; Sim.cordonAnswer := None; Sim.listAnswer := inr [pod];
               Sim.timeLeft := 5; Sim.evictAnswers := [];
               Sim.getAnswer := None; Sim.deleteAnswer := None |} in
  evictOrDelete Sim.cluster 1 (Sim.args "n1") None pod [] (Sim.start w)
  = Some ([mkResult pod "evicted" ""],
          logged (Sim.start w) (EvEvict "default" "web" None) w1).
Proof.
  cbv zeta.
  refine (proj2 (proj1 (not_found_is_evicted Sim.cluster (Sim.args "n1") None
                          (Sim.plainPod "default" "web") [])
                   0 Second Second (Sim.start _) Sim.notFound _ _ _ _));
    reflexivity.
Defined.

(** ** Backoff *)

Section Backoff.
Context {W : Type} (K : Cluster W).
Local Open Scope Z_scope.

Lemma wrap64_small z : - 2 ^ 63 ≤ z < 2 ^ 63 → wrap64 z = z.
Proof. intros Hz. unfold wrap64. rewrite Z.mod_small by lia. lia. Qed.

(** Below 2^62 ns doubling does not overflow. *)
Lemma nextBackoff_small backoff maxBackoff :
  0 < backoff < 2 ^ 62 → nextBackoff backoff maxBackoff = Z.min (2 * backoff) maxBackoff.
Proof.
  intros Hb. unfold nextBackoff. rewrite wrap64_small by lia.
  destruct (Z.gtb_spec (backoff * 2) maxBackoff); lia.
Qed.

Lemma backoffAt_0 i m : i ≤ m → backoffAt i m 0 = i.
Proof. intros Him. unfold backoffAt. cbn. lia. Qed.

Lemma backoffAt_S i m k :
  0 < i → 0 < m → backoffAt i m (S k) = Z.min (2 * backoffAt i m k) m.
Proof.
  intros Hi Hm. unfold backoffAt.
  rewrite Nat2Z.inj_succ, Z.pow_succ_r by lia.
  assert (1 ≤ 2 ^ Z.of_nat k) by (apply (Z.pow_le_mono_r 2 0); lia).
  nia.
Qed.

Lemma backoffAt_bounds i m k : 0 < i → 0 < m → 0 < backoffAt i m k ≤ m.
Proof.
  intros Hi Hm. unfold backoffAt.
  assert (0 < 2 ^ Z.of_nat k) by (apply Z.pow_pos_nonneg; lia).
  nia.
Qed.

Lemma backoffAt_mono i m k : 0 < i → 0 < m → backoffAt i m k ≤ backoffAt i m (S k).
Proof.
  intros Hi Hm. rewrite backoffAt_S by done.
  pose proof (backoffAt_bounds i m k Hi Hm). lia.
Qed.

Lemma backoffAt_shift i m k :
  0 < i → i ≤ m → backoffAt (Z.min (2 * i) m) m k = backoffAt i m (S k).
Proof.
  intros Hi Him. unfold backoffAt.
  rewrite Nat2Z.inj_succ, Z.pow_succ_r by lia.
  assert (1 ≤ 2 ^ Z.of_nat k) by (apply (Z.pow_le_mono_r 2 0); lia).
  nia.
Qed.

(** Without overflow, and starting at or below the ceiling, the sleeps of a
    run are the first terms of the doubling sequence capped at the ceiling. *)
Lemma EvictRun_sleeps pod g maxBackoff backoff w t r w' :
  EvictRun K pod g maxBackoff backoff w t r w' →
  0 < backoff → backoff ≤ maxBackoff → maxBackoff < 2 ^ 62 →
  ∃ n, sleeps t = backoffAt backoff maxBackoff <$> seq 0 n.
Proof.
  induction 1 as [| backoff w w1 t r w' Hctx Hev Hwait | |
                  | backoff w e w1 w2 t r w' Hctx Hev Hnf Hre Hsel Hrun IH
                  | backoff w e w1 Hctx Hev Hnf Hre];
    intros Hpos Hle Hmax; cbn [sleeps].
  - by exists 0%nat.
  - apply WaitRun_trace in Hwait as (-> & _). by exists 0%nat.
  - by exists 0%nat.
  - exists 1%nat. cbn. by rewrite backoffAt_0.
  - rewrite nextBackoff_small in IH by lia.
    destruct IH as (n & ->); [lia..|].
    exists (S n). cbn [seq fmap list_fmap]. rewrite backoffAt_0 by done. f_equal.
    rewrite <- fmap_S_seq, <- list_fmap_compose.
    apply list_fmap_ext. intros _ k _. cbn. by apply backoffAt_shift.
  - by exists 0%nat.
Qed.

(** Without overflow no sleep is zero or negative. *)
Lemma EvictRun_sleeps_positive pod g maxBackoff backoff w t r w' :
  EvictRun K pod g maxBackoff backoff w t r w' →
  0 < backoff < 2 ^ 62 → 0 < maxBackoff < 2 ^ 62 →
  Forall (λ d, 0 < d) (sleeps t).
Proof.
  induction 1 as [| backoff w w1 t r w' Hctx Hev Hwait | |
                  | backoff w e w1 w2 t r w' Hctx Hev Hnf Hre Hsel Hrun IH
                  | backoff w e w1 Hctx Hev Hnf Hre];
    intros Hb Hm; cbn [sleeps]; try by constructor.
  - apply WaitRun_trace in Hwait as (-> & _). constructor.
  - repeat constructor. lia.
  - constructor; [lia|]. apply IH; [|done].
    rewrite nextBackoff_small by done. lia.
Qed.
End Backoff.

(** C4, as stated, fails: with an initial backoff of 20 s above a ceiling of
    10 s, both positive, the engine first sleeps 20 s, which is more than the
    ceiling, and then 10 s, which is less than the sleep before. *)
Lemma initial_backoff_above_ceiling :
  Sim.slept (evictWithRetry Sim.cluster 3 (Sim.plainPod "default" "web") None
               (ms 20000) (ms 10000) (Sim.start (Sim.congested 2 10)))
  = Some [ms 20000; ms 10000]
  ∧ (0 < ms 20000)%Z ∧ (0 < ms 10000)%Z ∧ (ms 10000 < ms 20000)%Z.
Proof. repeat split; reflexivity. Qed.

(** C4, amended.  When the initial backoff is positive and at most the
    ceiling, and the ceiling is below 2^62 ns so that doubling cannot
    overflow, the sleeps of every run of the engine are the first terms of
    one sequence: it starts at the initial backoff, each term is the double
    of the one before capped at the ceiling, it never decreases and never
    exceeds the ceiling.  With 1000 ms and 10000 ms the sleeps of six
    refused attempts are 1000, 2000, 4000, 8000, 10000, 10000 ms. *)
Theorem backoff_sequence {W} (K : Cluster W) fuel pod g i m (st : St W) r st' :
  (0 < i)%Z → (i ≤ m)%Z → (m < 2 ^ 62)%Z →
  evictWithRetry K fuel pod g i m st = Some (r, st') →
  (∃ n, sleeps (trace st') = sleeps (trace st) ++ (backoffAt i m <$> seq 0 n))
  ∧ backoffAt i m 0 = i
  ∧ (∀ k, backoffAt i m (S k) = Z.min (2 * backoffAt i m k) m)
  ∧ (∀ k, (backoffAt i m k ≤ backoffAt i m (S k))%Z)
  ∧ (∀ k, (0 < backoffAt i m k ≤ m)%Z)
  ∧ Sim.slept (evictWithRetry Sim.cluster 7 (Sim.plainPod "default" "web") None
                 (ms 1000) (ms 10000) (Sim.start (Sim.congested 6 10)))
    = Some (ms <$> [1000; 2000; 4000; 8000; 10000; 10000]%Z).
Proof.
  intros Hi Him Hm (t & Hrun & Ht)%evictWithRetry_run.
  assert (effectiveInitial i = i) as Hei.
  { unfold effectiveInitial. destruct (Z.leb_spec i 0); [lia|done]. }
  assert (effectiveMax m = m) as Hem.
  { unfold effectiveMax. destruct (Z.leb_spec m 0); [lia|done]. }
  rewrite Hei, Hem in Hrun.
  split; [|split; [|split; [|split; [|split]]]].
  - destruct (EvictRun_sleeps K _ _ _ _ _ _ _ _ Hrun Hi Him Hm) as (n & Hn).
    exists n. by rewrite Ht, sleeps_app, Hn.
  - by apply backoffAt_0.
  - intros k. apply backoffAt_S; lia.
  - intros k. apply backoffAt_mono; lia.
  - intros k. apply backoffAt_bounds; lia.
  - reflexivity.
Qed.

Lemma backoff_sequence_witness :
  match evictWithRetry Sim.cluster 7 (Sim.plainPod "default" "web") None
          (ms 1000) (ms 10000) (Sim.start (Sim.congested 6 10)) with
  | Some (_, st') =>
      ∃ n, sleeps (trace st') = [] ++ (backoffAt (ms 1000) (ms 10000) <$> seq 0 n)
  | None => False
  end.
Proof.
  destruct (evictWithRetry Sim.cluster 7 (Sim.plainPod "default" "web") None
              (ms 1000) (ms 10000) (Sim.start (Sim.congested 6 10)))
    as [[r st']|] eqn:Hrun.
  - apply (proj1 (backoff_sequence Sim.cluster 7 (Sim.plainPod "default" "web") None
                    (ms 1000) (ms 10000) (Sim.start (Sim.congested 6 10)) r st'
                    eq_refl ltac:(discriminate) eq_refl Hrun)).
  - vm_compute in Hrun. discriminate.
Defined.

(** C10, as stated, fails in its conclusion: with positive backoffs so
    large that doubling overflows (an initial backoff of 4611686018428 ms
    under a ceiling of 9223372036854 ms), the second sleep is negative. *)
Lemma doubling_overflow_sleeps_negative :
  Sim.slept (evictWithRetry Sim.cluster 3 (Sim.plainPod "default" "web") None
               (ms 4611686018428) (ms 9223372036854) (Sim.start (Sim.congested 2 10)))
  = Some [4611686018428000000; -9223372036853551616]%Z
  ∧ (0 < ms 4611686018428)%Z ∧ (0 < ms 9223372036854)%Z.
Proof. repeat split; reflexivity. Qed.

(** C10, amended.  Before its loop starts the engine replaces an initial
    backoff that is zero or negative by one second and a ceiling that is
    zero or negative by ten seconds, and keeps positive ones.  When both
    are below 2^62 ns, so that doubling cannot overflow, no sleep of any run
    is zero or negative. *)
Theorem backoff_defaults {W} (K : Cluster W) :
  (∀ fuel pod g i m,
     evictWithRetry K fuel pod g i m
     = evictLoop K fuel pod g (effectiveInitial i) (effectiveMax m))
  ∧ (∀ i, (i ≤ 0)%Z → effectiveInitial i = Second)
  ∧ (∀ i, (0 < i)%Z → effectiveInitial i = i)
  ∧ (∀ m, (m ≤ 0)%Z → effectiveMax m = (10 * Second)%Z)
  ∧ (∀ m, (0 < m)%Z → effectiveMax m = m)
  ∧ (∀ fuel pod g i m (st : St W) r st',
       (i < 2 ^ 62)%Z → (m < 2 ^ 62)%Z →
       evictWithRetry K fuel pod g i m st = Some (r, st') →
       ∃ l, sleeps (trace st') = sleeps (trace st) ++ l ∧ Forall (λ d, (0 < d)%Z) l).
Proof.
  split; [|split; [|split; [|split; [|split]]]].
  - reflexivity.
  - intros i Hi. unfold effectiveInitial. destruct (Z.leb_spec i 0); [done|lia].
  - intros i Hi. unfold effectiveInitial. destruct (Z.leb_spec i 0); [lia|done].
  - intros m Hm. unfold effectiveMax. destruct (Z.leb_spec m 0); [done|lia].
  - intros m Hm. unfold effectiveMax. destruct (Z.leb_spec m 0); [lia|done].
  - intros fuel pod g i m st r st' Hi Hm (t & Hrun & Ht)%evictWithRetry_run.
    exists (sleeps t). rewrite Ht, sleeps_app. split; [done|].
    apply (EvictRun_sleeps_positive K _ _ _ _ _ _ _ _ Hrun).
    + unfold effectiveInitial, Second. destruct (Z.leb_spec i 0); lia.
    + unfold effectiveMax, Second. destruct (Z.leb_spec m 0); lia.
Qed.

(** No backoff given: the engine sleeps one second, then two. *)
Lemma backoff_defaults_witness :
  match evictWithRetry Sim.cluster 3 (Sim.plainPod "default" "web") None 0 0
          (Sim.start (Sim.congested 2 10)) with
  | Some (_, st') => ∃ l, sleeps (trace st') = [] ++ l ∧ Forall (λ d, (0 < d)%Z) l
  | None => False
  end.
Proof.
  destruct (evictWithRetry Sim.cluster 3 (Sim.plainPod "default" "web") None 0 0
              (Sim.start (Sim.congested 2 10)))
    as [[r st']|] eqn:Hrun.
  - apply (proj2 (proj2 (proj2 (proj2 (proj2 (backoff_defaults Sim.cluster)))))
             3 (Sim.plainPod "default" "web") None 0%Z 0%Z
             (Sim.start (Sim.congested 2 10)) r st' eq_refl eq_refl Hrun).
  - vm_compute in Hrun. discriminate.
Defined.

(** ** End-to-end runs *)

(** A node with a DaemonSet pod, a static pod and a plain pod, DaemonSet
    pods ignored: two skips and one eviction, in listing order. *)
Example drain_scenario_mixed_node :
  let ds := Sim.daemonPod "kube-system" "ds-1" in
  let mirror := Sim.mirrorPod "kube-system" "etcd-n1" in
  let web := Sim.plainPod "default" "web" in
  fst <$> K8sDrain Sim.cluster 1 (Sim.args "n1")
            (Sim.start (Sim.healthy [ds; mirror; web] 5))
  = Some (report (Sim.args "n1")
            [ mkResult ds "skipped (daemonset)" "";
              mkResult mirror "skipped (mirror/static pod)" "";
              mkResult web "evicted" "" ]).
Proof. reflexivity. Qed.

(** Every eviction is refused until the deadline: the pod's outcome is
    [evict_failed] with the context's error, and the call still returns its
    report. *)
Example drain_scenario_congestion :
  let web := Sim.plainPod "default" "web" in
  let w := {| Sim.ready := true; Sim.cordonAnswer := None; Sim.listAnswer := inr [web];
              Sim.timeLeft := 1; Sim.evictAnswers := replicate 5 (Some Sim.tooMany);
              Sim.getAnswer := None; Sim.deleteAnswer := None |} in
  fst <$> K8sDrain Sim.cluster 3 (Sim.args "n1") (Sim.start w)
  = Some (report (Sim.args "n1")
            [ mkResult web "evict_failed" "context deadline exceeded" ]).
Proof. reflexivity. Qed.

(** * Further properties of the drain *)

(** ** The requests sent on behalf of a pod *)

Section Events.
Context {W : Type} (K : Cluster W).

Lemma WaitRun_events ns name w t r w' :
  WaitRun K ns name w t r w' →
  Forall (λ x : W * Event, x.2 = EvGetPod ns name ∨ x.2 = EvTick) t.
Proof.
  induction 1; repeat first [apply Forall_nil_2 | apply Forall_cons_2]; cbn; eauto.
Qed.

Lemma EvictRun_events pod g maxBackoff backoff w t r w' :
  EvictRun K pod g maxBackoff backoff w t r w' →
  Forall (λ x : W * Event, podEvent pod g false x.2) t.
Proof.
  induction 1 as [| backoff w w1 t r w' Hctx Hev Hwait | |
                  | backoff w e w1 w2 t r w' Hctx Hev Hnf Hre Hsel Hrun IH
                  | backoff w e w1 Hctx Hev Hnf Hre];
    repeat constructor; cbn; try done.
  apply WaitRun_events in Hwait. eapply Forall_impl; [exact Hwait|].
  intros [wx ev] [->| ->]; cbn; done.
Qed.

Lemma podEvent_allow pod g ev : podEvent pod g false ev → ∀ b, podEvent pod g b ev.
Proof. destruct ev; cbn; try done. by intros [? _]. Qed.

Lemma evictOrDelete_events fuel (a : DrainArgs) g pod results (st : St W) rs st' :
  evictOrDelete K fuel a g pod results st = Some (rs, st') →
  ∃ t, trace st' = trace st ++ t
       ∧ Forall (λ x : W * Event, podEvent pod g (force a) x.2) t.
Proof.
  rewrite evictOrDelete_eq.
  destruct (evictWithRetry _ _ _ _ _ _ _) as [[r st1]|] eqn:Hrun; [|done].
  apply evictWithRetry_run in Hrun as (t & Hrun & Ht).
  apply EvictRun_events in Hrun.
  assert (Forall (λ x : W * Event, podEvent pod g (force a) x.2) t) as Hall.
  { eapply Forall_impl; [exact Hrun|]. intros x Hx. by apply podEvent_allow. }
  destruct r as [err|]; [|by intros ?; simplify_eq; exists t].
  destruct (force a) eqn:Hforce; [|by intros ?; simplify_eq; exists t].
  cbn zeta. intros Hres.
  exists (t ++ [(world st1, EvDeletePod (v1.Namespace pod) (v1.Name pod) g)]). split.
  - destruct (podsDelete K _ _ _ _).1; simplify_eq; cbn; by rewrite Ht, app_assoc.
  - apply Forall_app. split; [done|]. by repeat constructor.
Qed.

Lemma routed_code (a : DrainArgs) pod :
  routed a pod ↔
  isCompletedPod pod = false ∧ isMirrorPod pod = false
  ∧ ignore_daemonsets a && isOwnedBy pod "DaemonSet" = false
  ∧ negb (delete_local_data a) && hasLocalData pod && negb (force a) = false.
Proof.
  unfold routed. rewrite classify_spec_code.
  destruct (isCompletedPod pod), (isMirrorPod pod),
    (ignore_daemonsets a && isOwnedBy pod "DaemonSet"),
    (negb (delete_local_data a) && hasLocalData pod && negb (force a));
    split; try done; intros (? & ? & ? & ?); done.
Qed.

Lemma drainPod_events fuel (a : DrainArgs) g pod results (st : St W) rs st' :
  drainPod K fuel a g pod results st = Some (rs, st') →
  ∃ t, trace st' = trace st ++ t
       ∧ (t = [] ∨ routed a pod)
       ∧ Forall (λ x : W * Event, podEvent pod g (force a) x.2) t.
Proof.
  unfold drainPod, ret.
  destruct (isCompletedPod pod) eqn:Hc;
    [intros ?; simplify_eq; exists []; rewrite app_nil_r; eauto|].
  destruct (isMirrorPod pod) eqn:Hm;
    [intros ?; simplify_eq; exists []; rewrite app_nil_r; eauto|].
  destruct (ignore_daemonsets a && isOwnedBy pod "DaemonSet") eqn:Hd;
    [intros ?; simplify_eq; exists []; rewrite app_nil_r; eauto|].
  destruct (negb (delete_local_data a) && hasLocalData pod && negb (force a)) eqn:Hl;
    [intros ?; simplify_eq; exists []; rewrite app_nil_r; eauto|].
  intros (t & Ht & Hall)%evictOrDelete_events.
  exists t. split; [done|]. split; [|done]. right. by apply routed_code.
Qed.

Lemma drainPods_events fuel (a : DrainArgs) g items results (st : St W) rs st' :
  drainPods K fuel a g items results st = Some (rs, st') →
  ∃ t, trace st' = trace st ++ t
       ∧ Forall (λ x : W * Event,
                   ∃ pod, pod ∈ items ∧ routed a pod ∧ podEvent pod g (force a) x.2) t.
Proof.
  revert results st. induction items as [|pod items IH]; intros results st.
  { cbn. unfold ret. intros ?; simplify_eq. exists []. by rewrite app_nil_r. }
  cbn [drainPods]. unfold bind.
  destruct (drainPod K fuel a g pod results st) as [[rs1 st1]|] eqn:Hpod; [|done].
  apply drainPod_events in Hpod as (t1 & Ht1 & Hr1 & Hall1).
  intros (t2 & Ht2 & Hall2)%IH.
  exists (t1 ++ t2). split; [by rewrite Ht2, Ht1, app_assoc|].
  apply Forall_app. split.
  - destruct Hr1 as [->|Hr1]; [constructor|].
    eapply Forall_impl; [exact Hall1|]. intros x Hx. exists pod.
    split; [apply list_elem_of_here|done].
  - eapply Forall_impl; [exact Hall2|]. intros x (p & Hin & Hr & Hx). exists p.
    split; [by apply list_elem_of_further|done].
Qed.

(** The log of a drain: the patch, the listing, then requests for listed
    pods the classifier sent to eviction. *)
Lemma K8sDrain_events fuel (a : DrainArgs) (st : St W) res st' :
  K8sDrain K fuel a st = Some (res, st') →
  ∃ t, trace st' = trace st ++ t
       ∧ (t = []
          ∨ (∃ w1, t = [(world st, patchEvent a)]
                   ∧ (nodesPatch K (node_name a) StrategicMergePatchType cordonPatch
                        (world st)).1 ≠ None
                   ∧ w1 = (nodesPatch K (node_name a) StrategicMergePatchType cordonPatch
                             (world st)).2)
          ∨ ∃ w1 w2 tpods,
              t = (world st, patchEvent a) :: (w1, EvListPods (listSelector a)) :: tpods
              ∧ nodesPatch K (node_name a) StrategicMergePatchType cordonPatch (world st)
                = (None, w1)
              ∧ w2 = (podsList K (listSelector a) w1).2
              ∧ match (podsList K (listSelector a) w1).1 with
                | inl _ => tpods = []
                | inr items =>
                    Forall (λ x : W * Event,
                              ∃ pod, pod ∈ items ∧ routed a pod
                                     ∧ podEvent pod (gracePtrOf a) (force a) x.2) tpods
                end).
Proof.
  destruct (decide (node_name a = "")) as [Hn|Hn].
  { unfold K8sDrain. rewrite bool_decide_true by done. unfold ret. intros ?; simplify_eq.
    exists []. rewrite app_nil_r. eauto. }
  destruct (clientReady K (world st)) eqn:Hr.
  2:{ unfold K8sDrain. rewrite bool_decide_false by done.
      unfold bind at 1. unfold getClient at 1, peek at 1. rewrite Hr.
      unfold ret. intros ?; simplify_eq. exists []. rewrite app_nil_r. eauto. }
  destruct (nodesPatch K (node_name a) StrategicMergePatchType cordonPatch (world st))
    as [[e|] w1] eqn:Hp.
  { rewrite (K8sDrain_cordon_fails _ _ _ _ _ _ Hn Hr Hp). intros ?; simplify_eq.
    eexists. split; [done|]. right. left. by exists w1. }
  destruct (podsList K (listSelector a) w1) as [[e|items] w2] eqn:Hl.
  { rewrite (K8sDrain_list_fails _ _ _ _ _ _ _ Hn Hr Hp Hl). intros ?; simplify_eq.
    eexists. split; [cbn; by rewrite <- app_assoc|]. right. right.
    exists w1, w2, []. by rewrite Hl. }
  rewrite (K8sDrain_listed _ _ _ _ _ _ _ Hn Hr Hp Hl).
  destruct (drainPods _ _ _ _ _ _ _) as [[rs st1]|] eqn:Hd; [|done].
  intros ?; simplify_eq.
  apply drainPods_events in Hd as (t & Ht & Hall). cbn in Ht.
  eexists. split; [by rewrite Ht, <- app_assoc|]. right. right.
  exists w1, w2, t. by rewrite Hl.
Qed.
End Events.

(** ** What a drain sends, and in which order *)

(** X1.  A drain sends the cordon patch before anything else, lists the
    pods only after the patch was accepted, and sends every request about a
    pod after the listing: its log is empty, or the patch alone, or the
    patch, one listing, and then only pod requests, sleeps and ticks. *)
Theorem drain_cordons_lists_then_evicts {W} (K : Cluster W) fuel (a : DrainArgs)
        (st : St W) res st' :
  K8sDrain K fuel a st = Some (res, st') →
  ∃ t, trace st' = trace st ++ t
       ∧ (t = []
          ∨ t = [(world st, patchEvent a)]
          ∨ ∃ w1 tpods,
              t = (world st, patchEvent a) :: (w1, EvListPods (listSelector a)) :: tpods
              ∧ nodesPatch K (node_name a) StrategicMergePatchType cordonPatch (world st)
                = (None, w1)
              ∧ Forall (λ x : W * Event, afterListing x.2) tpods).
Proof.
  intros (t & Ht & Hcases)%K8sDrain_events. exists t. split; [done|].
  destruct Hcases as [->|[(w1 & -> & _)|(w1 & w2 & tpods & -> & Hp & _ & Hpods)]]; eauto.
  right. right. exists w1, tpods. split; [done|]. split; [done|].
  destruct (podsList K (listSelector a) w1).1 as [e|items]; [by subst|].
  eapply Forall_impl; [exact Hpods|].
  intros [w ev] (pod & _ & _ & Hev). by destruct ev.
Qed.

Lemma drain_cordons_lists_then_evicts_witness :
  match K8sDrain Sim.cluster 2 (Sim.args "n1") (Sim.start (Sim.healthy Sim.mixed 5)) with
  | Some (_, st') =>
      ∃ t, trace st' = [] ++ t
           ∧ (t = []
              ∨ t = [(Sim.healthy Sim.mixed 5, patchEvent (Sim.args "n1"))]
              ∨ ∃ w1 tpods,
                  t = (Sim.healthy Sim.mixed 5, patchEvent (Sim.args "n1"))
                      :: (w1, EvListPods (listSelector (Sim.args "n1"))) :: tpods
                  ∧ nodesPatch Sim.cluster "n1" StrategicMergePatchType cordonPatch
                      (Sim.healthy Sim.mixed 5) = (None, w1)
                  ∧ Forall (λ x : Sim.World * Event, afterListing x.2) tpods)
  | None => False
  end.
Proof.
  destruct (K8sDrain Sim.cluster 2 (Sim.args "n1") (Sim.start (Sim.healthy Sim.mixed 5)))
    as [[res st']|] eqn:Hrun.
  - exact (drain_cordons_lists_then_evicts Sim.cluster 2 (Sim.args "n1")
             (Sim.start (Sim.healthy Sim.mixed 5)) res st' Hrun).
  - vm_compute in Hrun. discriminate.
Defined.

(** X2.  After the listing, a drain sends requests only about listed pods
    that the classifier sends to eviction: a completed pod, a mirror pod, an
    ignored DaemonSet pod and a pod protected for its local data are never
    evicted, polled or deleted, nor is any pod that was not listed. *)
Theorem drain_touches_only_routed_pods {W} (K : Cluster W) fuel (a : DrainArgs)
        (st : St W) w1 items w2 res st' :
  node_name a ≠ "" →
  clientReady K (world st) = true →
  nodesPatch K (node_name a) StrategicMergePatchType cordonPatch (world st) = (None, w1) →
  podsList K (listSelector a) w1 = (inr items, w2) →
  K8sDrain K fuel a st = Some (res, st') →
  ∃ t, trace st' = trace (listed K a st w1 w2) ++ t
       ∧ ∀ x k, x ∈ t → eventPod x.2 = Some k →
                ∃ pod, pod ∈ items ∧ podKey pod = k ∧ routed a pod.
Proof.
  intros Hn Hr Hp Hl. rewrite (K8sDrain_listed _ _ _ _ _ _ _ Hn Hr Hp Hl).
  destruct (drainPods _ _ _ _ _ _ _) as [[rs st1]|] eqn:Hd; [|done].
  intros ?; simplify_eq.
  apply drainPods_events in Hd as (t & Ht & Hall).
  exists t. split; [done|]. intros [w ev] k Hin Hk.
  rewrite Forall_forall in Hall. destruct (Hall _ Hin) as (pod & Hpod & Hrouted & Hev).
  exists pod. split; [done|]. split; [|done].
  destruct ev; cbn in *; simplify_eq; unfold podKey; intuition congruence.
Qed.

Lemma drain_touches_only_routed_pods_witness :
  match K8sDrain Sim.cluster 2 (Sim.args "n1") (Sim.start (Sim.healthy Sim.mixed 5)) with
  | Some (_, st') =>
      ∃ t, trace st' = trace (listed Sim.cluster (Sim.args "n1")
                                (Sim.start (Sim.healthy Sim.mixed 5))
                                (Sim.healthy Sim.mixed 5) (Sim.healthy Sim.mixed 5)) ++ t
           ∧ ∀ x k, x ∈ t → eventPod x.2 = Some k →
                    ∃ pod, pod ∈ Sim.mixed ∧ podKey pod = k ∧ routed (Sim.args "n1") pod
  | None => False
  end.
Proof.
  destruct (K8sDrain Sim.cluster 2 (Sim.args "n1") (Sim.start (Sim.healthy Sim.mixed 5)))
    as [[res st']|] eqn:Hrun.
  - exact (drain_touches_only_routed_pods Sim.cluster 2 (Sim.args "n1")
             (Sim.start (Sim.healthy Sim.mixed 5)) (Sim.healthy Sim.mixed 5) Sim.mixed
             (Sim.healthy Sim.mixed 5) res st'
             ltac:(discriminate) eq_refl eq_refl eq_refl Hrun).
  - vm_compute in Hrun. discriminate.
Defined.

(** X3.  Every eviction and every delete of a drain carries the same grace
    period: none when [grace_period] is absent or negative, and the given
    value, unchanged, when it is zero or more.  A negative grace period is
    never sent. *)
Theorem drain_grace_period {W} (K : Cluster W) fuel (a : DrainArgs) (st : St W) res st' :
  K8sDrain K fuel a st = Some (res, st') →
  ∃ t, trace st' = trace st ++ t
       ∧ ∀ x g, x ∈ t → eventGrace x.2 = Some g →
                g = gracePtrOf a
                ∧ match g with
                  | Some z => (0 ≤ z)%Z ∧ grace_period a = Some z
                  | None => grace_period a = None
                            ∨ ∃ z, grace_period a = Some z ∧ (z < 0)%Z
                  end.
Proof.
  intros (t & Ht & Hcases)%K8sDrain_events. exists t. split; [done|].
  assert (match gracePtrOf a with
          | Some z => (0 ≤ z)%Z ∧ grace_period a = Some z
          | None => grace_period a = None ∨ ∃ z, grace_period a = Some z ∧ (z < 0)%Z
          end) as Hg.
  { unfold gracePtrOf. destruct (grace_period a) as [gp|]; [|by left].
    destruct (Z.geb_spec gp 0); [split; [lia|done]|]. right. exists gp. split; [done|lia]. }
  intros [w ev] g Hin Hev.
  destruct Hcases as [->|[(w1 & -> & _)|(w1 & w2 & tpods & -> & _ & _ & Hpods)]].
  - by apply elem_of_nil in Hin.
  - apply list_elem_of_singleton in Hin. by simplify_eq.
  - apply elem_of_cons in Hin as [?|Hin]; [by simplify_eq|].
    apply elem_of_cons in Hin as [?|Hin]; [by simplify_eq|].
    destruct (podsList K (listSelector a) w1).1 as [e|items];
      [subst; by apply elem_of_nil in Hin|].
    rewrite Forall_forall in Hpods. destruct (Hpods _ Hin) as (pod & _ & _ & Hpe).
    assert (g = gracePtrOf a) as ->; [|done].
    destruct ev; cbn in *; simplify_eq; intuition congruence.
Qed.

Lemma drain_grace_period_witness :
  match K8sDrain Sim.cluster 2 (Scenario.forced "n1")
          (Sim.start (Scenario.stubborn [Sim.plainPod "default" "web"] 5)) with
  | Some (_, st') =>
      ∃ t, trace st' = [] ++ t
           ∧ ∀ x g, x ∈ t → eventGrace x.2 = Some g →
                    g = gracePtrOf (Scenario.forced "n1")
                    ∧ match g with
                      | Some z => (0 ≤ z)%Z ∧ grace_period (Scenario.forced "n1") = Some z
                      | None => grace_period (Scenario.forced "n1") = None
                                ∨ ∃ z, grace_period (Scenario.forced "n1") = Some z
                                       ∧ (z < 0)%Z
                      end
  | None => False
  end.
Proof.
  destruct (K8sDrain Sim.cluster 2 (Scenario.forced "n1")
              (Sim.start (Scenario.stubborn [Sim.plainPod "default" "web"] 5)))
    as [[res st']|] eqn:Hrun.
  - exact (drain_grace_period Sim.cluster 2 (Scenario.forced "n1")
             (Sim.start (Scenario.stubborn [Sim.plainPod "default" "web"] 5))
             res st' Hrun).
  - vm_compute in Hrun. discriminate.
Defined.

(** The forced drain of one pod whose eviction is forbidden: patch, listing,
    one eviction and one delete, both with the grace period of 30 s. *)
Example forced_drain_log :
  Scenario.events (K8sDrain Sim.cluster 2 (Scenario.forced "n1")
                     (Sim.start (Scenario.stubborn [Sim.plainPod "default" "web"] 5)))
  = Some [ patchEvent (Scenario.forced "n1"); EvListPods "spec.nodeName=n1";
           EvEvict "default" "web" (Some 30%Z); EvDeletePod "default" "web" (Some 30%Z) ].
Proof. reflexivity. Qed.

(** ** Forced deletes *)

Section Deletes.
Context {W : Type} (K : Cluster W).

Lemma deletes_app (t1 t2 : list (W * Event)) : deletes (t1 ++ t2) = deletes t1 ++ deletes t2.
Proof.
  induction t1 as [|[w ev] t1 IH]; [done|]. destruct ev; cbn; by rewrite ?IH.
Qed.

Lemma deletes_none pod g (t : list (W * Event)) :
  Forall (λ x : W * Event, podEvent pod g false x.2) t → deletes t = [].
Proof.
  induction 1 as [|[w ev] t Hev _ IH]; [done|].
  destruct ev; cbn in *; try done. by destruct Hev.
Qed.

(** A pod is deleted at most once, after its eviction failed, and only
    under [force]. *)
Lemma evictOrDelete_deletes fuel (a : DrainArgs) g pod results (st : St W) rs st' :
  evictOrDelete K fuel a g pod results st = Some (rs, st') →
  ∃ t, trace st' = trace st ++ t
       ∧ (deletes t = [] ∨ (force a = true ∧ deletes t = [podKey pod])).
Proof.
  rewrite evictOrDelete_eq.
  destruct (evictWithRetry _ _ _ _ _ _ _) as [[r st1]|] eqn:Hrun; [|done].
  apply evictWithRetry_run in Hrun as (t & Hrun & Ht).
  apply EvictRun_events, deletes_none in Hrun.
  destruct r as [err|]; [|intros ?; simplify_eq; exists t; eauto].
  destruct (force a) eqn:Hforce; [|intros ?; simplify_eq; exists t; eauto].
  cbn zeta. intros Hres.
  exists (t ++ [(world st1, EvDeletePod (v1.Namespace pod) (v1.Name pod) g)]). split.
  - destruct (podsDelete K _ _ _ _).1; simplify_eq; cbn; by rewrite Ht, app_assoc.
  - right. split; [done|]. by rewrite deletes_app, Hrun.
Qed.

Lemma drainPods_deletes fuel (a : DrainArgs) g items results (st : St W) rs st' :
  drainPods K fuel a g items results st = Some (rs, st') →
  ∃ t, trace st' = trace st ++ t
       ∧ deletes t `sublist_of` podKey <$> activePods items
       ∧ (force a = false → deletes t = []).
Proof.
  revert results st. induction items as [|pod items IH]; intros results st.
  { cbn. unfold ret. intros ?; simplify_eq. exists []. by rewrite app_nil_r. }
  cbn [drainPods]. unfold bind.
  destruct (drainPod K fuel a g pod results st) as [[rs1 st1]|] eqn:Hpod; [|done].
  assert (∃ t, trace st1 = trace st ++ t
               ∧ deletes t `sublist_of` podKey <$> activePods [pod]
               ∧ (force a = false → deletes t = []))
    as (t1 & Ht1 & Hs1 & Hf1).
  { revert Hpod. unfold drainPod, ret, activePods. cbn [filter list_filter].
    destruct (isCompletedPod pod) eqn:Hc.
    { intros ?; simplify_eq. exists []. by rewrite app_nil_r. }
    rewrite decide_True by done.
    repeat (match goal with |- context [if ?b then _ else _] => destruct b end);
      try (intros ?; simplify_eq; exists []; rewrite app_nil_r;
           split; [done|]; split; [apply sublist_nil_l|done]).
    intros (t & Ht & [Hd|[Hforce Hd]])%evictOrDelete_deletes;
      exists t; rewrite Hd; (split; [done|]); split;
      [apply sublist_nil_l | done | done | congruence]. }
  intros (t2 & Ht2 & Hs2 & Hf2)%IH.
  exists (t1 ++ t2). split; [by rewrite Ht2, Ht1, app_assoc|].
  rewrite deletes_app, activePods_cons, fmap_app. split.
  - by apply sublist_app.
  - intros Hforce. by rewrite Hf1, Hf2.
Qed.
End Deletes.

(** X4.  A drain deletes a pod only under [force]: without it no delete is
    ever sent.  With it, the deletes are, in listing order, a selection of
    the listed pods that are not completed, so that no pod is deleted
    twice. *)
Theorem drain_deletes_only_when_forced {W} (K : Cluster W) fuel (a : DrainArgs)
        (st : St W) w1 items w2 res st' :
  node_name a ≠ "" →
  clientReady K (world st) = true →
  nodesPatch K (node_name a) StrategicMergePatchType cordonPatch (world st) = (None, w1) →
  podsList K (listSelector a) w1 = (inr items, w2) →
  K8sDrain K fuel a st = Some (res, st') →
  ∃ t, trace st' = trace (listed K a st w1 w2) ++ t
       ∧ deletes t `sublist_of` podKey <$> activePods items
       ∧ (force a = false → deletes t = []).
Proof.
  intros Hn Hr Hp Hl. rewrite (K8sDrain_listed _ _ _ _ _ _ _ Hn Hr Hp Hl).
  destruct (drainPods _ _ _ _ _ _ _) as [[rs st1]|] eqn:Hd; [|done].
  intros ?; simplify_eq. by apply drainPods_deletes in Hd.
Qed.

Lemma drain_deletes_only_when_forced_witness :
  let pods := [Sim.plainPod "default" "web"; Sim.donePod "default" "job-1";
               Sim.plainPod "default" "db"] in
  match K8sDrain Sim.cluster 2 (Scenario.forced "n1")
          (Sim.start (Scenario.stubborn pods 5)) with
  | Some (_, st') =>
      ∃ t, trace st' = trace (listed Sim.cluster (Scenario.forced "n1")
                                (Sim.start (Scenario.stubborn pods 5))
                                (Scenario.stubborn pods 5) (Scenario.stubborn pods 5)) ++ t
           ∧ deletes t `sublist_of` podKey <$> activePods pods
           ∧ (force (Scenario.forced "n1") = false → deletes t = [])
  | None => False
  end.
Proof.
  cbv zeta.
  destruct (K8sDrain Sim.cluster 2 (Scenario.forced "n1")
              (Sim.start (Scenario.stubborn _ 5)))
    as [[res st']|] eqn:Hrun.
  - exact (drain_deletes_only_when_forced Sim.cluster 2 (Scenario.forced "n1")
             (Sim.start (Scenario.stubborn _ 5)) (Scenario.stubborn _ 5) _
             (Scenario.stubborn _ 5) res st'
             ltac:(discriminate) eq_refl eq_refl eq_refl Hrun).
  - vm_compute in Hrun. discriminate.
Defined.

(** ** What the results of the engine mean *)

Section Results.
Context {W : Type} (K : Cluster W).

Lemma WaitRun_result ns name w t r w' :
  WaitRun K ns name w t r w' →
  ∃ wl,
    match r with
    | None =>
        last t = Some (wl, EvGetPod ns name)
        ∧ errIs apierrors.IsNotFound (podsGet K ns name wl).1 = true
    | Some e =>
        (last t = Some (wl, EvGetPod ns name) ∧ ctxErr K w' = Some e)
        ∨ (last t = Some (wl, EvTick) ∧ (selectTick K wl).1 = Some e)
    end.
Proof.
  induction 1 as [w err w1 Hget Hnf | w err w1 Hget Hnf Hbr | w err w1 e w2 Hget Hnf Hbr Htick
                  | w err w1 w2 t r w' Hget Hnf Hbr Htick Hrun [wl IH]].
  - exists w. by rewrite Hget.
  - exists w. destruct (ctxErr K w1) as [e|] eqn:Hctx.
    + left. done.
    + by rewrite andb_false_r in Hbr.
  - exists w1. right. by rewrite Htick.
  - exists wl. rewrite !last_cons.
    destruct r as [e|].
    + destruct IH as [[-> ?]|[-> ?]]; eauto.
    + destruct IH as [-> ?]. done.
Qed.

Lemma EvictRun_result pod g maxBackoff backoff w t r w' :
  EvictRun K pod g maxBackoff backoff w t r w' →
  match r with
  | None =>
      ∃ wl,
        (last t = Some (wl, EvEvict (v1.Namespace pod) (v1.Name pod) g)
         ∧ errIs apierrors.IsNotFound (evict K (v1.Namespace pod) (v1.Name pod) g wl).1 = true)
        ∨ (last t = Some (wl, EvGetPod (v1.Namespace pod) (v1.Name pod))
           ∧ errIs apierrors.IsNotFound (podsGet K (v1.Namespace pod) (v1.Name pod) wl).1
             = true)
  | Some e =>
      ctxErr K w' = Some e
      ∨ (∃ wl d, last t = Some (wl, EvSleep d) ∧ (selectAfter K d wl).1 = Some e)
      ∨ (∃ wl, last t = Some (wl, EvTick) ∧ (selectTick K wl).1 = Some e)
      ∨ (∃ wl, last t = Some (wl, EvEvict (v1.Namespace pod) (v1.Name pod) g)
               ∧ (evict K (v1.Namespace pod) (v1.Name pod) g wl).1 = Some e
               ∧ apierrors.IsNotFound e = false ∧ retryable e = false)
  end.
Proof.
  induction 1 as [| backoff w w1 t r w' Hctx Hev Hwait | backoff w e w1 Hctx Hev Hnf
                  | backoff w e w1 ce w2 Hctx Hev Hnf Hre Hsel
                  | backoff w e w1 w2 t r w' Hctx Hev Hnf Hre Hsel Hrun IH
                  | backoff w e w1 Hctx Hev Hnf Hre].
  - by left.
  - apply WaitRun_result in Hwait as [wl Hres]. destruct r as [e|].
    + destruct Hres as [[Hl ?]|[Hl ?]]; [by left|].
      right. right. left. exists wl. by rewrite last_cons, Hl.
    + destruct Hres as [Hl ?]. exists wl. right. by rewrite last_cons, Hl.
  - exists w. left. by rewrite Hev.
  - right. left. exists w1, backoff. by rewrite Hsel.
  - destruct r as [e'|].
    + destruct IH as [?|[(wl & d & Hl & ?)|[(wl & Hl & ?)|(wl & Hl & ?)]]].
      * by left.
      * right. left. exists wl, d. by rewrite !last_cons, Hl.
      * right. right. left. exists wl. by rewrite !last_cons, Hl.
      * right. right. right. exists wl. by rewrite !last_cons, Hl.
    + destruct IH as [wl [[Hl ?]|[Hl ?]]]; exists wl; [left|right];
        by rewrite !last_cons, Hl.
  - right. right. right. exists w. by rewrite Hev.
Qed.
End Results.

(** X5.  [waitPodDeleted] only polls the pod it waits for.  It returns nil
    only right after a poll that was answered not-found; and the error it
    returns is the error of the context (read after a failed poll, or
    delivered while waiting for the next tick): what a failing poll answered
    is never returned. *)
Theorem wait_polls_until_gone_or_deadline {W} (K : Cluster W) fuel ns name
        (st : St W) r st' :
  waitPodDeleted K fuel ns name st = Some (r, st') →
  ∃ t wl,
    trace st' = trace st ++ t
    ∧ Forall (λ x : W * Event, x.2 = EvGetPod ns name ∨ x.2 = EvTick) t
    ∧ match r with
      | None =>
          last t = Some (wl, EvGetPod ns name)
          ∧ errIs apierrors.IsNotFound (podsGet K ns name wl).1 = true
      | Some e =>
          (last t = Some (wl, EvGetPod ns name) ∧ ctxErr K (world st') = Some e)
          ∨ (last t = Some (wl, EvTick) ∧ (selectTick K wl).1 = Some e)
      end.
Proof.
  intros (t & Hrun & Ht)%waitPodDeleted_run.
  destruct (WaitRun_result K _ _ _ _ _ _ Hrun) as [wl Hres].
  exists t, wl. split; [done|]. split; [by eapply WaitRun_events|done].
Qed.

(** The pod lingers: three polls, and the deadline ends the wait. *)
Lemma wait_polls_until_gone_or_deadline_witness :
  match waitPodDeleted Sim.cluster 5 "default" "web"
          (Sim.start (Scenario.lingering [] 2)) with
  | Some (r, st') =>
      ∃ t wl,
        trace st' = [] ++ t
        ∧ Forall (λ x : Sim.World * Event, x.2 = EvGetPod "default" "web" ∨ x.2 = EvTick) t
        ∧ match r with
          | None =>
              last t = Some (wl, EvGetPod "default" "web")
              ∧ errIs apierrors.IsNotFound (podsGet Sim.cluster "default" "web" wl).1 = true
          | Some e =>
              (last t = Some (wl, EvGetPod "default" "web")
               ∧ ctxErr Sim.cluster (world st') = Some e)
              ∨ (last t = Some (wl, EvTick) ∧ (selectTick Sim.cluster wl).1 = Some e)
          end
  | None => False
  end.
Proof.
  destruct (waitPodDeleted Sim.cluster 5 "default" "web"
              (Sim.start (Scenario.lingering [] 2))) as [[r st']|] eqn:Hrun.
  - exact (wait_polls_until_gone_or_deadline Sim.cluster 5 "default" "web"
             (Sim.start (Scenario.lingering [] 2)) r st' Hrun).
  - vm_compute in Hrun. discriminate.
Defined.

Example lingering_pod_wait :
  Scenario.events (waitPodDeleted Sim.cluster 5 "default" "web"
                     (Sim.start (Scenario.lingering [] 2)))
  = Some [ EvGetPod "default" "web"; EvTick; EvGetPod "default" "web"; EvTick;
           EvGetPod "default" "web"; EvTick ]
  ∧ fst <$> waitPodDeleted Sim.cluster 5 "default" "web"
              (Sim.start (Scenario.lingering [] 2))
    = Some (Some DeadlineExceeded).
Proof. split; reflexivity. Qed.

(** X6.  A pod's outcome is [evicted] only when the cluster said the pod is
    gone: the last request of its eviction step is an eviction, or a poll
    after an accepted eviction, that was answered not-found. *)
Theorem evicted_means_gone {W} (K : Cluster W) fuel (a : DrainArgs) g pod results
        (st : St W) r st' :
  evictOrDelete K fuel a g pod results st = Some (results ++ [r], st') →
  podResult.Action r = "evicted" →
  ∃ t wl,
    trace st' = trace st ++ t
    ∧ ((last t = Some (wl, EvEvict (v1.Namespace pod) (v1.Name pod) g)
        ∧ errIs apierrors.IsNotFound (evict K (v1.Namespace pod) (v1.Name pod) g wl).1
          = true)
       ∨ (last t = Some (wl, EvGetPod (v1.Namespace pod) (v1.Name pod))
          ∧ errIs apierrors.IsNotFound (podsGet K (v1.Namespace pod) (v1.Name pod) wl).1
            = true)).
Proof.
  rewrite evictOrDelete_eq.
  destruct (evictWithRetry _ _ _ _ _ _ _) as [[res st1]|] eqn:Hrun; [|done].
  apply evictWithRetry_run in Hrun as (t & Hrun & Ht).
  destruct res as [err|].
  - destruct (force a); [cbn zeta; destruct (podsDelete K _ _ _ _).1|];
      intros Heq; injection Heq as Heq _; apply app_inj_tail in Heq as [_ <-]; done.
  - intros ? _; simplify_eq.
    destruct (EvictRun_result K _ _ _ _ _ _ _ _ Hrun) as [wl Hres]. by exists t, wl.
Qed.

Lemma evicted_means_gone_witness :
  match evictOrDelete Sim.cluster 2 (Sim.args "n1") None (Sim.plainPod "default" "web") []
          (Sim.start (Sim.healthy [] 5)) with
  | Some (_, st') =>
      ∃ t wl,
        trace st' = [] ++ t
        ∧ ((last t = Some (wl, EvEvict "default" "web" None)
            ∧ errIs apierrors.IsNotFound (evict Sim.cluster "default" "web" None wl).1 = true)
           ∨ (last t = Some (wl, EvGetPod "default" "web")
              ∧ errIs apierrors.IsNotFound (podsGet Sim.cluster "default" "web" wl).1 = true))
  | None => False
  end.
Proof.
  destruct (evictOrDelete Sim.cluster 2 (Sim.args "n1") None (Sim.plainPod "default" "web") []
              (Sim.start (Sim.healthy [] 5))) as [[rs st']|] eqn:Hrun.
  - assert (rs = [] ++ [mkResult (Sim.plainPod "default" "web") "evicted" ""]) as Hrs.
    { vm_compute in Hrun. by injection Hrun as <- _. }
    rewrite Hrs in Hrun.
    exact (evicted_means_gone Sim.cluster 2 (Sim.args "n1") None
             (Sim.plainPod "default" "web") [] (Sim.start (Sim.healthy [] 5)) _ st'
             Hrun eq_refl).
  - vm_compute in Hrun. discriminate.
Defined.

(** X7.  The error the eviction engine returns is either the error of the
    context (at the check before an attempt, after a failed poll, or
    delivered during a sleep or a tick) or the answer to its last eviction,
    unchanged, and then that answer is neither not-found nor one the engine
    retries.  A 429, a conflict or a timeout answer is never returned. *)
Theorem engine_errors {W} (K : Cluster W) fuel pod g initialBackoff maxBackoff
        (st : St W) e st' :
  evictWithRetry K fuel pod g initialBackoff maxBackoff st = Some (Some e, st') →
  ∃ t,
    trace st' = trace st ++ t
    ∧ (ctxErr K (world st') = Some e
       ∨ (∃ wl d, last t = Some (wl, EvSleep d) ∧ (selectAfter K d wl).1 = Some e)
       ∨ (∃ wl, last t = Some (wl, EvTick) ∧ (selectTick K wl).1 = Some e)
       ∨ (∃ wl, last t = Some (wl, EvEvict (v1.Namespace pod) (v1.Name pod) g)
                ∧ (evict K (v1.Namespace pod) (v1.Name pod) g wl).1 = Some e
                ∧ apierrors.IsNotFound e = false
                ∧ apierrors.IsTooManyRequests e = false
                ∧ apierrors.IsConflict e = false
                ∧ apierrors.IsServerTimeout e = false
                ∧ apierrors.IsTimeout e = false)).
Proof.
  intros (t & Hrun & Ht)%evictWithRetry_run. exists t. split; [done|].
  pose proof (EvictRun_result K _ _ _ _ _ _ _ _ Hrun) as Hres. cbn in Hres.
  destruct Hres as [?|[?|[?|(wl & Hl & Hans & Hnf & Hre)]]]; eauto.
  right. right. right. exists wl. unfold retryable in Hre.
  apply orb_false_iff in Hre as [? [[? ?]%orb_false_iff ?]%orb_false_iff]. done.
Qed.

(** A forbidden eviction: the engine returns the cluster's answer as it is. *)
Lemma engine_errors_witness :
  match evictWithRetry Sim.cluster 2 (Sim.plainPod "default" "web") None 0 0
          (Sim.start (Scenario.stubborn [Sim.plainPod "default" "web"] 5)) with
  | Some (Some e, st') =>
      ∃ t,
        trace st' = [] ++ t
        ∧ (ctxErr Sim.cluster (world st') = Some e
           ∨ (∃ wl d, last t = Some (wl, EvSleep d) ∧ (selectAfter Sim.cluster d wl).1 = Some e)
           ∨ (∃ wl, last t = Some (wl, EvTick) ∧ (selectTick Sim.cluster wl).1 = Some e)
           ∨ (∃ wl, last t = Some (wl, EvEvict "default" "web" None)
                    ∧ (evict Sim.cluster "default" "web" None wl).1 = Some e
                    ∧ apierrors.IsNotFound e = false
                    ∧ apierrors.IsTooManyRequests e = false
                    ∧ apierrors.IsConflict e = false
                    ∧ apierrors.IsServerTimeout e = false
                    ∧ apierrors.IsTimeout e = false))
  | _ => False
  end.
Proof.
  destruct (evictWithRetry Sim.cluster 2 (Sim.plainPod "default" "web") None 0 0
              (Sim.start (Scenario.stubborn [Sim.plainPod "default" "web"] 5)))
    as [[[e|] st']|] eqn:Hrun.
  - exact (engine_errors Sim.cluster 2 (Sim.plainPod "default" "web") None 0%Z 0%Z
             (Sim.start (Scenario.stubborn [Sim.plainPod "default" "web"] 5)) e st' Hrun).
  - vm_compute in Hrun. discriminate.
  - vm_compute in Hrun. discriminate.
Defined.

(** ** Attempts and sleeps *)

Section Attempts.
Context {W : Type} (K : Cluster W).

Lemma EvictRun_attempts pod g maxBackoff backoff w t r w' :
  EvictRun K pod g maxBackoff backoff w t r w' →
  length (sleeps t) ≤ length (evictionWorlds t)
  ∧ length (evictionWorlds t) ≤ S (length (sleeps t)).
Proof.
  induction 1 as [| backoff w w1 t r w' Hctx Hev Hwait | |
                  | backoff w e w1 w2 t r w' Hctx Hev Hnf Hre Hsel Hrun IH
                  | backoff w e w1 Hctx Hev Hnf Hre];
    cbn; try lia.
  apply WaitRun_trace in Hwait as (-> & -> & _). cbn. lia.
Qed.

Lemma EvictRun_attempts_bounded remaining pod g maxBackoff backoff w t r w' :
  Progress K remaining →
  EvictRun K pod g maxBackoff backoff w t r w' →
  length (evictionWorlds t) ≤ S (remaining w).
Proof.
  intros Hprog.
  induction 1 as [| backoff w w1 t r w' Hctx Hev Hwait | |
                  | backoff w e w1 w2 t r w' Hctx Hev Hnf Hre Hsel Hrun IH
                  | backoff w e w1 Hctx Hev Hnf Hre];
    cbn; try lia.
  - apply WaitRun_trace in Hwait as (_ & -> & _). cbn. lia.
  - pose proof (evict_keeps K remaining Hprog (v1.Namespace pod) (v1.Name pod) g w) as Hk.
    rewrite Hev in Hk. cbn in Hk.
    apply (after_fires K remaining Hprog) in Hsel. lia.
Qed.

Lemma EvictRun_first_sleep pod g maxBackoff backoff w t r w' :
  EvictRun K pod g maxBackoff backoff w t r w' →
  sleeps t = [] ∨ ∃ l, sleeps t = backoff :: l.
Proof.
  destruct 1 as [| backoff w w1 t r w' Hctx Hev Hwait | | | |]; cbn; eauto.
  apply WaitRun_trace in Hwait as (-> & _). by left.
Qed.

Lemma EvictRun_accepted_final pod g maxBackoff backoff w0 t r w' :
  EvictRun K pod g maxBackoff backoff w0 t r w' →
  ∀ t1 w t2,
    t = t1 ++ (w, EvEvict (v1.Namespace pod) (v1.Name pod) g) :: t2 →
    (evict K (v1.Namespace pod) (v1.Name pod) g w).1 = None →
    Forall (λ x : W * Event,
              x.2 = EvGetPod (v1.Namespace pod) (v1.Name pod) ∨ x.2 = EvTick) t2.
Proof.
  induction 1 as [| backoff w w1 t r w' Hctx Hev Hwait | backoff w e w1 Hctx Hev Hnf
                  | backoff w e w1 ce w2 Hctx Hev Hnf Hre Hsel
                  | backoff w e w1 w2 t r w' Hctx Hev Hnf Hre Hsel Hrun IH
                  | backoff w e w1 Hctx Hev Hnf Hre];
    intros t1 wx t2 Ht Hans.
  - by destruct t1.
  - apply WaitRun_events in Hwait. destruct t1 as [|x t1]; simplify_eq/=; [done|].
    rewrite Forall_app, Forall_cons in Hwait. destruct Hwait as (_ & [?|?] & _); done.
  - destruct t1 as [|x [|y t1]]; simplify_eq/=. by rewrite Hev in Hans.
  - destruct t1 as [|x [|y [|z t1]]]; simplify_eq/=. by rewrite Hev in Hans.
  - destruct t1 as [|x [|y t1]]; simplify_eq/=; [by rewrite Hev in Hans|].
    by eapply IH.
  - destruct t1 as [|x [|y t1]]; simplify_eq/=. by rewrite Hev in Hans.
Qed.
End Attempts.

(** X8.  The engine never retries without backing off, and never backs off
    without an attempt: in every run the sleeps are at most as many as the
    eviction requests, which are at most one more than the sleeps.  When
    timers use up the time to the deadline, the requests for one pod are at
    most one more than the time that was left. *)
Theorem attempts_and_sleeps_alternate {W} (K : Cluster W) fuel pod g initialBackoff
        maxBackoff (st : St W) r st' :
  evictWithRetry K fuel pod g initialBackoff maxBackoff st = Some (r, st') →
  ∃ t,
    trace st' = trace st ++ t
    ∧ length (sleeps t) ≤ length (evictionWorlds t)
    ∧ length (evictionWorlds t) ≤ S (length (sleeps t))
    ∧ ∀ remaining, Progress K remaining →
                   length (evictionWorlds t) ≤ S (remaining (world st)).
Proof.
  intros (t & Hrun & Ht)%evictWithRetry_run. exists t. split; [done|].
  destruct (EvictRun_attempts K _ _ _ _ _ _ _ _ Hrun) as [? ?].
  repeat split; try done.
  intros remaining Hprog. by eapply EvictRun_attempts_bounded.
Qed.

(** Time for two sleeps under a budget that always refuses: two attempts. *)
Lemma attempts_and_sleeps_alternate_witness :
  match evictWithRetry Sim.cluster 9 (Sim.plainPod "default" "web") None 0 0
          (Sim.start (Sim.congested 9 2)) with
  | Some (_, st') =>
      ∃ t,
        trace st' = [] ++ t
        ∧ length (sleeps t) ≤ length (evictionWorlds t)
        ∧ length (evictionWorlds t) ≤ S (length (sleeps t))
        ∧ ∀ remaining, Progress Sim.cluster remaining →
                       length (evictionWorlds t) ≤ S (remaining (Sim.congested 9 2))
  | None => False
  end.
Proof.
  destruct (evictWithRetry Sim.cluster 9 (Sim.plainPod "default" "web") None 0 0
              (Sim.start (Sim.congested 9 2))) as [[r st']|] eqn:Hrun.
  - exact (attempts_and_sleeps_alternate Sim.cluster 9 (Sim.plainPod "default" "web") None
             0%Z 0%Z (Sim.start (Sim.congested 9 2)) r st' Hrun).
  - vm_compute in Hrun. discriminate.
Defined.

Example congested_attempts :
  Scenario.events (evictWithRetry Sim.cluster 9 (Sim.plainPod "default" "web") None 0 0
                     (Sim.start (Sim.congested 9 2)))
  = Some [ EvEvict "default" "web" None; EvSleep Second;
           EvEvict "default" "web" None; EvSleep (2 * Second)%Z ].
Proof. reflexivity. Qed.

(** X9.  Every pod starts from the initial backoff: whatever was slept for
    the pods before, the first sleep of a pod's eviction step is the
    configured initial backoff, or one second when that is zero or
    negative. *)
Theorem each_pod_starts_at_initial_backoff {W} (K : Cluster W) fuel (a : DrainArgs) g pod
        results (st : St W) rs st' :
  evictOrDelete K fuel a g pod results st = Some (rs, st') →
  ∃ t,
    trace st' = trace st ++ t
    ∧ (sleeps t = []
       ∨ ∃ l, sleeps t
              = (if (scale (retry_backoff_ms a) Millisecond <=? 0)%Z then Second
                 else scale (retry_backoff_ms a) Millisecond) :: l).
Proof.
  rewrite evictOrDelete_eq.
  destruct (evictWithRetry _ _ _ _ _ _ _) as [[r st1]|] eqn:Hrun; [|done].
  apply evictWithRetry_run in Hrun as (t & Hrun & Ht).
  apply EvictRun_first_sleep in Hrun. fold (effectiveInitial (scale (retry_backoff_ms a)
                                                               Millisecond)).
  destruct r as [err|]; [|by intros ?; simplify_eq; exists t].
  destruct (force a); [|by intros ?; simplify_eq; exists t].
  cbn zeta. intros Hres.
  exists (t ++ [(world st1, EvDeletePod (v1.Namespace pod) (v1.Name pod) g)]). split.
  - destruct (podsDelete K _ _ _ _).1; simplify_eq; cbn; by rewrite Ht, app_assoc.
  - rewrite sleeps_app. cbn. by rewrite app_nil_r.
Qed.

Lemma each_pod_starts_at_initial_backoff_witness :
  match evictOrDelete Sim.cluster 9 (Sim.args "n1") None (Sim.plainPod "default" "web") []
          {| world := Sim.congested 2 5;
             trace := [(Sim.congested 4 9, EvSleep (ms 8000))] |} with
  | Some (_, st') =>
      ∃ t,
        trace st' = [(Sim.congested 4 9, EvSleep (ms 8000))] ++ t
        ∧ (sleeps t = [] ∨ ∃ l, sleeps t = ms 1000 :: l)
  | None => False
  end.
Proof.
  destruct (evictOrDelete Sim.cluster 9 (Sim.args "n1") None (Sim.plainPod "default" "web") []
              {| world := Sim.congested 2 5;
                 trace := [(Sim.congested 4 9, EvSleep (ms 8000))] |})
    as [[rs st']|] eqn:Hrun.
  - exact (each_pod_starts_at_initial_backoff Sim.cluster 9 (Sim.args "n1") None
             (Sim.plainPod "default" "web") [] _ rs st' Hrun).
  - vm_compute in Hrun. discriminate.
Defined.

(** X10.  An accepted eviction is final: after an eviction request that the
    cluster accepted, the engine sends no further eviction for the pod and
    sleeps no more; it only polls the pod and waits for ticks. *)
Theorem accepted_eviction_is_not_repeated {W} (K : Cluster W) fuel pod g initialBackoff
        maxBackoff (st : St W) r st' t1 w t2 :
  evictWithRetry K fuel pod g initialBackoff maxBackoff st = Some (r, st') →
  trace st' = trace st ++ t1 ++ (w, EvEvict (v1.Namespace pod) (v1.Name pod) g) :: t2 →
  (evict K (v1.Namespace pod) (v1.Name pod) g w).1 = None →
  Forall (λ x : W * Event,
            x.2 = EvGetPod (v1.Namespace pod) (v1.Name pod) ∨ x.2 = EvTick) t2.
Proof.
  intros (t & Hrun & Ht)%evictWithRetry_run Ht' Hans.
  rewrite Ht in Ht'. apply app_inv_head in Ht'.
  by eapply EvictRun_accepted_final.
Qed.

Lemma accepted_eviction_is_not_repeated_witness :
  Forall (λ x : Sim.World * Event, x.2 = EvGetPod "default" "web" ∨ x.2 = EvTick)
         [(Sim.healthy [] 4, EvGetPod "default" "web")].
Proof.
  refine (accepted_eviction_is_not_repeated Sim.cluster 3 (Sim.plainPod "default" "web")
            None 0%Z 0%Z (Sim.start (Sim.congested 1 5)) None
            {| world := Sim.healthy [] 4;
               trace := [(Sim.congested 1 5, EvEvict "default" "web" None);
                         (Sim.healthy [] 5, EvSleep Second);
                         (Sim.healthy [] 4, EvEvict "default" "web" None);
                         (Sim.healthy [] 4, EvGetPod "default" "web")] |}
            [(Sim.congested 1 5, EvEvict "default" "web" None);
             (Sim.healthy [] 5, EvSleep Second)]
            (Sim.healthy [] 4) _ _ _ _); reflexivity.
Defined.

(** ** Once the deadline has passed *)

(** X11.  The deadline is shared by all pods.  Once it has passed, a drain
    without [force] sends nothing more: every remaining pod that is not
    completed gets its outcome, the skips as before and [evict_failed] with
    the context's error for each pod that would have been evicted, and the
    world and the log stay as they are. *)
Theorem after_deadline_nothing_is_sent {W} (K : Cluster W) fuel (a : DrainArgs) g items
        results (st : St W) e :
  ctxErr K (world st) = Some e →
  force a = false →
  drainPods K (S fuel) a g items results st
  = Some (results ++ (outcomeAfterDeadline a e <$> activePods items), st).
Proof.
  intros Hctx Hforce. revert results.
  induction items as [|pod items IH]; intros results.
  { cbn. by rewrite app_nil_r. }
  cbn [drainPods]. unfold bind.
  assert (drainPod K (S fuel) a g pod results st
          = Some (results ++ (outcomeAfterDeadline a e <$> activePods [pod]), st)) as ->.
  { unfold drainPod, activePods. cbn [filter list_filter].
    destruct (isCompletedPod pod) eqn:Hc.
    { rewrite decide_False by done. cbn. by rewrite app_nil_r. }
    rewrite decide_True by done. cbn [fmap list_fmap].
    unfold outcomeAfterDeadline. rewrite classify_spec_code, Hc.
    destruct (isMirrorPod pod); [done|].
    destruct (ignore_daemonsets a && isOwnedBy pod "DaemonSet"); [done|].
    destruct (negb (delete_local_data a) && hasLocalData pod && negb (force a)); [done|].
    rewrite evictOrDelete_eq, evictWithRetry_eq, evictLoop_S. cbn zeta.
    by rewrite Hctx, Hforce. }
  rewrite IH, (activePods_cons pod items), fmap_app, app_assoc. done.
Qed.

(** No time left at all: two pods, two [evict_failed], nothing sent. *)
Lemma after_deadline_nothing_is_sent_witness :
  let pods := [Sim.plainPod "default" "web"; Sim.mirrorPod "kube-system" "etcd-n1";
               Sim.plainPod "default" "db"] in
  drainPods Sim.cluster 1 (Sim.args "n1") None pods [] (Sim.start (Sim.healthy pods 0))
  = Some ([ mkResult (Sim.plainPod "default" "web") "evict_failed"
              "context deadline exceeded";
            mkResult (Sim.mirrorPod "kube-system" "etcd-n1")
              "skipped (mirror/static pod)" "";
            mkResult (Sim.plainPod "default" "db") "evict_failed"
              "context deadline exceeded" ],
          Sim.start (Sim.healthy pods 0)).
Proof.
  cbv zeta.
  exact (after_deadline_nothing_is_sent Sim.cluster 0 (Sim.args "n1") None _ []
           (Sim.start (Sim.healthy _ 0)) DeadlineExceeded eq_refl eq_refl).
Defined.

(** ** Error texts of the outcomes *)

Section ErrorTexts.
Context {W : Type} (K : Cluster W).

Lemma evictOrDelete_error_text fuel (a : DrainArgs) g pod results (st : St W) rs st' :
  evictOrDelete K fuel a g pod results st = Some (rs, st') →
  ∃ r, rs = results ++ [r] ∧ errorExplained r.
Proof.
  rewrite evictOrDelete_eq. unfold errorExplained.
  destruct (evictWithRetry _ _ _ _ _ _ _) as [[[err|] st1]|]; [| |done].
  - destruct (force a).
    + cbn zeta. destruct (podsDelete K _ _ _ _).1 as [derr|];
        intros ?; simplify_eq; eexists; (split; [done|]); cbn.
      * right. right. split; [done|]. by do 2 eexists.
      * left. done.
    + intros ?; simplify_eq. eexists. split; [done|]. right. by left.
  - intros ?; simplify_eq. eexists. split; [done|]. by left.
Qed.

Lemma drainPods_error_text fuel (a : DrainArgs) g items results (st : St W) rs st' :
  drainPods K fuel a g items results st = Some (rs, st') →
  ∃ new, rs = results ++ new ∧ Forall errorExplained new.
Proof.
  revert results st. induction items as [|pod items IH]; intros results st.
  { cbn. unfold ret. intros ?; simplify_eq. exists []. by rewrite app_nil_r. }
  cbn [drainPods]. unfold bind.
  destruct (drainPod K fuel a g pod results st) as [[rs1 st1]|] eqn:Hpod; [|done].
  assert (∃ new, rs1 = results ++ new ∧ Forall errorExplained new)
    as (new1 & -> & Hall1).
  { revert Hpod. unfold drainPod, ret.
    destruct (isCompletedPod pod).
    { intros ?; simplify_eq. exists []. by rewrite app_nil_r. }
    repeat (match goal with |- context [if ?b then _ else _] => destruct b end);
      try (intros ?; simplify_eq; eexists; split; [done|];
           apply Forall_singleton; left; done).
    intros (r & -> & Hr)%evictOrDelete_error_text.
    eexists. split; [done|]. by apply Forall_singleton. }
  intros (new2 & -> & Hall2)%IH.
  exists (new1 ++ new2). rewrite app_assoc. split; [done|]. by apply Forall_app.
Qed.
End ErrorTexts.

(** X12.  In a report an outcome carries an error text only when its action
    is [evict_failed] or [evict_failed_delete_failed]: skips, [evicted] and
    [force_deleted] have none (so their entries are written without the
    [error] field), and [evict_failed_delete_failed] always has both errors,
    the eviction's and the delete's. *)
Theorem report_error_texts {W} (K : Cluster W) fuel (a : DrainArgs) (st : St W) res st' :
  K8sDrain K fuel a st = Some (res, st') →
  IsError res = false →
  ∃ rs, res = report a rs ∧ Forall errorExplained rs.
Proof.
  intros [[Herr _]|(w1 & items & w2 & rs & _ & _ & _ & _ & Hd & ->)]%K8sDrain_cases Hok.
  { congruence. }
  apply drainPods_error_text in Hd as (new & -> & Hall). by exists new.
Qed.

Lemma report_error_texts_witness :
  let pods := [Sim.plainPod "default" "web"; Sim.mirrorPod "kube-system" "etcd-n1"] in
  let w := {| Sim.ready := true; Sim.cordonAnswer := None; Sim.listAnswer := inr pods;
              Sim.timeLeft := 5; Sim.evictAnswers := [Some Sim.forbidden];
              Sim.getAnswer := None; Sim.deleteAnswer := Some Sim.notFound |} in
  ∃ rs, report (Scenario.forced "n1")
          [ mkResult (Sim.plainPod "default" "web") "evict_failed_delete_failed"
              "evict: forbidden; delete: pods not found";
            mkResult (Sim.mirrorPod "kube-system" "etcd-n1")
              "skipped (mirror/static pod)" "" ]
        = report (Scenario.forced "n1") rs
        ∧ Forall errorExplained rs.
Proof.
  cbv zeta.
  refine (report_error_texts Sim.cluster 2 (Scenario.forced "n1")
            (Sim.start {| Sim.ready := true; Sim.cordonAnswer := None;
                          Sim.listAnswer := inr [Sim.plainPod "default" "web";
                                                 Sim.mirrorPod "kube-system" "etcd-n1"];
                          Sim.timeLeft := 5; Sim.evictAnswers := [Some Sim.forbidden];
                          Sim.getAnswer := None; Sim.deleteAnswer := Some Sim.notFound |})
            _ _ _ _); [vm_compute; reflexivity | reflexivity].
Defined.

(** ** Cordon and uncordon *)

Section CordonUncordon.
Context {W : Type} (K : Cluster W).

Lemma K8sUncordon_eq nodeName (st : St W) :
  K8sUncordon K nodeName st =
    if bool_decide (nodeName = "") then
      Some (textErrorResult (Str "node_name is required"), st)
    else if clientReady K (world st) then
      let ev := EvPatchNode nodeName StrategicMergePatchType uncordonPatch in
      let st1 := logged st ev
                   (nodesPatch K nodeName StrategicMergePatchType uncordonPatch (world st)).2 in
      match (nodesPatch K nodeName StrategicMergePatchType uncordonPatch (world st)).1 with
      | Some err =>
          Some (textErrorResult
                  (Str ("Error uncordoning node " +:+ nodeName +:+ ": " +:+ errorText err)),
                st1)
      | None =>
          Some (textOKResult (Str ("Node " +:+ nodeName +:+ " uncordoned successfully")), st1)
      end
    else Some (textErrorResult (Str "Kubernetes client is not initialized"), st).
Proof.
  unfold K8sUncordon. case_bool_decide; [done|].
  unfold bind, getClient, peek. destruct (clientReady K (world st)); [|done].
  rewrite call_eq. by destruct (nodesPatch K _ _ _ _).1.
Qed.
End CordonUncordon.

(** X13.  [K8sUncordon] always returns.  It sends nothing, or one strategic
    merge patch for the node it was given, whose only content is
    [spec.unschedulable] set to false; and its result is not an error
    exactly when that patch was sent and the cluster accepted it. *)
Theorem uncordon_patches_only_unschedulable {W} (K : Cluster W) :
  (∃ m spec,
     uncordonPatch = JObject m
     ∧ dom m = {[ "spec" ]}
     ∧ m !! "spec" = Some (JObject spec)
     ∧ dom spec = {[ "unschedulable" ]}
     ∧ spec !! "unschedulable" = Some (JBool false))
  ∧ (∀ nodeName (st : St W),
       ∃ res st' t,
         K8sUncordon K nodeName st = Some (res, st')
         ∧ trace st' = trace st ++ t
         ∧ (t = [] ∧ st' = st ∧ IsError res = true
            ∨ t = [(world st, EvPatchNode nodeName StrategicMergePatchType uncordonPatch)]
              ∧ (IsError res = false
                 ↔ (nodesPatch K nodeName StrategicMergePatchType uncordonPatch
                      (world st)).1 = None))).
Proof.
  split.
  - unfold uncordonPatch. do 2 eexists. split; [done|].
    rewrite !dom_singleton_L. by rewrite lookup_singleton_eq.
  - intros nodeName st. rewrite K8sUncordon_eq.
    case_bool_decide.
    { do 2 eexists. exists []. rewrite app_nil_r. eauto 10. }
    destruct (clientReady K (world st)).
    2:{ do 2 eexists. exists []. rewrite app_nil_r. eauto 10. }
    cbn zeta. destruct (nodesPatch K _ _ _ _).1 as [err|];
      do 3 eexists; (split; [done|]); (split; [done|]); right; (split; [done|]); done.
Qed.

(** X14.  [K8sCordon] reports success exactly when it sent its patch and the
    cluster accepted it; in every other case its result is an error. *)
Theorem cordon_succeeds_iff_patched {W} (K : Cluster W) nodeName (st : St W) :
  ∃ res st',
    K8sCordon K nodeName st = Some (res, st')
    ∧ (IsError res = false
       ↔ nodeName ≠ "" ∧ clientReady K (world st) = true
         ∧ (nodesPatch K nodeName StrategicMergePatchType cordonPatch (world st)).1 = None
         ∧ trace st'
           = trace st ++ [(world st, EvPatchNode nodeName StrategicMergePatchType cordonPatch)]).
Proof.
  rewrite K8sCordon_eq. case_bool_decide.
  { do 2 eexists. split; [done|]. cbn. split; [done|]. by intros [? _]. }
  destruct (clientReady K (world st)).
  2:{ do 2 eexists. split; [done|]. cbn. split; [done|]. by intros (_ & ? & _). }
  cbn zeta. destruct (nodesPatch K _ _ _ _).1 as [err|];
    do 2 eexists; (split; [done|]); cbn; split; try done.
  by intros (_ & _ & ? & _).
Qed.

(** X15.  The three node tools check their input before they send anything:
    without a node name each returns the error [node_name is required], and
    with a node name but no client each returns the error of the missing
    client; in both cases the world and the log are left as they were.  The
    missing node name is reported first. *)
Theorem node_tools_validate_first {W} (K : Cluster W) fuel (a : DrainArgs) (st : St W) :
  (node_name a = "" →
   K8sCordon K (node_name a) st
   = Some (textErrorResult (Str "node_name is required"), st)
   ∧ K8sUncordon K (node_name a) st
     = Some (textErrorResult (Str "node_name is required"), st)
   ∧ K8sDrain K fuel a st
     = Some (textErrorResult (Str "node_name is required"), st))
  ∧ (node_name a ≠ "" → clientReady K (world st) = false →
     K8sCordon K (node_name a) st
     = Some (textErrorResult (Str "Kubernetes client is not initialized"), st)
     ∧ K8sUncordon K (node_name a) st
       = Some (textErrorResult (Str "Kubernetes client is not initialized"), st)
     ∧ K8sDrain K fuel a st
       = Some (textErrorResult (Str "Kubernetes client is not initialized"), st)).
Proof.
  split.
  - intros Hn. rewrite K8sCordon_eq, K8sUncordon_eq. unfold K8sDrain.
    by rewrite !bool_decide_true.
  - intros Hn Hr. rewrite K8sCordon_eq, K8sUncordon_eq. unfold K8sDrain.
    rewrite !bool_decide_false, Hr by done.
    unfold bind, getClient, peek. by rewrite Hr.
Qed.

Lemma node_tools_validate_first_witness :
  let w := {| Sim.ready := false; Sim.cordonAnswer := None; Sim.listAnswer := inr [];
              Sim.timeLeft := 5; Sim.evictAnswers := []; Sim.getAnswer := None;
              Sim.deleteAnswer := None |} in
  K8sCordon Sim.cluster "n1" (Sim.start w)
  = Some (textErrorResult (Str "Kubernetes client is not initialized"), Sim.start w)
  ∧ K8sUncordon Sim.cluster "n1" (Sim.start w)
    = Some (textErrorResult (Str "Kubernetes client is not initialized"), Sim.start w)
  ∧ K8sDrain Sim.cluster 0 (Sim.args "n1") (Sim.start w)
    = Some (textErrorResult (Str "Kubernetes client is not initialized"), Sim.start w).
Proof.
  cbv zeta.
  refine (proj2 (node_tools_validate_first Sim.cluster 0 (Sim.args "n1") (Sim.start _))
            _ _); [discriminate | reflexivity].
Defined.

(** ** Decoding the arguments *)

Section Decoding.
Context {F : Type} (R : GoRuntime F).

(** X16.  Given only a node name, a drain runs with the documented
    defaults: DaemonSet pods are not ignored, local data is protected,
    [force] is off, no grace period is sent, and the timeout is 600 s with
    backoffs from 1000 ms to 10000 ms. *)
Theorem drain_defaults (args : gmap string (Any F)) :
  (∀ key, key ∈ ["ignore_daemonsets"; "delete_local_data"; "force"; "grace_period";
                 "timeout_seconds"; "retry_backoff_ms"; "max_backoff_ms"] →
          args !! key = None) →
  drainArgs R args
  = {| node_name := stringArg args "node_name";
       ignore_daemonsets := false; delete_local_data := false; force := false;
       grace_period := None; timeout_seconds := 600;
       retry_backoff_ms := 1000; max_backoff_ms := 10000 |}
  ∧ gracePtrOf (drainArgs R args) = None.
Proof.
  intros Hnone.
  assert (drainArgs R args
          = {| node_name := stringArg args "node_name";
               ignore_daemonsets := false; delete_local_data := false; force := false;
               grace_period := None; timeout_seconds := 600;
               retry_backoff_ms := 1000; max_backoff_ms := 10000 |}) as Heq.
  { unfold drainArgs, boolFromArgs, intFromArgsDefault, intFromArgs.
    rewrite !Hnone by (repeat constructor). done. }
  split; [done|]. by rewrite Heq.
Qed.

(** X17.  A node name that is missing, empty, or not a string is no node
    name: each of the three node tools then returns the error
    [node_name is required] and leaves the world and the log as they
    were. *)
Theorem node_name_must_be_a_string {W} (K : Cluster W) fuel (args : gmap string (Any F))
        (st : St W) :
  (∀ s, args !! "node_name" = Some (AnyString s) → s = "") →
  K8sCordonTool K args st = Some (textErrorResult (Str "node_name is required"), st)
  ∧ K8sUncordonTool K args st = Some (textErrorResult (Str "node_name is required"), st)
  ∧ K8sDrainTool R K fuel args st = Some (textErrorResult (Str "node_name is required"), st).
Proof.
  intros Hname.
  assert (stringArg args "node_name" = "") as Hn.
  { unfold stringArg. destruct (args !! "node_name") as [[]|]; try done. by apply Hname. }
  unfold K8sCordonTool, K8sUncordonTool, K8sDrainTool.
  rewrite K8sCordon_eq, K8sUncordon_eq. unfold K8sDrain. cbn [node_name drainArgs].
  by rewrite Hn.
Qed.

(** X18.  [boolFromArgs] reads a boolean from a boolean, from any number
    (true when not zero), and from the strings [true], [1], [false] and [0];
    for a key that is missing or holds anything else it returns the
    default.  So its result depends on the default exactly when the key does
    not hold a value it reads. *)
Theorem boolFromArgs_reads_or_defaults (args : gmap string (Any F)) (key : string) :
  (boolFromArgs R args key true = boolFromArgs R args key false
   ↔ ∃ v, args !! key = Some v ∧ readsAsBool v)
  ∧ (∀ def, (∀ v, args !! key = Some v → ¬ readsAsBool v) →
            boolFromArgs R args key def = def)
  ∧ (∀ def b, args !! key = Some (AnyBool b) → boolFromArgs R args key def = b)
  ∧ (∀ def f, args !! key = Some (AnyFloat64 f) →
              boolFromArgs R args key def = floatNonZero R f)
  ∧ (∀ def t, args !! key = Some (AnyString t) → t = "true" ∨ t = "1" →
              boolFromArgs R args key def = true)
  ∧ (∀ def t, args !! key = Some (AnyString t) → t = "false" ∨ t = "0" →
              boolFromArgs R args key def = false).
Proof.
  unfold boolFromArgs. destruct (args !! key) as [v|] eqn:Hv.
  2:{ split; [split; [done|by intros (? & ? & _)]|]. repeat split; intros; done. }
  split; [|split; [|repeat split]].
  - destruct v as [b|t|f|z|z|]; cbn; try (split; [done|by intros (? & ? & ?); simplify_eq]);
      try (split; [intros _; eexists; split; [done|]; done|done]).
    repeat case_bool_decide; subst; cbn; split; try done;
      try (intros _; eexists; split; [done|]; cbn; by eauto);
      intros (v & ? & Hr); simplify_eq; cbn in Hr; by intuition.
  - intros def Hno. specialize (Hno v eq_refl).
    destruct v as [b|t|f|z|z|]; cbn in *; try done.
    repeat case_bool_decide; subst; cbn; try done; exfalso; apply Hno; eauto.
  - by intros def b ?; simplify_eq.
  - by intros def f ?; simplify_eq.
  - intros def t ? [->| ->]; by simplify_eq.
  - intros def t ? [->| ->]; by simplify_eq.
Qed.
End Decoding.

Lemma drain_defaults_witness :
  drainArgs TestRuntime.runtime {[ "node_name" := AnyString "n1" ]}
  = {| node_name := stringArg ({[ "node_name" := AnyString "n1" ]} : gmap string (Any Z))
                      "node_name";
       ignore_daemonsets := false; delete_local_data := false; force := false;
       grace_period := None; timeout_seconds := 600;
       retry_backoff_ms := 1000; max_backoff_ms := 10000 |}
  ∧ gracePtrOf (drainArgs TestRuntime.runtime {[ "node_name" := AnyString "n1" ]}) = None.
Proof.
  apply (drain_defaults TestRuntime.runtime {[ "node_name" := AnyString "n1" ]}).
  intros key Hkey. apply lookup_singleton_ne. intros <-.
  revert Hkey. rewrite !elem_of_cons, elem_of_nil. intuition discriminate.
Defined.

Lemma node_name_must_be_a_string_witness :
  let args : gmap string (Any Z) := {[ "node_name" := AnyFloat64 7%Z; "force" := AnyBool true ]} in
  K8sCordonTool Sim.cluster args (Sim.start (Sim.healthy [] 5))
  = Some (textErrorResult (Str "node_name is required"), Sim.start (Sim.healthy [] 5))
  ∧ K8sUncordonTool Sim.cluster args (Sim.start (Sim.healthy [] 5))
    = Some (textErrorResult (Str "node_name is required"), Sim.start (Sim.healthy [] 5))
  ∧ K8sDrainTool TestRuntime.runtime Sim.cluster 0 args (Sim.start (Sim.healthy [] 5))
    = Some (textErrorResult (Str "node_name is required"), Sim.start (Sim.healthy [] 5)).
Proof.
  cbv zeta.
  apply (node_name_must_be_a_string TestRuntime.runtime Sim.cluster 0
           ({[ "node_name" := AnyFloat64 7%Z; "force" := AnyBool true ]} : gmap string (Any Z))
           (Sim.start (Sim.healthy [] 5))).
  intros s Hs. vm_compute in Hs. discriminate.
Defined.

Lemma boolFromArgs_reads_or_defaults_witness :
  boolFromArgs TestRuntime.runtime {[ "force" := AnyString "yes" ]} "force" true = true
  ∧ boolFromArgs TestRuntime.runtime {[ "force" := AnyString "yes" ]} "force" false = false.
Proof.
  split;
    apply (proj1 (proj2 (boolFromArgs_reads_or_defaults TestRuntime.runtime
                           {[ "force" := AnyString "yes" ]} "force")));
    intros v Hv; vm_compute in Hv; injection Hv as <-; cbn;
    intros [?|[?|[?|?]]]; discriminate.
Defined.

(** ** The tools a server offers *)

(** X19.  The node tools are offered exactly when write operations are not
    disabled: [k8s_cordon], [k8s_uncordon] and [k8s_drain] are registered
    with their handlers unless [DisableWrite] is set, whatever the other
    options are.  The kubectl tool, when offered, is given the write and
    delete options of the server.  No registration replaces another: the
    number of tools is 12, plus 24 with write, plus one each for delete,
    kubectl and helm. *)
Theorem node_tools_offered_iff_write_enabled (opts : server.Options) :
  server.registered opts !! "k8s_cordon"
  = (if server.DisableWrite opts then None
     else Some {| server.Name := "k8s_cordon"; server.Description := "Cordon node";
                  server.handler := server.hK8sCordon |})
  ∧ server.registered opts !! "k8s_uncordon"
    = (if server.DisableWrite opts then None
       else Some {| server.Name := "k8s_uncordon"; server.Description := "Uncordon node";
                    server.handler := server.hK8sUncordon |})
  ∧ server.registered opts !! "k8s_drain"
    = (if server.DisableWrite opts then None
       else Some {| server.Name := "k8s_drain"; server.Description := "Drain node";
                    server.handler := server.hK8sDrain |})
  ∧ server.registered opts !! "kubectl"
    = (if server.DisableKubectl opts then None
       else Some {| server.Name := "kubectl";
                    server.Description := "Run a kubectl command and return the output";
                    server.handler := server.hKubectl (server.DisableWrite opts)
                                                      (server.DisableDelete opts) |})
  ∧ size (server.registered opts)
    = 12 + (if server.DisableWrite opts then 0 else 24)
      + (if server.DisableDelete opts then 0 else 1)
      + (if server.DisableKubectl opts then 0 else 1)
      + (if server.DisableHelm opts then 0 else 1).
Proof.
  destruct opts as [k h w d t ho po].
  destruct k, h, w, d; vm_compute; done.
Qed.

(** ** The kubectl and helm guards *)

Section Guards.
Context (Fields : string → list string) (TrimSpace : string → string).
Context (combinedOutput : string → list string → string * option error).

Lemma flag_kubectlDeleteOps sub : flag kubectlDeleteOps sub = bool_decide (sub = "delete").
Proof.
  unfold flag, kubectlDeleteOps. case_bool_decide as Hs.
  - subst. done.
  - by rewrite lookup_singleton_ne.
Qed.

(** X20.  The kubectl tool runs a command unless it refuses it, and it
    refuses exactly on the first subcommand: with delete disabled when that
    is [delete], with write disabled when it is one of the listed write
    verbs (among them [cordon], [uncordon], [drain] and [delete]).  A
    refused command is not run; any other command is run once, with its
    fields as arguments. *)
Theorem kubectl_refuses_on_first_subcommand (disableWrite disableDelete : bool)
        (cmdStr : string) :
  let sub := firstSubcommand Fields TrimSpace cmdStr "kubectl" in
  let refused := (disableDelete && bool_decide (sub = "delete"))
                 || (disableWrite && flag kubectlWriteOps sub) in
  (refused = true →
   IsError (kubectlTool Fields TrimSpace combinedOutput disableWrite disableDelete cmdStr).1
   = true
   ∧ (kubectlTool Fields TrimSpace combinedOutput disableWrite disableDelete cmdStr).2 = [])
  ∧ (refused = false →
     (kubectlTool Fields TrimSpace combinedOutput disableWrite disableDelete cmdStr).2
     = [("kubectl", commandArgs Fields "kubectl" cmdStr)])
  ∧ (sub ∈ ["cordon"; "uncordon"; "drain"; "delete"] → flag kubectlWriteOps sub = true).
Proof.
  cbv zeta. unfold kubectlTool. rewrite flag_kubectlDeleteOps.
  set (sub := firstSubcommand Fields TrimSpace cmdStr "kubectl").
  assert (flag kubectlWriteOps "" = false) as Hempty by (vm_compute; done).
  split; [|split].
  - intros Href.
    destruct (decide (sub = "")) as [Hs|Hs].
    { rewrite Hs, Hempty in Href. rewrite bool_decide_false in Href by done.
      by rewrite !andb_false_r in Href. }
    rewrite (bool_decide_false (sub = "")) by done. cbn [negb andb].
    destruct (disableDelete && bool_decide (sub = "delete")) eqn:Hd; [done|].
    rewrite ?Hd in Href. cbn [orb] in Href. by rewrite Href.
  - intros Href. apply orb_false_iff in Href as [-> ->].
    rewrite !andb_false_r. by destruct (runCommand _ _ _) as [out [err|]].
  - intros Hin. rewrite !elem_of_cons, elem_of_nil in Hin.
    destruct Hin as [->|[->|[->|[->|[]]]]]; vm_compute; done.
Qed.

(** X21.  The guards and the run agree on what the command is, provided
    trimming does not change the fields of the command (as for
    [strings.Fields]): the subcommand the guards inspect is the first
    argument the binary is run with, or empty when there is none; and the
    first of the two subcommands helm inspects is that same subcommand. *)
Theorem guard_inspects_first_argument (command bin : string) :
  Fields (TrimSpace command) = Fields command →
  firstSubcommand Fields TrimSpace command bin
  = default "" (head (commandArgs Fields bin command))
  ∧ (firstTwoSubcommands Fields TrimSpace command bin).1
    = firstSubcommand Fields TrimSpace command bin
  ∧ (firstTwoSubcommands Fields TrimSpace command bin).2
    = default "" (commandArgs Fields bin command !! 1).
Proof.
  intros Htrim. unfold firstSubcommand, firstTwoSubcommands, commandArgs. rewrite Htrim.
  destruct (Fields command) as [|p0 rest]; [done|].
  case_bool_decide.
  - destruct rest as [|p [|q rest]]; done.
  - destruct rest as [|q rest]; done.
Qed.

(** X22.  The helm tool refuses only when write is disabled, and then
    exactly when its first subcommand, or its first two subcommands joined
    by a space, is a listed write operation.  A refused command is not run;
    any other command is run once, with its fields as arguments. *)
Theorem helm_refuses_on_first_subcommands (disableWrite : bool) (cmdStr : string) :
  let sub1 := (firstTwoSubcommands Fields TrimSpace cmdStr "helm").1 in
  let sub2 := (firstTwoSubcommands Fields TrimSpace cmdStr "helm").2 in
  let refused := disableWrite
                 && negb (bool_decide (sub1 = ""))
                 && (flag helmWriteOps sub1
                     || (negb (bool_decide (sub2 = ""))
                         && flag helmWriteOps (sub1 +:+ " " +:+ sub2))) in
  (refused = true →
   IsError (helmTool Fields TrimSpace combinedOutput disableWrite cmdStr).1 = true
   ∧ (helmTool Fields TrimSpace combinedOutput disableWrite cmdStr).2 = [])
  ∧ (refused = false →
     (helmTool Fields TrimSpace combinedOutput disableWrite cmdStr).2
     = [("helm", commandArgs Fields "helm" cmdStr)]).
Proof.
  cbv zeta. unfold helmTool.
  destruct (firstTwoSubcommands Fields TrimSpace cmdStr "helm") as [sub1 sub2]. cbn [fst snd].
  destruct disableWrite; cbn [andb].
  2:{ split; [done|]. intros _. by destruct (runCommand _ _ _) as [out [err|]]. }
  destruct (bool_decide (sub1 = "")); cbn [negb andb].
  { split; [done|]. intros _. by destruct (runCommand _ _ _) as [out [err|]]. }
  destruct (flag helmWriteOps sub1); cbn [orb]; [done|].
  destruct (negb (bool_decide (sub2 = "")) && flag helmWriteOps (sub1 +:+ " " +:+ sub2));
    [done|].
  split; [done|]. intros _. by destruct (runCommand _ _ _) as [out [err|]].
Qed.
End Guards.

Lemma kubectl_refuses_on_first_subcommand_witness :
  IsError (kubectlTool TestShell.Fields TestShell.TrimSpace TestShell.combinedOutput
             true false "kubectl drain n1 --force").1 = true
  ∧ (kubectlTool TestShell.Fields TestShell.TrimSpace TestShell.combinedOutput
       true false "kubectl drain n1 --force").2 = [].
Proof.
  apply (proj1 (kubectl_refuses_on_first_subcommand TestShell.Fields TestShell.TrimSpace
                  TestShell.combinedOutput true false "kubectl drain n1 --force")).
  reflexivity.
Defined.

Lemma guard_inspects_first_argument_witness :
  firstSubcommand TestShell.Fields TestShell.TrimSpace "helm repo add stable" "helm"
  = default "" (head (commandArgs TestShell.Fields "helm" "helm repo add stable"))
  ∧ (firstTwoSubcommands TestShell.Fields TestShell.TrimSpace "helm repo add stable" "helm").1
    = firstSubcommand TestShell.Fields TestShell.TrimSpace "helm repo add stable" "helm"
  ∧ (firstTwoSubcommands TestShell.Fields TestShell.TrimSpace "helm repo add stable" "helm").2
    = default "" (commandArgs TestShell.Fields "helm" "helm repo add stable" !! 1).
Proof.
  apply (guard_inspects_first_argument TestShell.Fields TestShell.TrimSpace
           "helm repo add stable" "helm").
  reflexivity.
Defined.

Lemma helm_refuses_on_first_subcommands_witness :
  IsError (helmTool TestShell.Fields TestShell.TrimSpace TestShell.combinedOutput
             true "helm repo add stable https://charts.example").1 = true
  ∧ (helmTool TestShell.Fields TestShell.TrimSpace TestShell.combinedOutput
       true "helm repo add stable https://charts.example").2 = [].
Proof.
  apply (proj1 (helm_refuses_on_first_subcommands TestShell.Fields TestShell.TrimSpace
                  TestShell.combinedOutput true "helm repo add stable https://charts.example")).
  reflexivity.
Defined.

(** With write disabled, [kubectl get pods] runs and [helm repo list] runs. *)
Example read_commands_run :
  (kubectlTool TestShell.Fields TestShell.TrimSpace TestShell.combinedOutput
     true true "get pods -A").2 = [("kubectl", ["get"; "pods"; "-A"])]
  ∧ (helmTool TestShell.Fields TestShell.TrimSpace TestShell.combinedOutput
       true "helm repo list").2 = [("helm", ["repo"; "list"])].
Proof. split; reflexivity. Qed.

(** ** Quoting a path for the shell *)

Ltac step_append :=
  repeat match goal with
         | |- context [String.append (String.String ?c ?s) ?t] =>
             change (String.append (String.String c s) t)
               with (String.String c (String.append s t))
         | |- context [String.append String.EmptyString ?t] =>
             change (String.append String.EmptyString t) with t
         end.

Section Quoting.

Lemma string_app_assoc (s1 s2 s3 : string) : (s1 +:+ s2) +:+ s3 = s1 +:+ (s2 +:+ s3).
Proof. induction s1 as [|c s1 IH]; step_append; [done|]. by rewrite IH. Qed.

Lemma ReplaceAll_app s1 s2 old new :
  strings.ReplaceAll (s1 +:+ s2) old new
  = strings.ReplaceAll s1 old new +:+ strings.ReplaceAll s2 old new.
Proof.
  induction s1 as [|c s1 IH]; [done|].
  step_append. cbn [strings.ReplaceAll]. rewrite IH.
  by rewrite string_app_assoc.
Qed.

Lemma escaped_cons c s :
  escaped (String.String c s)
  = (if bool_decide (c = strings.backslash)
     then String.String strings.backslash (strings.char strings.backslash)
     else if bool_decide (c = strings.dquote)
          then String.String strings.backslash (strings.char strings.dquote)
          else strings.char c) +:+ escaped s.
Proof.
  unfold escaped. cbn [strings.ReplaceAll]. rewrite ReplaceAll_app.
  f_equal. unfold strings.char.
  repeat case_bool_decide; subst; try done; step_append; cbn [strings.ReplaceAll];
    rewrite ?bool_decide_true, ?bool_decide_false by done; try done.
Qed.

Lemma escaped_quotedBytes s : escaped s = quotedBytes s.
Proof.
  induction s as [|c s IH]; [done|].
  rewrite escaped_cons. cbn [quotedBytes]. unfold quotedByte. by rewrite IH.
Qed.

Lemma quotedBytes_inj s s' :
  quotedBytes s +:+ strings.char strings.dquote
  = quotedBytes s' +:+ strings.char strings.dquote →
  s = s'.
Proof.
  assert (strings.dquote ≠ strings.backslash) as Hqb by (by intros [=]).
  revert s'. induction s as [|c s IH]; intros [|c' s']; cbn [quotedBytes];
    unfold quotedByte, strings.char; repeat case_bool_decide; subst; step_append;
    intros Heq; simplify_eq; try done; f_equal; by apply IH.
Qed.
End Quoting.

(** X23.  [shellQuote] escapes byte by byte: its two replacements, one
    after the other, give the path between double quotes with a backslash
    put before every backslash and every double quote of the path, and with
    every other byte written as it is (the second replacement does not touch
    what the first one wrote).  Different paths are quoted differently. *)
Theorem shellQuote_escapes_each_byte (s : string) :
  shellQuote s
  = strings.char strings.dquote +:+ quotedBytes s +:+ strings.char strings.dquote
  ∧ ∀ s', shellQuote s = shellQuote s' → s = s'.
Proof.
  assert (∀ s, shellQuote s
               = strings.char strings.dquote +:+ quotedBytes s
                 +:+ strings.char strings.dquote) as Hq.
  { clear. intros s. unfold shellQuote. fold (escaped s). by rewrite escaped_quotedBytes. }
  split; [apply Hq|].
  intros s'. rewrite !Hq. unfold strings.char at 1 3. step_append.
  intros Heq. apply quotedBytes_inj. by simplify_eq.
Qed.

(** Only the backslash and the double quote are escaped: a dollar sign and
    a backquote are written as they are. *)
Example shellQuote_leaves_dollar :
  shellQuote "$(id) `id`"
  = strings.char strings.dquote +:+ "$(id) `id`" +:+ strings.char strings.dquote.
Proof. reflexivity. Qed.

Example shellQuote_path_with_quote :
  shellQuote ("/tmp/a" +:+ strings.char strings.dquote +:+ "b\c")
  = strings.char strings.dquote +:+ "/tmp/a\" +:+ strings.char strings.dquote +:+ "b\\c"
    +:+ strings.char strings.dquote.
Proof. reflexivity. Qed.

(** ** Splitting [pod:path] *)

Section SplitPodPath.
Context (Quote : string → string).

Lemma cut_join before sep after :
  strings.contains before sep = false →
  strings.cut (before +:+ strings.char sep +:+ after) sep = Some (before, after).
Proof.
  induction before as [|d before IH]; intros Hno.
  - unfold strings.char. step_append. cbn [strings.cut]. by rewrite bool_decide_true.
  - cbn in Hno. apply orb_false_iff in Hno as [Hd Hno].
    step_append. cbn [strings.cut]. rewrite Hd. by rewrite IH.
Qed.

Lemma cut_split s sep before after :
  strings.cut s sep = Some (before, after) →
  s = before +:+ strings.char sep +:+ after ∧ strings.contains before sep = false.
Proof.
  revert before. induction s as [|c s IH]; intros before; cbn [strings.cut]; [done|].
  case_bool_decide as Hc.
  - subst c. by intros ?; simplify_eq.
  - destruct (strings.cut s sep) as [[b a]|]; [|done].
    intros ?; simplify_eq. destruct (IH b eq_refl) as [-> Hno].
    step_append. split; [done|]. cbn. by rewrite bool_decide_false.
Qed.

Lemma cut_Some s sep before after :
  strings.cut s sep = Some (before, after)
  ↔ s = before +:+ strings.char sep +:+ after ∧ strings.contains before sep = false.
Proof.
  split; [apply cut_split|]. intros [-> Hno]. by apply cut_join.
Qed.

(** X24.  [splitPodPath] accepts exactly the strings that have a pod name,
    a colon and a path, both not empty, the pod name being what precedes the
    first colon: it then returns that pod name and that path, which put
    together with the colon give the string again; any other string is an
    error, with empty results. *)
Theorem splitPodPath_round_trip (s pod path : string) :
  (splitPodPath Quote s = (pod, path, None)
   ↔ s = pod +:+ ":" +:+ path ∧ pod ≠ "" ∧ path ≠ ""
     ∧ strings.contains pod strings.colon = false)
  ∧ ((∃ pod' path', splitPodPath Quote s = (pod', path', None))
     ∨ splitPodPath Quote s
       = ("", "", Some ("invalid pod path " +:+ Quote s +:+ "; expected pod_name:path"))).
Proof.
  unfold splitPodPath, strings.SplitN2.
  destruct (strings.cut s strings.colon) as [[b a]|] eqn:Hcut.
  - destruct (decide (b = "")) as [->|Hb].
    { cbn. split; [|by eauto]. split; [done|].
      intros (Hs & Hp & Ha & Hno).
      assert (strings.cut s strings.colon = Some (pod, path)) as Hcut'.
      { apply cut_Some. done. }
      congruence. }
    destruct (decide (a = "")) as [->|Ha].
    { rewrite (bool_decide_false (b = "")), (bool_decide_true ("" = "")) by done.
      cbn. split; [|by eauto]. split; [done|].
      intros (Hs & Hp & Ha & Hno).
      assert (strings.cut s strings.colon = Some (pod, path)) as Hcut'.
      { apply cut_Some. done. }
      congruence. }
    rewrite !bool_decide_false by done. cbn [orb]. split; [|by eauto 10].
    split.
    + intros ?; simplify_eq. apply cut_Some in Hcut as [-> Hno]. done.
    + intros (Hs & Hp & Hpath & Hno).
      assert (strings.cut s strings.colon = Some (pod, path)) as Hcut'.
      { apply cut_Some. done. }
      congruence.
  - split; [|by eauto]. split; [done|].
    intros (Hs & Hp & Ha & Hno).
    assert (strings.cut s strings.colon = Some (pod, path)) as Hcut'.
    { apply cut_Some. done. }
    congruence.
Qed.
End SplitPodPath.

Example splitPodPath_examples :
  splitPodPath id "web-0:/var/log/app:1.log" = ("web-0", "/var/log/app:1.log", None)
  ∧ splitPodPath id ":/etc" = ("", "", Some "invalid pod path :/etc; expected pod_name:path")
  ∧ splitPodPath id "web-0" = ("", "", Some "invalid pod path web-0; expected pod_name:path").
Proof. repeat split; reflexivity. Qed.

(** ** Trimming bytes *)

Section Trim.

Lemma trimStart_spec rest start :
  ∃ lead rest',
    rest = lead ++ rest'
    ∧ Forall (λ c, isBlank c = true) lead
    ∧ trimStart rest start = start + length lead
    ∧ ∀ c, head rest' = Some c → isBlank c = false.
Proof.
  revert start. induction rest as [|c rest IH]; intros start.
  - exists [], []. cbn. repeat split; [constructor|lia|done].
  - cbn [trimStart]. destruct (isBlank c) eqn:Hc.
    + destruct (IH (S start)) as (lead & rest' & -> & Hlead & -> & Hhead).
      exists (c :: lead), rest'. cbn. repeat split; [by constructor|lia|done].
    + exists [], (c :: rest). cbn. repeat split; [constructor|lia|].
      by intros ? [= <-].
Qed.

Lemma trimEnd_spec (b : list Byte.byte) start end_ :
  end_ ≤ length b → start ≤ end_ →
  start ≤ trimEnd b start end_ ≤ end_
  ∧ Forall (λ c, isBlank c = true)
           (take (end_ - trimEnd b start end_) (drop (trimEnd b start end_) b))
  ∧ (start < trimEnd b start end_ →
     ∃ c, b !! (trimEnd b start end_ - 1) = Some c ∧ isBlank c = false).
Proof.
  induction end_ as [|e IH]; intros Hlen Hstart.
  { cbn. repeat split; [lia|lia|constructor|lia]. }
  cbn [trimEnd].
  assert (is_Some (b !! e)) as [c Hc] by (apply lookup_lt_is_Some_2; lia).
  rewrite Hc. cbn [default from_option id].
  destruct (Nat.ltb_spec start (S e)) as [Hlt|Hge]; cbn [andb].
  2:{ repeat split; [lia|lia|by rewrite Nat.sub_diag|lia]. }
  destruct (isBlank c) eqn:Hblank.
  2:{ repeat split; [lia|lia|by rewrite Nat.sub_diag|].
      intros _. exists c. by rewrite Nat.sub_1_r. }
  destruct IH as ((Hlo & Hhi) & Hall & Hlast); [lia|lia|].
  repeat split; [lia|lia| |done].
  set (e' := trimEnd b start e) in *.
  replace (S e - e') with ((e - e') + 1) by lia.
  rewrite <- take_take_drop.
  apply Forall_app. split; [done|].
  rewrite drop_drop. replace (e' + (e - e')) with e by lia.
  rewrite (drop_S _ c) by done. cbn. by repeat constructor.
Qed.

Lemma bytesTrimSpace_fixed (r : list Byte.byte) :
  (∀ c, head r = Some c → isBlank c = false) →
  (∀ c, last r = Some c → isBlank c = false) →
  bytesTrimSpace r = r.
Proof.
  intros Hhead Hlast. unfold bytesTrimSpace.
  assert (trimStart r 0 = 0) as ->.
  { destruct r as [|c r]; [done|]. cbn. by rewrite (Hhead c). }
  assert (trimEnd r 0 (length r) = length r) as ->.
  { destruct (length r) as [|e] eqn:Hlen; [done|]. cbn [trimEnd].
    rewrite last_lookup, Hlen in Hlast. cbn in Hlast.
    destruct (r !! e) as [c|] eqn:Hc.
    - cbn. by rewrite (Hlast c).
    - apply lookup_ge_None in Hc. lia. }
  rewrite Nat.sub_0_r, drop_0. apply firstn_all.
Qed.
End Trim.

(** X25.  [bytesTrimSpace] returns the bytes between the leading and the
    trailing run of blanks (space, newline, carriage return, tab): the input
    is blanks, then the result, then blanks; the result neither starts nor
    ends with a blank; and trimming again changes nothing. *)
Theorem bytesTrimSpace_trims (b : list Byte.byte) :
  (∃ lead tail,
     b = lead ++ bytesTrimSpace b ++ tail
     ∧ Forall (λ c, isBlank c = true) lead
     ∧ Forall (λ c, isBlank c = true) tail)
  ∧ (∀ c, head (bytesTrimSpace b) = Some c → isBlank c = false)
  ∧ (∀ c, last (bytesTrimSpace b) = Some c → isBlank c = false)
  ∧ bytesTrimSpace (bytesTrimSpace b) = bytesTrimSpace b.
Proof.
  destruct (trimStart_spec b 0) as (lead & rest' & Hb & Hlead & Hstart & Hhead).
  cbn in Hstart.
  assert (length lead ≤ length b) as Hll by (rewrite Hb, length_app; lia).
  destruct (trimEnd_spec b (length lead) (length b)) as ((Hlo & Hhi) & Htail & Hlast);
    [lia|lia|].
  assert (bytesTrimSpace b
          = take (trimEnd b (length lead) (length b) - length lead) rest') as Hres.
  { unfold bytesTrimSpace. rewrite Hstart. f_equal.
    rewrite Hb. apply drop_app_length. }
  set (e := trimEnd b (length lead) (length b)) in *.
  assert (∀ c, head (bytesTrimSpace b) = Some c → isBlank c = false) as Hh.
  { intros c. rewrite Hres. destruct (e - length lead) eqn:Hn; [done|].
    destruct rest'; [done|]. cbn. apply Hhead. }
  assert (∀ c, last (bytesTrimSpace b) = Some c → isBlank c = false) as Hl.
  { intros c. rewrite Hres, last_lookup, length_take.
    destruct (decide (e - length lead = 0)) as [Hz|Hnz].
    { rewrite Hz. done. }
    assert (length rest' = length b - length lead) as Hlr.
    { rewrite Hb, length_app. lia. }
    replace ((e - length lead) `min` length rest') with (e - length lead) by lia.
    rewrite lookup_take_lt by lia.
    destruct Hlast as (c' & Hc' & Hblank); [lia|].
    rewrite Hb in Hc'. rewrite lookup_app_r in Hc' by lia.
    replace (pred (e - length lead)) with (e - 1 - length lead) by lia.
    rewrite Hc'. by intros [= <-]. }
  split; [|split; [done|split; [done|by apply bytesTrimSpace_fixed]]].
  exists lead, (drop e b). split; [|split; [done|]].
  - assert (drop e b = drop (e - length lead) rest') as ->.
    { rewrite Hb. by rewrite drop_app_ge by lia. }
    by rewrite Hres, take_drop.
  - rewrite <- (take_ge (drop e b) (length b - e)); [done|].
    rewrite length_drop. lia.
Qed.

Example bytesTrimSpace_token :
  bytesTrimSpace [Byte.x0a; Byte.x20; Byte.x61; Byte.x20; Byte.x62; Byte.x09; Byte.x0a]
  = [Byte.x61; Byte.x20; Byte.x62]
  ∧ bytesTrimSpace [Byte.x20; Byte.x0a] = []
  ∧ bytesTrimSpace [] = [].
Proof. repeat split; reflexivity. Qed.
